(** * PowerTag Modbus driver: discovery and register polling

    A shallow embedding of [src/drivers/powertag/driver.ts] (the pairing
    driver) and of the Modbus helper module that follows it in the same
    source file ([readAllRegisters] ... [parseAsciiBuffer]).

    Conventions.
    - JS numbers that hold integers are [Z]; register buffers are
      [list byte]; JS strings built from single bytes are [string]
      (one [ascii] per UTF-16 code unit below 256).
    - A promise that rejects and a [throw] are both the [Err] outcome of
      [Result]; no handler in the source inspects the error value. A
      promise that never settles, and an [await] of one, are the [Never]
      outcome: nothing after the [await] runs, no [catch] and no
      [finally] block either.
    - The Modbus client is explicit state: the addressed unit id, its
      request handler with the gateway behind the socket, and a
      chronological log of what the caller issued and awaited. *)

From Stdlib Require Import ZArith Lia List Strings.String Strings.Ascii Strings.Byte.
From stdpp Require Import base list list_numbers gmap strings pretty.

Local Open Scope Z_scope.
Local Open Scope string_scope.

(** ** Outcomes of fallible code *)

Inductive Result (A : Type) : Type :=
| Ok (a : A)
| Err
| Never.
Arguments Ok {A} a.
Arguments Err {A}.
Arguments Never {A}.

Definition is_Ok {A} (r : Result A) : bool :=
  match r with Ok _ => true | Err | Never => false end.

Definition of_option {A} (o : option A) : Result A :=
  match o with Some a => Ok a | None => Err end.

(** ** Buffers and the wire codec *)

Module Buffer.

Definition byteZ (b : byte) : Z := Z.of_N (Byte.to_N b).

(** [buf[i]] (or [array[i]]) for an index inside or outside the range. *)
Definition at_ {A} (buf : list A) (offset : Z) : option A :=
  if bool_decide (0 <= offset) then buf !! Z.to_nat offset else None.

(** [buf.readUInt16BE(offset)]: a [RangeError] when the two bytes are not
    both inside the buffer. *)
Definition readUInt16BE (buf : list byte) (offset : Z) : Result Z :=
  match at_ buf offset, at_ buf (offset + 1) with
  | Some hi, Some lo => Ok (byteZ hi * 256 + byteZ lo)
  | _, _ => Err
  end.


(** The big-endian encoding of one 16-bit register (two zero bytes for a
    value that is not one). *)
Definition of_register (v : Z) : list byte :=
  match Byte.of_N (Z.to_N (v / 256)), Byte.of_N (Z.to_N (v mod 256)) with
  | Some hi, Some lo => [hi; lo]
  | _, _ => [x00%byte; x00%byte]
  end.

End Buffer.

(** ** JS strings *)

Module JsString.

(** The code units below 256 that [String.prototype.trim] removes:
    TAB, LF, VT, FF, CR, SPACE and NBSP. *)
Definition is_whitespace (c : ascii) : bool :=
  let n := N_of_ascii c in
  ((9 <=? n) && (n <=? 13) || (n =? 32) || (n =? 160))%N.

Fixpoint trimStart (s : list ascii) : list ascii :=
  match s with
  | c :: s' => if is_whitespace c then trimStart s' else s
  | [] => []
  end.

Definition trimEnd (s : list ascii) : list ascii :=
  reverse (trimStart (reverse s)).

Definition trim (s : string) : string :=
  string_of_list_ascii (trimEnd (trimStart (list_ascii_of_string s))).

Definition fromCharCode (b : byte) : string :=
  String (ascii_of_byte b) EmptyString.

End JsString.

(** [parseAsciiBuffer]: the loop over [i] with its accumulator [str],
    leaving at the first zero byte, then [trim]. *)
Fixpoint parseAsciiBuffer_loop (buf : list byte) (str : string) : string :=
  match buf with
  | [] => str
  | b :: rest =>
      if bool_decide (Buffer.byteZ b = 0) then str
      else parseAsciiBuffer_loop rest (str +:+ JsString.fromCharCode b)
  end.

Definition parseAsciiBuffer (buf : list byte) : string :=
  JsString.trim (parseAsciiBuffer_loop buf "").

(** ** The Modbus client and the gateway behind it *)

Inductive Request : Type :=
| ReadHoldingRegisters (start count : Z)
| WriteSingleRegister (address value : Z).

(** What becomes of a request's promise: it is fulfilled with the response
    body, it is rejected (a timeout or a Modbus exception response), or
    it stays pending for ever. *)
Inductive Response : Type :=
| Fulfilled (valuesAsBuffer : list byte)
| Rejected
| Pending.

Inductive ConnectOutcome : Type := Connected | ConnectTimeout | ConnectError.

(** A gateway behaviour: whether the socket connects, and how each request
    that is put on the wire for a unit id is answered, possibly depending
    on everything the gateway has seen so far. The client is created with
    a timeout of 500 ms, so a request that was put on the wire always
    settles: an answer that does not come in time is a rejection. *)
Class Gateway (G : Type) : Type := {
  connect : G -> ConnectOutcome;
  respond : G -> Z -> Request -> Response * G;
  respond_settles : forall g unitId rq, (respond g unitId rq).1 <> Pending
}.

(** The caller-level log: each request handed to the client, with the unit
    id it was created for and what its promise will settle to ([Rejected]
    also where the call throws instead of returning a promise), and each
    point at which the caller waits for [n] promises. *)
Inductive Event : Type :=
| Issued (unitId : Z) (rq : Request) (resp : Response)
| Awaited (n : nat).

(** The request handler of the client ([client._requestHandler]) with what
    is behind its socket. The handler sends one request at a time, from
    the head of its queue; [handler_stalled] says that the request at the
    head can never be sent, so that nothing behind it ever is. *)
Record RequestHandler (G : Type) : Type := mkHandler {
  handler_stalled : bool;
  handler_gateway : G
}.
Arguments mkHandler {G}.
Arguments handler_stalled {G}.
Arguments handler_gateway {G}.

Record Client (G : Type) : Type := mkClient {
  client_unitId : Z;
  client_handler : RequestHandler G;
  client_log : list Event;
  socket_destroyed : bool
}.
Arguments mkClient {G}.
Arguments client_unitId {G}.
Arguments client_handler {G}.
Arguments client_log {G}.
Arguments socket_destroyed {G}.

Definition client_gateway {G} (c : Client G) : G :=
  handler_gateway (client_handler c).

(** [new Modbus.client.TCP(socket, 1, 500)] on a fresh socket. *)
Definition newClient {G} (g : G) : Client G :=
  mkClient 1 (mkHandler false g) [] false.

(** The same, in front of the gateway that [c] talks to and with the log
    of [c] carried on. *)
Definition created {G} (c : Client G) : Client G :=
  mkClient 1 (mkHandler false (client_gateway c)) (client_log c) false.

Definition M (G A : Type) : Type := Client G -> Result A * Client G.

Definition ret {G A} (a : A) : M G A := fun c => (Ok a, c).

Definition throw {G A} : M G A := fun c => (Err, c).

Definition bind {G A B} (m : M G A) (k : A -> M G B) : M G B :=
  fun c => match m c with
           | (Ok a, c') => k a c'
           | (Err, c') => (Err, c')
           | (Never, c') => (Never, c')
           end.

Notation "'do' x <- m ; k" := (bind m (fun x => k))
  (at level 10, x pattern, m at level 100, k at level 200,
   format "'[v' 'do'  x  <-  m ; '/' k ']'").

Definition lift {G A} (r : Result A) : M G A := fun c => (r, c).

(** [try { body } catch { handler }] *)
Definition try_catch {G A} (body handler : M G A) : M G A :=
  fun c => match body c with
           | (Ok a, c') => (Ok a, c')
           | (Err, c') => handler c'
           | (Never, c') => (Never, c')
           end.

(** [try { body } finally { cleanup }] with a cleanup that cannot throw. *)
Definition try_finally {G A} (body : M G A) (cleanup : Client G -> Client G) : M G A :=
  fun c => match body c with
           | (Never, c') => (Never, c')
           | (r, c') => (r, cleanup c')
           end.

Section Client.
Context {G : Type} `{Gateway G}.

Definition write_log (e : Event) (c : Client G) : Client G :=
  mkClient (client_unitId c) (client_handler c) (client_log c ++ [e]) (socket_destroyed c).

(** [setUnitId]: both private fields are set to the same value, whatever
    it is. *)
Definition setUnitId (unitId : Z) : M G unit :=
  fun c => (Ok tt, mkClient unitId (client_handler c) (client_log c) (socket_destroyed c)).

(** The frame of a request has one byte for the unit id. *)
Definition fits_in_byte (unitId : Z) : bool := bool_decide (0 <= unitId <= 255).

(** What the request handler makes of a request for [unitId]. A request
    behind one that cannot be sent stays in the queue: its promise is
    pending for ever. Otherwise the request is written into its frame; a
    unit id that does not fit in the byte makes that step throw a
    [RangeError], which fails this read and leaves the request at the
    head of the queue, where it blocks every later one. A request that
    was framed goes on the wire, and the gateway answers it. *)
Definition handle (h : RequestHandler G) (unitId : Z) (rq : Request)
  : Response * RequestHandler G :=
  if handler_stalled h then (Pending, h)
  else if fits_in_byte unitId then
    let '(resp, g') := respond (handler_gateway h) unitId rq in
    (resp, mkHandler false g')
  else (Rejected, mkHandler true (handler_gateway h)).

(** The handler frames a request inside the call that hands it over
    when nothing is ahead of it in the queue: the [RangeError] is thrown
    by that call. *)
Definition call_throws (h : RequestHandler G) (unitId : Z) : bool :=
  negb (handler_stalled h) && negb (fits_in_byte unitId).

(** Handing a request to the client returns its promise at once, unless
    the call throws. The client puts requests on the wire in the order
    they were issued, so the gateway answers them in that order. *)
Definition issue (rq : Request) : M G Response :=
  fun c => let '(resp, h') := handle (client_handler c) (client_unitId c) rq in
           (if call_throws (client_handler c) (client_unitId c) then Err else Ok resp,
            mkClient (client_unitId c) h'
                     (client_log c ++ [Issued (client_unitId c) rq resp])
                     (socket_destroyed c)).

Definition readHoldingRegisters (start count : Z) : M G Response :=
  issue (ReadHoldingRegisters start count).

Definition writeSingleRegister (address value : Z) : M G Response :=
  issue (WriteSingleRegister address value).

Definition settle (p : Response) : Result (list byte) :=
  match p with
  | Fulfilled buf => Ok buf
  | Rejected => Err
  | Pending => Never
  end.

(** [await p]; the value is [resp.response.body.valuesAsBuffer]. *)
Definition await (p : Response) : M G (list byte) :=
  fun c => (settle p, write_log (Awaited 1) c).

(** [Promise.all]: rejected as soon as one promise is, fulfilled when all
    are, and pending otherwise. *)
Fixpoint settle_all (ps : list Response) : Result (list (list byte)) :=
  match ps with
  | [] => Ok []
  | p :: ps' =>
      match settle p, settle_all ps' with
      | Ok buf, Ok bufs => Ok (buf :: bufs)
      | Err, _ | _, Err => Err
      | _, _ => Never
      end
  end.

Fixpoint issue_all (rqs : list Request) : M G (list Response) :=
  match rqs with
  | [] => ret []
  | rq :: rqs' =>
      do p <- issue rq;
      do ps <- issue_all rqs';
      ret (p :: ps)
  end.

(** [await Promise.all([client.readHoldingRegisters(..), ...])]: the array
    elements are evaluated first, which issues every request, and only
    then does the caller wait; one rejection rejects the whole. A call
    that throws ends the evaluation of the array: the requests after it
    are not issued, and nothing is awaited. *)
Definition await_all (rqs : list Request) : M G (list (list byte)) :=
  do ps <- issue_all rqs;
  fun c => (settle_all ps, write_log (Awaited (length ps)) c).

(** The socket connects, or the promise around [socket.connect] rejects. *)
Definition connectSocket : M G unit :=
  fun c => match connect (client_gateway c) with
           | Connected => (Ok tt, c)
           | ConnectTimeout | ConnectError => (Err, c)
           end.

(** [new net.Socket()] and [new Modbus.client.TCP(socket, 1, 500)]: a
    socket and a client of their own. *)
Definition createClient : M G unit :=
  fun c => (Ok tt, created c).

Definition destroySocket (c : Client G) : Client G :=
  mkClient (client_unitId c) (client_handler c) (client_log c) true.

End Client.

(** ** Collaborators outside this source file *)

(** The interface of [lib/PowerTagRegistry] and of the model type of
    [lib/types], as far as this file uses them: the fields [typeId],
    [model] and [name] of a model configuration, the static table keyed by
    type id, the lookup by commercial reference, and the two functions
    that derive the platform's capability data. *)
Class PowerTagRegistry : Type := {
  PowerTagModelConfig : Type;
  mc_typeId : PowerTagModelConfig -> Z;
  mc_model : PowerTagModelConfig -> string;
  mc_name : PowerTagModelConfig -> string;
  POWERTAG_MODELS : gmap Z PowerTagModelConfig;
  getModelByReference : string -> option PowerTagModelConfig;
  Capabilities : Type;
  CapabilityOptions : Type;
  getCapabilitiesForModel : PowerTagModelConfig -> Capabilities;
  getCapabilityOptionsForModel : PowerTagModelConfig -> CapabilityOptions
}.

(** JS numbers that are not integers stay abstract: the value of an
    IEEE-754 single given by its bit pattern, the conversion of a BigInt,
    and the two arithmetic operations the polls use. *)
Class JsNumber : Type := {
  Number : Type;
  float32_of_bits : Z -> Number;
  number_of_bigint : Z -> Number;
  number_of_Z : Z -> Number;
  number_mul : Number -> Number -> Number;
  number_div : Number -> Number -> Number
}.

Section WireCodec.
Context `{JsNumber}.



End WireCodec.

(** ** Register addresses (0-based, function code 3) *)

Definition REG_DEVICE_TYPE : Z := 31024.
Definition REG_DEVICE_NAME : Z := 31000.
Definition REG_PAS_DEVICE_ADDRESS : Z := 504.
Definition REG_COMMERCIAL_REF : Z := 31060.
Definition REG_DI1_STATUS : Z := 34065.
Definition REG_DI2_STATUS : Z := 34165.
Definition REG_DO1_CMD : Z := 37051.
Definition REG_DO1_STATUS : Z := 37052.

(** ** Poll results *)

Section PollResults.
Context `{JsNumber}.



End PollResults.

Record Control2DIPollResult : Type := {
  di1Status : bool;
  di2Status : bool
}.

Record ControlIOPollResult : Type := {
  io_di1Status : bool;
  io_outputStatus : bool
}.

(** ** A JS [Map] with numeric keys, in insertion order *)

Module JsMap.

Definition t : Type := list (Z * Z).

Fixpoint set (m : t) (k v : Z) : t :=
  match m with
  | [] => [(k, v)]
  | (k', v') :: m' =>
      if bool_decide (k' = k) then (k, v) :: m' else (k', v') :: set m' k v
  end.

Fixpoint get (m : t) (k : Z) : option Z :=
  match m with
  | [] => None
  | (k', v') :: m' => if bool_decide (k' = k) then Some v' else get m' k
  end.

End JsMap.

(** ** The Modbus helpers *)

Section ModbusHelpers.
Context {G : Type} `{Gateway G} `{JsNumber}.








Definition control2DI_blocks : list Request :=
  [ ReadHoldingRegisters REG_DI1_STATUS 1;
    ReadHoldingRegisters REG_DI2_STATUS 1 ].

Definition decode_control2DI (bufs : list (list byte)) : Result Control2DIPollResult :=
  match bufs with
  | [di1Resp; di2Resp] =>
      match Buffer.readUInt16BE di1Resp 0, Buffer.readUInt16BE di2Resp 0 with
      | Ok d1, Ok d2 =>
          Ok {| di1Status := bool_decide (d1 = 0);
                di2Status := bool_decide (d2 = 0) |}
      | _, _ => Err
      end
  | _ => Err
  end.

Definition readControl2DIRegisters : M G Control2DIPollResult :=
  do bufs <- await_all control2DI_blocks;
  lift (decode_control2DI bufs).

Definition controlIO_blocks : list Request :=
  [ ReadHoldingRegisters REG_DI1_STATUS 1;
    ReadHoldingRegisters REG_DO1_STATUS 1 ].

Definition decode_controlIO (bufs : list (list byte)) : Result ControlIOPollResult :=
  match bufs with
  | [di1Resp; doResp] =>
      match Buffer.readUInt16BE di1Resp 0, Buffer.readUInt16BE doResp 0 with
      | Ok d1, Ok d2 =>
          Ok {| io_di1Status := bool_decide (d1 = 0);
                io_outputStatus := bool_decide (d2 = 1) |}
      | _, _ => Err
      end
  | _ => Err
  end.

Definition readControlIORegisters : M G ControlIOPollResult :=
  do bufs <- await_all controlIO_blocks;
  lift (decode_controlIO bufs).

Definition writeControlIOOutput (on : bool) : M G unit :=
  do p <- writeSingleRegister REG_DO1_CMD (if on then 2 else 1);
  do _ <- await p;
  ret tt.

Definition readDeviceType : M G Z :=
  do p <- readHoldingRegisters REG_DEVICE_TYPE 1;
  do buf <- await p;
  lift (Buffer.readUInt16BE buf 0).

Definition readDeviceName : M G string :=
  do p <- readHoldingRegisters REG_DEVICE_NAME 10;
  do buf <- await p;
  ret (parseAsciiBuffer buf).

Definition readCommercialReference : M G string :=
  do p <- readHoldingRegisters REG_COMMERCIAL_REF 16;
  do buf <- await p;
  ret (parseAsciiBuffer buf).

Definition address_chunks : list Request :=
  let baseReg := REG_PAS_DEVICE_ADDRESS in
  [ ReadHoldingRegisters baseReg 125;
    ReadHoldingRegisters (baseReg + 125) 125;
    ReadHoldingRegisters (baseReg + 250) 125;
    ReadHoldingRegisters (baseReg + 375) 120 ].

(** The body of the slot loop up to [readUInt16BE]; [%] is the JS
    remainder, [Math.floor] of the quotient is [Z.div]. *)
Definition slot_unitId (chunks : list (list byte)) (slot : Z) : Result Z :=
  let regOffset := (slot - 1) * 5 in
  let chunkIndex := regOffset / 125 in
  let indexInChunk := Z.rem regOffset 125 * 2 in
  match Buffer.at_ chunks chunkIndex with
  | Some buf => Buffer.readUInt16BE buf indexInChunk
  | None => Err
  end.

Fixpoint addresses_loop (chunks : list (list byte)) (slots : list Z)
         (addresses : JsMap.t) : Result JsMap.t :=
  match slots with
  | [] => Ok addresses
  | slot :: rest =>
      match slot_unitId chunks slot with
      | Ok unitId =>
          addresses_loop chunks rest
            (if bool_decide (unitId ≠ 0) && bool_decide (unitId ≠ 65535)
             then JsMap.set addresses slot unitId
             else addresses)
      | Err => Err
      | Never => Never
      end
  end.

Definition readPanelServerDeviceAddresses : M G JsMap.t :=
  do chunks <- await_all address_chunks;
  lift (addresses_loop chunks (seqZ 1 99) []).

End ModbusHelpers.

(** ** The pairing driver *)

(** The fields of the settings and store types of [lib/types] that the
    driver reads or writes. *)
Record PowerTagSettings : Type := {
  address : string;
  port : Z;
  polling : Z
}.

Record PowerTagStore : Type := {
  store_unitId : Z;
  store_typeId : Z;
  store_model : string
}.

Section Driver.
Context {G : Type} `{Gateway G} `{JsNumber} `{PowerTagRegistry}.

Record DeviceEntry : Type := {
  entry_name : string;
  entry_data_id : string;
  entry_settings : PowerTagSettings;
  entry_store : PowerTagStore;
  entry_capabilities : Capabilities;
  entry_capabilitiesOptions : CapabilityOptions
}.

Definition entry_unitId (d : DeviceEntry) : Z := store_unitId (entry_store d).
Definition entry_typeId (d : DeviceEntry) : Z := store_typeId (entry_store d).

Definition buildDeviceEntry (settings : PowerTagSettings) (unitId typeId : Z)
           (modelConfig : PowerTagModelConfig) (deviceName : string) : DeviceEntry :=
  {| entry_name :=
       if bool_decide (deviceName = "")
       then mc_name modelConfig +:+ " (" +:+ pretty unitId +:+ ")"
       else deviceName;
     entry_data_id :=
       address settings +:+ ":" +:+ pretty (port settings) +:+ ":" +:+ pretty unitId;
     entry_settings :=
       {| address := address settings;
          port := port settings;
          polling := polling settings |};
     entry_store :=
       {| store_unitId := unitId;
          store_typeId := typeId;
          store_model := mc_model modelConfig |};
     entry_capabilities := getCapabilitiesForModel modelConfig;
     entry_capabilitiesOptions := getCapabilityOptionsForModel modelConfig |}.

(** [let deviceName = ''; try { deviceName = await readDeviceName(client) } catch {}] *)
Definition tryReadDeviceName : M G string :=
  try_catch readDeviceName (ret "").

(** One turn of the [for .. of addressMap] loop of [discoverViaPanelServer];
    [devices.push] is the last statement of the [try] block that can
    change [devices], so a turn that throws leaves the list as it was. *)
Definition panel_slot (settings : PowerTagSettings) (slot unitId : Z)
           (devices : list DeviceEntry) : M G (list DeviceEntry) :=
  try_catch
    (do _ <- setUnitId unitId;
     do reference <- readCommercialReference;
     if bool_decide (reference = "") then ret devices
     else
       match getModelByReference reference with
       | None => ret devices
       | Some modelConfig =>
           do deviceName <- tryReadDeviceName;
           ret (devices ++
                [buildDeviceEntry settings unitId (mc_typeId modelConfig)
                                  modelConfig deviceName])%list
       end)
    (ret devices).

Fixpoint panel_loop (settings : PowerTagSettings) (addressMap : JsMap.t)
         (devices : list DeviceEntry) : M G (list DeviceEntry) :=
  match addressMap with
  | [] => ret devices
  | (slot, unitId) :: rest =>
      do devices' <- panel_slot settings slot unitId devices;
      panel_loop settings rest devices'
  end.

Definition discoverViaPanelServer (settings : PowerTagSettings) : M G (list DeviceEntry) :=
  do _ <- setUnitId 255;
  do addressMap <- readPanelServerDeviceAddresses;
  panel_loop settings addressMap [].

(** The state of the [for] loop of [scanUnitRange] between two turns. *)
Record ScanState : Type := {
  consecutiveTimeouts : Z;
  scan_devices : list DeviceEntry
}.

Inductive LoopExit : Type := Continue | Break.

(** One turn of the loop. Nothing after [consecutiveTimeouts = 0] in the
    [try] block throws (the name read has its own handler), so the
    [catch] block always sees the counter of the previous turn. *)
Definition scan_unit (settings : PowerTagSettings) (maxConsecutiveTimeouts : Z)
           (unitId : Z) (st : ScanState) : M G (LoopExit * ScanState) :=
  try_catch
    (do _ <- setUnitId unitId;
     do typeId <- readDeviceType;
     let st0 := {| consecutiveTimeouts := 0; scan_devices := scan_devices st |} in
     if bool_decide (typeId = 0) || bool_decide (typeId = 65535)
     then ret (Continue, st0)
     else
       match POWERTAG_MODELS !! typeId with
       | None => ret (Continue, st0)
       | Some modelConfig =>
           do deviceName <- tryReadDeviceName;
           ret (Continue,
                {| consecutiveTimeouts := 0;
                   scan_devices :=
                     (scan_devices st ++
                      [buildDeviceEntry settings unitId typeId modelConfig deviceName])%list |})
       end)
    (let n := consecutiveTimeouts st + 1 in
     let st1 := {| consecutiveTimeouts := n; scan_devices := scan_devices st |} in
     if bool_decide (n >= maxConsecutiveTimeouts)
     then ret (Break, st1)
     else ret (Continue, st1)).

Fixpoint scan_loop (settings : PowerTagSettings) (maxConsecutiveTimeouts : Z)
         (unitIds : list Z) (st : ScanState) : M G (LoopExit * ScanState) :=
  match unitIds with
  | [] => ret (Continue, st)
  | unitId :: rest =>
      do r <- scan_unit settings maxConsecutiveTimeouts unitId st;
      match r with
      | (Break, st') => ret (Break, st')
      | (Continue, st') => scan_loop settings maxConsecutiveTimeouts rest st'
      end
  end.

(** [for (let unitId = startId; unitId < endId; unitId++)] visits
    [startId], [startId + 1], ..., [endId - 1]. *)
Definition scanUnitRange (settings : PowerTagSettings) (startId endId : Z)
           (maxConsecutiveTimeouts : Z) : M G (list DeviceEntry) :=
  do r <- scan_loop settings maxConsecutiveTimeouts
                    (seqZ startId (endId - startId))
                    {| consecutiveTimeouts := 0; scan_devices := [] |};
  ret (scan_devices r.2).

Definition default_maxConsecutiveTimeouts : Z := 10.

Definition smartlinkScan (settings : PowerTagSettings) : M G (list DeviceEntry) :=
  do smartlink <- scanUnitRange settings 150 170 default_maxConsecutiveTimeouts;
  do lower <- scanUnitRange settings 100 150 3;
  do upper <- scanUnitRange settings 170 200 3;
  ret (smartlink ++ lower ++ upper)%list.

Definition discoverDevices (settings : PowerTagSettings) : M G (list DeviceEntry) :=
  do _ <- createClient;
  try_finally
    (do _ <- connectSocket;
     do devices <- try_catch (discoverViaPanelServer settings) (ret []);
     do devices <- (if bool_decide (length devices = 0%nat)
                    then smartlinkScan settings
                    else ret devices);
     ret devices)
    destroySocket.

End Driver.

(** * Vocabulary of the statements *)

(** The bytes of a buffer before its first zero byte. *)
Fixpoint until_zero (buf : list byte) : list byte :=
  match buf with
  | [] => []
  | b :: rest => if bool_decide (Buffer.byteZ b = 0) then [] else b :: until_zero rest
  end.

Definition chars_of (bs : list byte) : list ascii := map ascii_of_byte bs.

Definition all_whitespace (s : list ascii) : Prop :=
  Forall (fun c => JsString.is_whitespace c = true) s.

(** What a computation appends to the caller-level log, and the requests
    among it. *)
Definition new_events {G A} (m : M G A) (c : Client G) : list Event :=
  drop (length (client_log c)) (client_log (m c).2).

Definition requests_of (evs : list Event) : list (Z * Request) :=
  omap (fun e => match e with
                 | Issued unitId rq _ => Some (unitId, rq)
                 | Awaited _ => None
                 end) evs.

Definition issued_by {G A} (m : M G A) (c : Client G) : list (Z * Request) :=
  requests_of (new_events m c).

(** Every request of a piece of log satisfies [Q]. *)
Definition requests_satisfy (Q : Z -> Request -> Prop) (evs : list Event) : Prop :=
  Forall (fun rq => Q rq.1 rq.2) (requests_of evs).

(** A computation that sees of the client only its unit id and its
    request handler, that only appends to the log, and that leaves the
    socket alone. *)
Definition proper {G A} (m : M G A) : Prop :=
  forall c : Client G,
    (exists evs, client_log (m c).2 = (client_log c ++ evs)%list)
    /\ socket_destroyed (m c).2 = socket_destroyed c
    /\ forall c2 : Client G,
        client_unitId c2 = client_unitId c ->
        client_handler c2 = client_handler c ->
        (m c2).1 = (m c).1
        /\ client_unitId (m c2).2 = client_unitId (m c).2
        /\ client_handler (m c2).2 = client_handler (m c).2
        /\ new_events m c2 = new_events m c.

(** The log of a [Promise.all] over [blocks] issued for unit [unitId] and
    answered by [resps]: every request first, then one wait for all. *)
Definition promise_all_events (unitId : Z) (blocks : list Request)
           (resps : list Response) : list Event :=
  (zip_with (Issued unitId) blocks resps ++ [Awaited (length blocks)])%list.

(** A poll over [blocks] that issues every block read before it waits,
    waits once for all of them, fails when any block read is rejected and
    otherwise returns what [decode] makes of all the response bodies; and
    that fails at its first call, with no other call and no wait, when
    that call throws. *)
Definition all_or_nothing_poll {G A} (blocks : list Request)
           (decode : list (list byte) -> Result A) (poll : M G A) : Prop :=
  forall c : Client G,
    (call_throws (client_handler c) (client_unitId c) = false ->
     exists resps : list Response,
       length resps = length blocks
       /\ new_events poll c = promise_all_events (client_unitId c) blocks resps
       /\ (forall resp, resp ∈ resps -> resp = Rejected -> (poll c).1 = Err)
       /\ (forall snapshot, (poll c).1 = Ok snapshot ->
             exists bufs, resps = map Fulfilled bufs /\ decode bufs = Ok snapshot)
       /\ (forall bufs, resps = map Fulfilled bufs -> (poll c).1 = decode bufs))
    /\ (call_throws (client_handler c) (client_unitId c) = true ->
        blocks <> [] ->
        (poll c).1 = Err
        /\ new_events poll c
           = zip_with (Issued (client_unitId c)) (take 1 blocks) [Rejected]).

(** ** Concrete collaborators for examples *)

(** A gateway given by its holding registers: [registers unitId r] is the
    16-bit content of register [r] of the device at [unitId], or [None]
    where nothing answers. A read is fulfilled when every register of the
    block answers, a write when its register does. *)
Record RegisterGateway : Type := {
  rg_online : bool;
  rg_registers : Z -> Z -> option Z
}.

Definition read_registers (registers : Z -> Z -> option Z)
           (unitId start count : Z) : Response :=
  match mapM (registers unitId) (seqZ start count) with
  | Some values => Fulfilled (concat (map Buffer.of_register values))
  | None => Rejected
  end.

Definition write_register (registers : Z -> Z -> option Z)
           (unitId r value : Z) : Z -> Z -> option Z :=
  fun unitId' r' =>
    if bool_decide (unitId' = unitId) && bool_decide (r' = r)
    then Some value
    else registers unitId' r'.

#[export] Instance RegisterGateway_Gateway : Gateway RegisterGateway := {
  connect g := if rg_online g then Connected else ConnectError;
  respond g unitId rq :=
    match rq with
    | ReadHoldingRegisters start count =>
        (read_registers (rg_registers g) unitId start count, g)
    | WriteSingleRegister r value =>
        match rg_registers g unitId r with
        | Some _ =>
            (Fulfilled (Buffer.of_register r ++ Buffer.of_register value),
             {| rg_online := rg_online g;
                rg_registers := write_register (rg_registers g) unitId r value |})
        | None => (Rejected, g)
        end
    end;
  respond_settles :=
    ltac:(intros g unitId [start count | r value]; cbn;
          [ unfold read_registers;
            destruct (mapM (rg_registers g unitId) (seqZ start count))
          | destruct (rg_registers g unitId r) ];
          discriminate)
}.

(** Numbers kept as the expression that produced them. *)
Inductive SymbolicNumber : Type :=
| Float32 (bits : Z)
| OfBigInt (n : Z)
| OfInteger (n : Z)
| Times (a b : SymbolicNumber)
| Over (a b : SymbolicNumber).

#[export] Instance SymbolicNumber_JsNumber : JsNumber := {
  Number := SymbolicNumber;
  float32_of_bits := Float32;
  number_of_bigint := OfBigInt;
  number_of_Z := OfInteger;
  number_mul := Times;
  number_div := Over
}.

(** A registry with two models, looked up by type id or by the prefix of
    the commercial reference. *)
Record ExampleModel : Type := {
  em_typeId : Z;
  em_reference : string;
  em_model : string;
  em_name : string
}.

Definition example_models : list ExampleModel :=
  [ {| em_typeId := 41; em_reference := "A9MEM1520";
       em_model := "M63_1P"; em_name := "PowerTag M63 1P" |};
    {| em_typeId := 44; em_reference := "A9MEM1541";
       em_model := "M63_3P"; em_name := "PowerTag M63 3P" |} ].

#[export] Instance example_registry : PowerTagRegistry := {
  PowerTagModelConfig := ExampleModel;
  mc_typeId := em_typeId;
  mc_model := em_model;
  mc_name := em_name;
  POWERTAG_MODELS := list_to_map (map (fun m => (em_typeId m, m)) example_models);
  getModelByReference reference :=
    List.find (fun m => String.prefix (em_reference m) reference) example_models;
  Capabilities := list string;
  CapabilityOptions := list string;
  getCapabilitiesForModel m := ["measure_power"; "meter_power"];
  getCapabilityOptionsForModel m := []
}.

Definition example_settings : PowerTagSettings :=
  {| address := "192.168.1.10"; port := 502; polling := 5 |}.


(** A Control IO module at unit 1 with its four registers. *)
Definition controlIO_gateway : RegisterGateway :=
  {| rg_online := true;
     rg_registers := fun unitId r =>
       if bool_decide (unitId = 1) &&
          (bool_decide (r = REG_DI1_STATUS) || bool_decide (r = REG_DO1_CMD)
           || bool_decide (r = REG_DO1_STATUS))
       then Some 0 else None |}.

(** An energy sensor at unit 150 whose measurement registers all hold 0. *)
Definition energy_gateway : RegisterGateway :=
  {| rg_online := true;
     rg_registers := fun unitId r =>
       if bool_decide (unitId = 150) then
         if bool_decide (r = REG_DEVICE_TYPE) then Some 41
         else if bool_decide (2999 <= r < 3300) then Some 0
         else None
       else None |}.

(** ** Vocabulary of the address-table statements *)

Definition occupied (unitId : Z) : bool :=
  bool_decide (unitId ≠ 0) && bool_decide (unitId ≠ 65535).

(** The register of the address table that holds the unit id of a slot. *)
Definition slot_register (slot : Z) : Z := 504 + (slot - 1) * 5.

(** The entries [readPanelServerDeviceAddresses] is to make of the chunk
    bodies: one per slot whose first register reads as an occupied unit
    id, in the order of the slots. *)
Definition table_entries (chunks : list (list byte)) (slots : list Z) : list (Z * Z) :=
  omap (fun slot =>
          match slot_unitId chunks slot with
          | Ok unitId => if occupied unitId then Some (slot, unitId) else None
          | Err | Never => None
          end) slots.



(** The registers that hold a commercial reference, two characters per
    register and zero bytes after its end. *)
Definition reference_registers (reference : string) (r : Z) : option Z :=
  if bool_decide (REG_COMMERCIAL_REF <= r < REG_COMMERCIAL_REF + 16) then
    let i := Z.to_nat (r - REG_COMMERCIAL_REF) in
    let bytes := list_byte_of_string reference in
    Some (Buffer.byteZ (nth (2 * i) bytes x00%byte) * 256
          + Buffer.byteZ (nth (2 * i + 1) bytes x00%byte))
  else None.

(** A Panel Server whose unit 255 holds the address table [table], with
    one device behind it, at [unitId], that answers reads of its
    commercial reference and nothing else. *)
Definition panel_gateway (table : Z -> Z) (unitId : Z) (reference : string)
  : RegisterGateway :=
  {| rg_online := true;
     rg_registers := fun unitId' r =>
       if bool_decide (unitId' = 255) then
         if bool_decide (504 <= r < 504 + 495) then Some (table r) else None
       else if bool_decide (unitId' = unitId) then reference_registers reference r
       else None |}.

(** Slot 5 holds unit 42; every other slot is empty. *)
Definition one_slot_table (r : Z) : Z :=
  if bool_decide (r = slot_register 5) then 42 else 0.

(** Slots 1 and 2 both hold unit 42. *)
Definition two_slot_table (r : Z) : Z :=
  if bool_decide (r = slot_register 1) || bool_decide (r = slot_register 2)
  then 42 else 0.

(** Slot 1 holds unit 150. *)
Definition slot_150_table (r : Z) : Z :=
  if bool_decide (r = slot_register 1) then 150 else 0.

(** Slot 1 holds unit 42 and slot 2 unit 43. *)
Definition distinct_slots_table (r : Z) : Z :=
  if bool_decide (r = slot_register 1) then 42
  else if bool_decide (r = slot_register 2) then 43
  else 0.

(** A Panel Server with that table and two devices behind it, at units 42
    and 43, that answer reads of their commercial reference and nothing
    else. *)
Definition two_device_gateway : RegisterGateway :=
  {| rg_online := true;
     rg_registers := fun unitId r =>
       if bool_decide (unitId = 255) then
         if bool_decide (504 <= r < 504 + 495) then Some (distinct_slots_table r)
         else None
       else if bool_decide (unitId = 42) || bool_decide (unitId = 43)
            then reference_registers "A9MEM1541" r
       else None |}.


(** ** Vocabulary of the discovery statements *)

(** What [readDeviceType] makes of the response to its read. *)
Definition deviceType_of (resp : Response) : Result Z :=
  match resp with
  | Fulfilled buf => Buffer.readUInt16BE buf 0
  | Rejected => Err
  | Pending => Never
  end.

(** What [readDeviceName] and [readCommercialReference] make of theirs. *)
Definition ascii_of (resp : Response) : Result string :=
  match resp with
  | Fulfilled buf => Ok (parseAsciiBuffer buf)
  | Rejected => Err
  | Pending => Never
  end.

(** What one call of the client and the wait for its promise add to the
    log: a call that throws is not awaited. *)
Definition exchange_events {G} (c : Client G) (rq : Request) (resp : Response)
  : list Event :=
  if call_throws (client_handler c) (client_unitId c)
  then [Issued (client_unitId c) rq resp]
  else [Issued (client_unitId c) rq resp; Awaited 1].

(** The client after one request was issued, with [resp] for its promise
    and the request handler moving to [h'], and awaited. *)
Definition after_exchange {G} (c : Client G) (rq : Request) (resp : Response)
           (h' : RequestHandler G) : Client G :=
  mkClient (client_unitId c) h'
           (client_log c ++ exchange_events c rq resp)
           (socket_destroyed c).

Definition addressed {G} (unitId : Z) (c : Client G) : Client G :=
  mkClient unitId (client_handler c) (client_log c) (socket_destroyed c).

Definition type_read : Request := ReadHoldingRegisters REG_DEVICE_TYPE 1.
Definition name_read : Request := ReadHoldingRegisters REG_DEVICE_NAME 10.
Definition reference_read : Request := ReadHoldingRegisters REG_COMMERCIAL_REF 16.

(** The unit ids whose device type was read, in the order of the reads. *)
Definition type_read_units (rqs : list (Z * Request)) : list Z :=
  omap (fun '(unitId, rq) =>
          match rq with
          | ReadHoldingRegisters start count =>
              if bool_decide (start = REG_DEVICE_TYPE) && bool_decide (count = 1)
              then Some unitId else None
          | WriteSingleRegister _ _ => None
          end) rqs.

(** The unit ids whose commercial reference was read, in the order of the
    reads. *)
Definition reference_read_units (rqs : list (Z * Request)) : list Z :=
  omap (fun '(unitId, rq) =>
          match rq with
          | ReadHoldingRegisters start count =>
              if bool_decide (start = REG_COMMERCIAL_REF) && bool_decide (count = 16)
              then Some unitId else None
          | WriteSingleRegister _ _ => None
          end) rqs.

(** The number of failed device-type reads that end a log, newest first:
    each is a type read that gave no type id, with no other request
    between them. *)
Fixpoint trailing_failures_rev (rlog : list Event) : nat :=
  match rlog with
  | Awaited _ :: rest => trailing_failures_rev rest
  | Issued _ (ReadHoldingRegisters start count) resp :: rest =>
      if bool_decide (start = REG_DEVICE_TYPE) && bool_decide (count = 1)
         && negb (is_Ok (deviceType_of resp))
      then S (trailing_failures_rev rest)
      else 0%nat
  | Issued _ (WriteSingleRegister _ _) _ :: _ => 0%nat
  | [] => 0%nat
  end.

Definition trailing_failures (log : list Event) : nat :=
  trailing_failures_rev (reverse log).

(** A gateway that accepts the connection and rejects every request,
    whatever it has seen before. *)
Inductive DeadGateway : Type := dead.

#[export] Instance DeadGateway_Gateway : Gateway DeadGateway := {
  connect _ := Connected;
  respond g _ _ := (Rejected, g);
  respond_settles := ltac:(intros; discriminate)
}.

(** The log of type reads that were all rejected, one per unit id. *)
Definition rejected_type_reads (unitIds : list Z) : list Event :=
  flat_map (fun unitId => [Issued unitId type_read Rejected; Awaited 1]) unitIds.

Section DiscoveryVocabulary.
Context {G : Type} `{Gateway G} `{JsNumber} `{PowerTagRegistry}.

Definition name_or_empty (resp : Response) : string :=
  match ascii_of resp with Ok name => name | Err | Never => "" end.

(** The model a type id resolves to in the range scan, if the unit is
    not empty and the type is known. *)
Definition scanned_model (typeId : Z) : option PowerTagModelConfig :=
  if bool_decide (typeId = 0) || bool_decide (typeId = 65535)
  then None else POWERTAG_MODELS !! typeId.

(** What a device entered by the scan looks like. *)
Definition scanned_entry (unitIds : list Z) (d : DeviceEntry) : Prop :=
  entry_unitId d ∈ unitIds
  /\ entry_typeId d <> 0 /\ entry_typeId d <> 65535
  /\ is_Some (POWERTAG_MODELS !! entry_typeId d).

(** A device entry as [buildDeviceEntry] makes it. *)
Definition built_entry (settings : PowerTagSettings) (d : DeviceEntry) : Prop :=
  exists unitId typeId modelConfig deviceName,
    d = buildDeviceEntry settings unitId typeId modelConfig deviceName.

(** What a run of the scan loop over [unitIds] puts in the log and adds
    to the device list, whether or not it ever returns: type reads and
    name reads only, addressed to unit ids of the loop; the type reads in
    the order of the loop, one per unit id at most; one name read per
    device at most; and the devices for a sub-sequence of the unit ids. *)
Definition scan_trace (settings : PowerTagSettings) (unitIds : list Z)
           (evs : list Event) (new : list DeviceEntry) : Prop :=
  requests_satisfy
    (fun unitId rq => unitId ∈ unitIds /\ (rq = type_read \/ rq = name_read)) evs
  /\ type_read_units (requests_of evs) `sublist_of` unitIds
  /\ (length (requests_of evs) <= length unitIds + length new)%nat
  /\ (length new <= length unitIds)%nat
  /\ map entry_unitId new `sublist_of` unitIds
  /\ Forall (scanned_entry unitIds) new
  /\ Forall (built_entry settings) new.

(** Along a scan the counter is the number of failed type reads that end
    the log, and the loop is left early only with the counter at or
    above the threshold. *)
Definition counter_tracks_log (maxCT : Z) (st : ScanState) (c : Client G)
           (e : LoopExit) (st' : ScanState) (c' : Client G) : Prop :=
  (e = Break ->
   maxCT <= consecutiveTimeouts st'
   /\ (0 <= consecutiveTimeouts st -> 1 <= consecutiveTimeouts st'))
  /\ exists evs,
      client_log c' = (client_log c ++ evs)%list
      /\ forall pre,
          Z.of_nat (trailing_failures pre) = consecutiveTimeouts st ->
          Z.of_nat (trailing_failures (pre ++ evs)) = consecutiveTimeouts st'.

(** The unit ids of the three sub-ranges, in the order they are scanned. *)
Definition scan_range : list Z :=
  (seqZ 150 (170 - 150) ++ seqZ 100 (150 - 100) ++ seqZ 170 (200 - 170))%list.

(** What a run of the slot loop of the Panel-Server strategy puts in the
    log and adds to the device list, whether or not it ever returns:
    reference reads and name reads only, addressed to unit ids of the
    map; the reference reads in the order of the map, one per entry, for
    the entries the loop has reached; one name read per device at most;
    and the devices for a sub-sequence of the unit ids of the map. *)
Definition panel_trace (settings : PowerTagSettings) (addressMap : JsMap.t)
           (evs : list Event) (new : list DeviceEntry) : Prop :=
  requests_satisfy
    (fun unitId rq => unitId ∈ map snd addressMap
                      /\ (rq = reference_read \/ rq = name_read)) evs
  /\ reference_read_units (requests_of evs) `prefix_of` map snd addressMap
  /\ type_read_units (requests_of evs) = []
  /\ (length (requests_of evs) <= length addressMap + length new)%nat
  /\ (length new <= length addressMap)%nat
  /\ map entry_unitId new `sublist_of` map snd addressMap
  /\ Forall (built_entry settings) new.

End DiscoveryVocabulary.


(** * Vocabulary of the further properties *)

(** A read of at least one and at most 125 holding registers, the ceiling
    of one Modbus transaction. *)
Definition bounded_read (rq : Request) : Prop :=
  match rq with
  | ReadHoldingRegisters _ count => 1 <= count <= 125
  | WriteSingleRegister _ _ => False
  end.


(** A gateway that accepts the connection and answers every read with
    registers that all hold 0. *)
Inductive ZeroGateway : Type := zeros.

#[export] Instance ZeroGateway_Gateway : Gateway ZeroGateway := {
  connect _ := Connected;
  respond g _ rq :=
    match rq with
    | ReadHoldingRegisters _ count =>
        (Fulfilled (replicate (Z.to_nat (2 * count)) x00%byte), g)
    | WriteSingleRegister _ _ => (Fulfilled [], g)
    end;
  respond_settles := ltac:(intros g unitId [start count | r value]; discriminate)
}.

(** Each body has at least the number of bytes listed for it. *)
Definition bodies_at_least (needed : list nat) (bufs : list (list byte)) : Prop :=
  Forall2 (fun n buf => (n <= length buf)%nat) needed bufs.



(** ** The pairing session *)

Section Pairing.
Context {G : Type} `{Gateway G} `{JsNumber} `{PowerTagRegistry}.

(** The variable [gatewaySettings] that the two handlers of [onPair]
    close over; [None] is its initial [null]. *)
Definition PairingState : Type := option PowerTagSettings.

(** [validateGateway]: a socket of its own towards the gateway, with a
    timeout of its own; [socket] is what becomes of that connection. The
    promise resolves when it connects and rejects on the timeout or on a
    socket error. *)
Definition validateGateway (host : string) (port : Z) (socket : ConnectOutcome)
  : Result unit :=
  match socket with
  | Connected => Ok tt
  | ConnectTimeout | ConnectError => Err
  end.

(** The handler of 'gateway_settings': [gatewaySettings = data] comes
    before the validation; [nextView] is the outcome of
    [session.nextView()]. *)
Definition gateway_settings_handler (data : PowerTagSettings) (socket : ConnectOutcome)
           (nextView : Result unit) (gatewaySettings : PairingState)
  : Result bool * PairingState :=
  let gatewaySettings := Some data in
  match validateGateway (address data) (port data) socket with
  | Ok _ =>
      match nextView with
      | Ok _ => (Ok true, gatewaySettings)
      | Err => (Err, gatewaySettings)
      | Never => (Never, gatewaySettings)
      end
  | Err => (Err, gatewaySettings)
  | Never => (Never, gatewaySettings)
  end.

(** The handler of 'list_devices'. *)
Definition list_devices_handler (gatewaySettings : PairingState)
  : M G (list DeviceEntry) :=
  match gatewaySettings with
  | None => throw
  | Some gatewaySettings => discoverDevices gatewaySettings
  end.

(** One call of the 'gateway_settings' handler: the data sent by the
    pairing view, what becomes of the validation socket, and the outcome
    of [session.nextView()]. *)
Definition SettingsCall : Type := PowerTagSettings * ConnectOutcome * Result unit.

(** The variable [gatewaySettings] after a sequence of calls of the
    'gateway_settings' handler in one pairing session. *)
Definition pairing_state (calls : list SettingsCall) : PairingState :=
  foldl (fun st '(data, socket, nextView) =>
           (gateway_settings_handler data socket nextView st).2) None calls.

End Pairing.

(** * Properties *)

(** ** The ASCII parser *)

Section AsciiParser.

Lemma list_ascii_of_string_app (s t : string) :
  list_ascii_of_string (s +:+ t) = (list_ascii_of_string s ++ list_ascii_of_string t)%list.
Proof. induction s as [|c s IH]; simpl; [reflexivity | now rewrite IH]. Qed.

Lemma parseAsciiBuffer_loop_chars (buf : list byte) (str : string) :
  list_ascii_of_string (parseAsciiBuffer_loop buf str)
  = (list_ascii_of_string str ++ chars_of (until_zero buf))%list.
Proof.
  revert str. induction buf as [|b rest IH]; intros str; simpl.
  - now rewrite app_nil_r.
  - case_bool_decide.
    + now rewrite app_nil_r.
    + rewrite IH, list_ascii_of_string_app. simpl.
      now rewrite <- app_assoc.
Qed.

Lemma trimStart_split (s : list ascii) :
  exists l, s = (l ++ JsString.trimStart s)%list /\ all_whitespace l.
Proof.
  induction s as [|c s [l [E W]]]; simpl.
  - exists []. split; [reflexivity | constructor].
  - destruct (JsString.is_whitespace c) eqn:Hc.
    + exists (c :: l). split; [simpl; now f_equal | now constructor].
    + exists []. split; [reflexivity | constructor].
Qed.

Lemma trimStart_head (s : list ascii) (c : ascii) :
  head (JsString.trimStart s) = Some c -> JsString.is_whitespace c = false.
Proof.
  induction s as [|a s IH]; simpl; [discriminate |].
  destruct (JsString.is_whitespace a) eqn:Ha; [exact IH |].
  simpl. intros [= <-]. exact Ha.
Qed.

Lemma trimEnd_split (s : list ascii) :
  exists r, s = (JsString.trimEnd s ++ r)%list /\ all_whitespace r.
Proof.
  unfold JsString.trimEnd.
  destruct (trimStart_split (reverse s)) as [l [E W]].
  exists (reverse l). split.
  - rewrite <- reverse_app, <- E. now rewrite reverse_involutive.
  - now apply Forall_reverse.
Qed.

Lemma trimEnd_last (s : list ascii) (c : ascii) :
  last (JsString.trimEnd s) = Some c -> JsString.is_whitespace c = false.
Proof.
  unfold JsString.trimEnd. rewrite last_reverse. apply trimStart_head.
Qed.

Lemma trimEnd_head (s : list ascii) (c : ascii) :
  head (JsString.trimEnd s) = Some c -> head s = Some c.
Proof.
  destruct (trimEnd_split s) as [r [E _]].
  destruct (JsString.trimEnd s) as [|a t] eqn:Ht; simpl; [discriminate |].
  intros [= <-]. now rewrite E.
Qed.

Lemma trim_chars (s : string) :
  list_ascii_of_string (JsString.trim s)
  = JsString.trimEnd (JsString.trimStart (list_ascii_of_string s)).
Proof. unfold JsString.trim. apply list_ascii_of_string_of_list_ascii. Qed.

End AsciiParser.

(** C7. For every byte buffer, [parseAsciiBuffer] is a total function (it
    has no failing outcome) whose result is the run of characters before
    the first zero byte (or the whole buffer when there is none) with a
    whitespace-only prefix and a whitespace-only suffix removed; the
    result neither starts nor ends with whitespace; every other byte is
    passed through as the character with its code, so a non-whitespace
    byte before the first zero always survives; and the 32-byte buffer
    holding "A9MEM1560" followed by zero bytes decodes to "A9MEM1560". *)
Theorem parseAsciiBuffer_spec (buf : list byte) :
  let chars := chars_of (until_zero buf) in
  let out := list_ascii_of_string (parseAsciiBuffer buf) in
  (exists l r, chars = (l ++ out ++ r)%list /\ all_whitespace l /\ all_whitespace r)
  /\ (forall c, head out = Some c -> JsString.is_whitespace c = false)
  /\ (forall c, last out = Some c -> JsString.is_whitespace c = false)
  /\ (forall b, b ∈ until_zero buf ->
                JsString.is_whitespace (ascii_of_byte b) = false ->
                ascii_of_byte b ∈ out)
  /\ length (list_byte_of_string "A9MEM1560" ++ replicate 23 x00%byte) = 32%nat
  /\ parseAsciiBuffer (list_byte_of_string "A9MEM1560" ++ replicate 23 x00%byte)
     = "A9MEM1560".
Proof.
  intros chars out.
  assert (Hout : out = JsString.trimEnd (JsString.trimStart chars)).
  { unfold out, parseAsciiBuffer. rewrite trim_chars.
    now rewrite parseAsciiBuffer_loop_chars. }
  destruct (trimStart_split chars) as [l [El Wl]].
  destruct (trimEnd_split (JsString.trimStart chars)) as [r [Er Wr]].
  assert (Hsplit : chars = (l ++ out ++ r)%list).
  { rewrite Hout, <- Er. exact El. }
  split; [exists l, r; now repeat split |].
  split.
  { intros c Hc. rewrite Hout in Hc. apply trimEnd_head in Hc.
    now apply trimStart_head in Hc. }
  split.
  { intros c Hc. rewrite Hout in Hc. now apply trimEnd_last in Hc. }
  split.
  { intros b Hb Hws.
    assert (Hin : ascii_of_byte b ∈ chars).
    { unfold chars, chars_of. apply list_elem_of_In, in_map, list_elem_of_In, Hb. }
    rewrite Hsplit in Hin.
    apply elem_of_app in Hin as [Hin | Hin].
    - unfold all_whitespace in Wl. rewrite Forall_forall in Wl.
      apply Wl in Hin. congruence.
    - apply elem_of_app in Hin as [Hin | Hin]; [exact Hin |].
      unfold all_whitespace in Wr. rewrite Forall_forall in Wr.
      apply Wr in Hin. congruence. }
  split; reflexivity.
Qed.

(** ** The client monad *)

Section ClientLemmas.
Context {G : Type} `{Gateway G}.

Lemma Ok_inj {A} (a b : A) : Ok a = Ok b -> a = b.
Proof. now intros [= ->]. Qed.

Lemma new_events_app {A} (m : M G A) (c : Client G) (evs : list Event) :
  client_log (m c).2 = (client_log c ++ evs)%list -> new_events m c = evs.
Proof. intros E. unfold new_events. rewrite E. apply drop_app_length. Qed.

Lemma bind_run {A B} (m : M G A) (k : A -> M G B) (c : Client G) :
  bind m k c = match m c with
               | (Ok a, c') => k a c'
               | (Err, c') => (Err, c')
               | (Never, c') => (Never, c')
               end.
Proof. reflexivity. Qed.

(** The three courses of the request handler. *)
Lemma handle_stalled (h : RequestHandler G) (unitId : Z) (rq : Request) :
  handler_stalled h = true -> handle h unitId rq = (Pending, h).
Proof. intros Hs. unfold handle. now rewrite Hs. Qed.

Lemma handle_ready (h : RequestHandler G) (unitId : Z) (rq : Request) :
  handler_stalled h = false ->
  fits_in_byte unitId = true ->
  handle h unitId rq
  = ((respond (handler_gateway h) unitId rq).1,
     mkHandler false (respond (handler_gateway h) unitId rq).2).
Proof.
  intros Hs Hf. unfold handle. rewrite Hs, Hf.
  now destruct (respond (handler_gateway h) unitId rq).
Qed.

Lemma handle_wide (h : RequestHandler G) (unitId : Z) (rq : Request) :
  handler_stalled h = false ->
  fits_in_byte unitId = false ->
  handle h unitId rq = (Rejected, mkHandler true (handler_gateway h)).
Proof. intros Hs Hf. unfold handle. now rewrite Hs, Hf. Qed.

(** A promise is pending exactly when the handler was stalled. *)
Lemma handle_Pending (h : RequestHandler G) (unitId : Z) (rq : Request) :
  (handle h unitId rq).1 = Pending <-> handler_stalled h = true.
Proof.
  destruct (handler_stalled h) eqn:Hs.
  - rewrite handle_stalled by exact Hs. split; reflexivity.
  - destruct (fits_in_byte unitId) eqn:Hf.
    + rewrite handle_ready by assumption. cbn [fst].
      split; [intros E; now apply respond_settles in E | discriminate].
    + rewrite handle_wide by assumption. split; discriminate.
Qed.

(** A fulfilled promise comes from the gateway, and leaves the handler
    ready for the next request to the same unit id. *)
Lemma handle_Fulfilled (h h' : RequestHandler G) (unitId : Z) (rq : Request)
      (buf : list byte) :
  handle h unitId rq = (Fulfilled buf, h') ->
  handler_stalled h = false
  /\ fits_in_byte unitId = true
  /\ handler_stalled h' = false
  /\ respond (handler_gateway h) unitId rq = (Fulfilled buf, handler_gateway h').
Proof.
  destruct (handler_stalled h) eqn:Hs.
  { rewrite handle_stalled by exact Hs. discriminate. }
  destruct (fits_in_byte unitId) eqn:Hf.
  - rewrite handle_ready by assumption.
    destruct (respond (handler_gateway h) unitId rq) as [resp g'].
    cbn [fst snd]. intros [= -> <-]. auto.
  - rewrite handle_wide by assumption. discriminate.
Qed.

(** After a request to a unit id that fits, a handler that was ready
    still is. *)
Lemma handle_stays_ready (h : RequestHandler G) (unitId : Z) (rq : Request) :
  handler_stalled h = false ->
  fits_in_byte unitId = true ->
  (handle h unitId rq).1 <> Pending
  /\ handler_stalled (handle h unitId rq).2 = false.
Proof.
  intros Hs Hf. rewrite handle_ready by assumption. cbn [fst snd].
  split; [apply respond_settles | reflexivity].
Qed.

Lemma call_throws_false (h : RequestHandler G) (unitId : Z) :
  call_throws h unitId = false
  <-> handler_stalled h = true \/ fits_in_byte unitId = true.
Proof.
  unfold call_throws. destruct (handler_stalled h), (fits_in_byte unitId); cbn;
    intuition discriminate.
Qed.

Lemma call_throws_true (h : RequestHandler G) (unitId : Z) :
  call_throws h unitId = true
  <-> handler_stalled h = false /\ fits_in_byte unitId = false.
Proof.
  unfold call_throws. destruct (handler_stalled h), (fits_in_byte unitId); cbn;
    intuition discriminate.
Qed.

Lemma call_throws_fits (h : RequestHandler G) (unitId : Z) :
  fits_in_byte unitId = true -> call_throws h unitId = false.
Proof. intros Hf. apply call_throws_false. now right. Qed.

Lemma call_throws_stalled (h : RequestHandler G) (unitId : Z) :
  handler_stalled h = true -> call_throws h unitId = false.
Proof. intros Hs. apply call_throws_false. now left. Qed.

(** A call throws only where the handler rejects, and stalls. *)
Lemma handle_thrown (h : RequestHandler G) (unitId : Z) (rq : Request) :
  call_throws h unitId = true ->
  handle h unitId rq = (Rejected, mkHandler true (handler_gateway h)).
Proof. intros Ht. apply call_throws_true in Ht as [Hs Hf]. now apply handle_wide. Qed.

(** After a call that returned a promise, the next call for the same
    unit id returns one too. *)
Lemma call_throws_next (h : RequestHandler G) (unitId : Z) (rq : Request) :
  call_throws h unitId = false ->
  call_throws (handle h unitId rq).2 unitId = false.
Proof.
  intros Hn. apply call_throws_false.
  destruct (handler_stalled h) eqn:Hs.
  - rewrite handle_stalled by exact Hs. now left.
  - apply call_throws_false in Hn as [Hn | Hf]; [congruence | now right].
Qed.

Lemma issue_run (rq : Request) (c : Client G) :
  issue rq c
  = (if call_throws (client_handler c) (client_unitId c) then Err
     else Ok (handle (client_handler c) (client_unitId c) rq).1,
     mkClient (client_unitId c) (handle (client_handler c) (client_unitId c) rq).2
              (client_log c
               ++ [Issued (client_unitId c) rq
                          (handle (client_handler c) (client_unitId c) rq).1])
              (socket_destroyed c)).
Proof.
  unfold issue. now destruct (handle (client_handler c) (client_unitId c) rq).
Qed.

Lemma settle_all_Ok (resps : list Response) (bufs : list (list byte)) :
  settle_all resps = Ok bufs <-> resps = map Fulfilled bufs.
Proof.
  revert bufs. induction resps as [|p ps IH]; intros bufs.
  - cbn. split; [intros [= <-]; reflexivity | destruct bufs; [reflexivity | discriminate]].
  - cbn [settle_all]. split.
    + destruct p as [buf| |]; cbn [settle];
        destruct (settle_all ps) as [bs| |] eqn:Eps; try discriminate.
      intros [= <-]. cbn. f_equal. now apply IH.
    + destruct bufs as [|b bufs']; [discriminate |].
      cbn [map]. intros [= -> E]. cbn [settle].
      now rewrite (proj2 (IH bufs') E).
Qed.

Lemma settle_all_Rejected (resps : list Response) :
  Rejected ∈ resps -> settle_all resps = Err.
Proof.
  induction resps as [|p ps IH]; intros Hin; [inversion Hin |].
  cbn [settle_all]. apply elem_of_cons in Hin as [<- | Hin].
  - cbn [settle]. now destruct (settle_all ps).
  - rewrite (IH Hin). now destruct (settle p).
Qed.

(** Promises that are all pending: [Promise.all] never settles. *)
Lemma settle_all_Pending (n : nat) :
  settle_all (replicate (S n) Pending) = Never.
Proof.
  induction n as [|n IH]; [reflexivity |].
  change (replicate (S (S n)) Pending) with (Pending :: replicate (S n) Pending).
  cbn [settle_all settle]. now rewrite IH.
Qed.

Lemma issue_all_spec (rqs : list Request) (c : Client G) :
  call_throws (client_handler c) (client_unitId c) = false ->
  exists resps c',
    issue_all rqs c = (Ok resps, c')
    /\ length resps = length rqs
    /\ client_log c' = (client_log c ++ zip_with (Issued (client_unitId c)) rqs resps)%list
    /\ client_unitId c' = client_unitId c
    /\ socket_destroyed c' = socket_destroyed c.
Proof.
  revert c. induction rqs as [|rq rqs IH]; intros c Hn.
  - exists [], c. simpl. now rewrite app_nil_r.
  - cbn [issue_all]. rewrite bind_run, issue_run, Hn.
    pose proof (call_throws_next _ _ rq Hn) as Hn1.
    match goal with |- context [mkClient ?u ?h ?l ?d] => set (c1 := mkClient u h l d) end.
    destruct (IH c1 Hn1) as (resps & c2 & E1 & E2 & E3 & E4 & E5).
    eexists (_ :: resps), c2. rewrite bind_run, E1. simpl.
    repeat split; [congruence | | exact E4 | exact E5].
    rewrite E3. simpl. now rewrite <- app_assoc.
Qed.

(** A first call that throws is the only one of the array. *)
Lemma issue_all_thrown (rq : Request) (rqs : list Request) (c : Client G) :
  call_throws (client_handler c) (client_unitId c) = true ->
  issue_all (rq :: rqs) c
  = (Err,
     mkClient (client_unitId c) (mkHandler true (client_gateway c))
              (client_log c ++ [Issued (client_unitId c) rq Rejected])
              (socket_destroyed c)).
Proof.
  intros Ht. cbn [issue_all]. rewrite bind_run, issue_run, Ht.
  now rewrite (handle_thrown _ _ rq Ht).
Qed.

(** Behind a stalled handler every promise is pending. *)
Lemma issue_all_stalled (rqs : list Request) (c : Client G) :
  handler_stalled (client_handler c) = true ->
  (issue_all rqs c).1 = Ok (replicate (length rqs) Pending).
Proof.
  revert c. induction rqs as [|rq rqs IH]; intros c Hs; [reflexivity |].
  assert (Hn : call_throws (client_handler c) (client_unitId c) = false)
    by (apply call_throws_false; now left).
  cbn [issue_all]. rewrite bind_run, issue_run, Hn, handle_stalled by exact Hs.
  cbn [fst snd].
  match goal with |- context [mkClient ?u ?h ?l ?d] => set (c1 := mkClient u h l d) end.
  specialize (IH c1 Hs). rewrite bind_run.
  destruct (issue_all rqs c1) as [[ps| |] c2]; cbn [fst] in IH; try discriminate IH.
  apply Ok_inj in IH. subst ps. reflexivity.
Qed.

(** Requests to a unit id that fits, handed to a handler that is ready:
    every promise settles, and the handler stays ready. *)
Lemma issue_all_ready (rqs : list Request) (c : Client G) :
  handler_stalled (client_handler c) = false ->
  fits_in_byte (client_unitId c) = true ->
  exists resps c',
    issue_all rqs c = (Ok resps, c')
    /\ (Pending ∉ resps)
    /\ handler_stalled (client_handler c') = false.
Proof.
  revert c. induction rqs as [|rq rqs IH]; intros c Hs Hf.
  - exists [], c. split; [reflexivity |]. split; [apply not_elem_of_nil | exact Hs].
  - assert (Hn : call_throws (client_handler c) (client_unitId c) = false)
      by (apply call_throws_false; now right).
    cbn [issue_all]. rewrite bind_run, issue_run, Hn.
    destruct (handle_stays_ready (client_handler c) (client_unitId c) rq Hs Hf)
      as [Hp Hs1].
    match goal with |- context [mkClient ?u ?h ?l ?d] => set (c1 := mkClient u h l d) end.
    destruct (IH c1 Hs1 Hf) as (resps & c2 & E1 & Hnp & Hs2).
    eexists (_ :: resps), c2. rewrite bind_run, E1.
    split; [reflexivity |]. split; [| exact Hs2].
    intros Hin. apply elem_of_cons in Hin as [Hin | Hin]; [now apply Hp | now apply Hnp].
Qed.


(** Promises that are all fulfilled come from calls that returned. *)
Lemma issue_all_returns (rq : Request) (rqs : list Request) (c : Client G)
      (resps : list Response) :
  (issue_all (rq :: rqs) c).1 = Ok resps ->
  call_throws (client_handler c) (client_unitId c) = false.
Proof.
  cbn [issue_all]. rewrite bind_run, issue_run.
  now destruct (call_throws (client_handler c) (client_unitId c)).
Qed.

Lemma await_all_spec (rqs : list Request) (c : Client G) :
  call_throws (client_handler c) (client_unitId c) = false ->
  exists resps c',
    await_all rqs c = (settle_all resps, c')
    /\ (issue_all rqs c).1 = Ok resps
    /\ length resps = length rqs
    /\ client_log c' = (client_log c ++ promise_all_events (client_unitId c) rqs resps)%list
    /\ client_unitId c' = client_unitId c
    /\ socket_destroyed c' = socket_destroyed c.
Proof.
  intros Hn.
  destruct (issue_all_spec rqs c Hn) as (resps & c1 & E1 & E2 & E3 & E4 & E5).
  exists resps, (write_log (Awaited (length resps)) c1).
  unfold await_all. rewrite bind_run, E1. unfold promise_all_events. simpl.
  repeat split; try assumption.
  rewrite E3, E2. now rewrite <- app_assoc.
Qed.

(** What a poll returns, in terms of what its block reads settle to. *)
Lemma poll_run {A} (blocks : list Request) (decode : list (list byte) -> Result A)
      (c : Client G) :
  ((do bufs <- await_all blocks; lift (decode bufs)) c).1
  = match (issue_all blocks c).1 with
    | Ok resps =>
        match settle_all resps with
        | Ok bufs => decode bufs
        | Err => Err
        | Never => Never
        end
    | Err => Err
    | Never => Never
    end.
Proof.
  rewrite bind_run. unfold await_all. rewrite bind_run.
  destruct (issue_all blocks c) as [[resps| |] c1]; [| reflexivity | reflexivity].
  cbn [fst]. now destruct (settle_all resps).
Qed.

Lemma poll_log {A} (blocks : list Request) (decode : list (list byte) -> Result A)
      (c : Client G) :
  client_log ((do bufs <- await_all blocks; lift (decode bufs)) c).2
  = client_log (await_all blocks c).2.
Proof.
  rewrite bind_run. now destruct (await_all blocks c) as [[bufs| |] c1].
Qed.

(** Every poll of the helper module has this shape. *)
Lemma await_all_then_decode {A} (blocks : list Request)
      (decode : list (list byte) -> Result A) :
  all_or_nothing_poll blocks decode
    (do bufs <- await_all blocks; lift (decode bufs)).
Proof.
  intros c. split.
  - intros Hn.
    destruct (await_all_spec blocks c Hn) as (resps & c1 & E0 & Ei & E1 & E3 & _).
    exists resps.
    assert (Erun : ((do bufs <- await_all blocks; lift (decode bufs)) c).1
                   = match settle_all resps with
                     | Ok bufs => decode bufs
                     | Err => Err
                     | Never => Never
                     end).
    { rewrite poll_run, Ei. reflexivity. }
    split; [exact E1 |].
    split; [apply new_events_app; now rewrite poll_log, E0 |].
    split.
    { intros resp Hin ->. rewrite Erun. now rewrite settle_all_Rejected. }
    split.
    { intros snapshot Hs. rewrite Erun in Hs.
      destruct (settle_all resps) as [bufs| |] eqn:Es; [| discriminate ..].
      exists bufs. split; [now apply settle_all_Ok | exact Hs]. }
    intros bufs Hb. rewrite Erun.
    apply settle_all_Ok in Hb. now rewrite Hb.
  - intros Ht Hne. destruct blocks as [|rq rest]; [contradiction |].
    pose proof (issue_all_thrown rq rest c Ht) as Ei.
    split.
    + rewrite poll_run, Ei. reflexivity.
    + apply new_events_app. rewrite poll_log. unfold await_all.
      rewrite bind_run, Ei. reflexivity.
Qed.

End ClientLemmas.
(** ** Computations that see only the unit id and the request handler *)

Section ProperComputations.
Context {G : Type} `{Gateway G}.

Lemma proper_log {A} (m : M G A) (c : Client G) :
  proper m -> client_log (m c).2 = (client_log c ++ new_events m c)%list.
Proof.
  intros Hm. destruct (Hm c) as ((evs & E) & _).
  now rewrite (new_events_app m c evs E).
Qed.

Lemma proper_socket {A} (m : M G A) (c : Client G) :
  proper m -> socket_destroyed (m c).2 = socket_destroyed c.
Proof. intros Hm. now destruct (Hm c) as (_ & E & _). Qed.

Lemma proper_ret {A} (a : A) : proper (ret (G := G) a).
Proof.
  intros c. split; [exists []; cbn; now rewrite app_nil_r |].
  split; [reflexivity |]. intros c2 Hu Hh. cbn.
  repeat split; try assumption.
  unfold new_events. cbn. now rewrite !drop_all.
Qed.

Lemma proper_lift {A} (r : Result A) : proper (lift (G := G) r).
Proof.
  intros c. split; [exists []; cbn; now rewrite app_nil_r |].
  split; [reflexivity |]. intros c2 Hu Hh. cbn.
  repeat split; try assumption.
  unfold new_events. cbn. now rewrite !drop_all.
Qed.

Lemma proper_throw {A} : proper (throw (G := G) (A := A)).
Proof. apply (proper_lift Err). Qed.

Lemma proper_setUnitId (unitId : Z) : proper (setUnitId (G := G) unitId).
Proof.
  intros c. split; [exists []; cbn; now rewrite app_nil_r |].
  split; [reflexivity |]. intros c2 Hu Hh. cbn.
  repeat split; try assumption.
  unfold new_events. cbn. now rewrite !drop_all.
Qed.

Lemma proper_connectSocket : proper (connectSocket (G := G)).
Proof.
  intros c.
  assert (Hrun : forall c0 : Client G,
             connectSocket c0
             = (match connect (client_gateway c0) with
                | Connected => Ok tt
                | _ => Err
                end, c0)).
  { intros c0. unfold connectSocket. now destruct (connect (client_gateway c0)). }
  rewrite Hrun. split; [exists []; cbn; now rewrite app_nil_r |].
  split; [reflexivity |]. intros c2 Hu Hh. rewrite Hrun. cbn [fst snd].
  unfold client_gateway. rewrite Hh.
  repeat split; try assumption.
  unfold new_events. rewrite !Hrun. cbn. now rewrite !drop_all.
Qed.

Lemma proper_logged {A} (r : Result A) (e : Event) :
  proper (fun c : Client G => (r, write_log e c)).
Proof.
  intros c. split; [exists [e]; reflexivity |].
  split; [reflexivity |]. intros c2 Hu Hh. cbn.
  repeat split; try assumption.
  unfold new_events. cbn. now rewrite !drop_app_length.
Qed.

Lemma proper_await (p : Response) : proper (await (G := G) p).
Proof. apply proper_logged. Qed.

Lemma proper_issue (rq : Request) : proper (issue (G := G) rq).
Proof.
  intros c. rewrite issue_run.
  split; [eexists; reflexivity |].
  split; [reflexivity |]. intros c2 Hu Hh. rewrite issue_run. cbn [fst snd].
  rewrite Hu, Hh. cbn.
  repeat split.
  unfold new_events. rewrite !issue_run. cbn. rewrite !drop_app_length.
  now rewrite Hu, Hh.
Qed.

(** The events of a sequence are those of its first part, then those of
    the rest, which runs if the first part returns. *)
Lemma new_events_bind {A B} (m : M G A) (k : A -> M G B) (c : Client G) :
  proper m -> (forall a, proper (k a)) ->
  new_events (bind m k) c
  = (new_events m c
     ++ match (m c).1 with
        | Ok a => new_events (k a) (m c).2
        | Err | Never => []
        end)%list.
Proof.
  intros Hm Hk. apply new_events_app. rewrite bind_run.
  pose proof (proper_log m c Hm) as Elog.
  destruct (m c) as [[a| |] c1]; cbn [fst snd] in *.
  - rewrite (proper_log (k a) c1 (Hk a)), Elog. now rewrite app_assoc.
  - now rewrite app_nil_r.
  - now rewrite app_nil_r.
Qed.

Lemma new_events_try_catch {A} (body handler : M G A) (c : Client G) :
  proper body -> proper handler ->
  new_events (try_catch body handler) c
  = (new_events body c
     ++ match (body c).1 with
        | Err => new_events handler (body c).2
        | Ok _ | Never => []
        end)%list.
Proof.
  intros Hm Hk. apply new_events_app. unfold try_catch.
  pose proof (proper_log body c Hm) as Elog.
  destruct (body c) as [[a| |] c1]; cbn [fst snd] in *.
  - now rewrite app_nil_r.
  - rewrite (proper_log handler c1 Hk), Elog. now rewrite app_assoc.
  - now rewrite app_nil_r.
Qed.

Lemma proper_bind {A B} (m : M G A) (k : A -> M G B) :
  proper m -> (forall a, proper (k a)) -> proper (bind m k).
Proof.
  intros Hm Hk c.
  split.
  { exists (new_events (bind m k) c). clear -Hm Hk.
    rewrite new_events_bind by assumption. rewrite bind_run.
    pose proof (proper_log m c Hm) as Elog.
    destruct (m c) as [[a| |] c1]; cbn [fst snd] in *.
    - rewrite (proper_log (k a) c1 (Hk a)), Elog. now rewrite app_assoc.
    - now rewrite app_nil_r.
    - now rewrite app_nil_r. }
  split.
  { rewrite bind_run. pose proof (proper_socket m c Hm) as Es.
    destruct (m c) as [[a| |] c1]; cbn [fst snd] in *; try exact Es.
    now rewrite (proper_socket (k a) c1 (Hk a)). }
  intros c2 Hu Hh.
  destruct (Hm c) as (_ & _ & Hsame).
  destruct (Hsame c2 Hu Hh) as (Er & Eu & Eh & Ee).
  rewrite !new_events_bind by assumption. rewrite !bind_run, Ee.
  destruct (m c) as [[a| |] c1], (m c2) as [[a2| |] c3];
    cbn [fst snd] in *; try discriminate Er; auto.
  apply Ok_inj in Er. subst a2.
  destruct (Hk a c1) as (_ & _ & Hsame2).
  destruct (Hsame2 c3 Eu Eh) as (Er2 & Eu2 & Eh2 & Ee2).
  rewrite Ee2. auto.
Qed.

Lemma proper_try_catch {A} (body handler : M G A) :
  proper body -> proper handler -> proper (try_catch body handler).
Proof.
  intros Hm Hk c.
  split.
  { exists (new_events (try_catch body handler) c).
    rewrite new_events_try_catch by assumption. unfold try_catch.
    pose proof (proper_log body c Hm) as Elog.
    destruct (body c) as [[a| |] c1]; cbn [fst snd] in *.
    - now rewrite app_nil_r.
    - rewrite (proper_log handler c1 Hk), Elog. now rewrite app_assoc.
    - now rewrite app_nil_r. }
  split.
  { unfold try_catch. pose proof (proper_socket body c Hm) as Es.
    destruct (body c) as [[a| |] c1]; cbn [fst snd] in *; try exact Es.
    now rewrite (proper_socket handler c1 Hk). }
  intros c2 Hu Hh.
  destruct (Hm c) as (_ & _ & Hsame).
  destruct (Hsame c2 Hu Hh) as (Er & Eu & Eh & Ee).
  rewrite !new_events_try_catch by assumption. unfold try_catch. rewrite Ee.
  destruct (body c) as [[a| |] c1], (body c2) as [[a2| |] c3];
    cbn [fst snd] in *; try discriminate Er; auto.
  destruct (Hk c1) as (_ & _ & Hsame2).
  destruct (Hsame2 c3 Eu Eh) as (Er2 & Eu2 & Eh2 & Ee2).
  rewrite Ee2. auto.
Qed.

(** Two clients that agree on unit id, handler and log differ at most in
    the state of the socket. *)
Lemma destroySocket_ext (c1 c2 : Client G) :
  client_unitId c1 = client_unitId c2 ->
  client_handler c1 = client_handler c2 ->
  client_log c1 = client_log c2 ->
  destroySocket c1 = destroySocket c2.
Proof. intros Eu Eh El. unfold destroySocket. now rewrite Eu, Eh, El. Qed.

(** A proper computation runs the same from two clients that agree on
    unit id, handler and log. *)
Lemma proper_ext {A} (m : M G A) (c1 c2 : Client G) :
  proper m ->
  client_unitId c2 = client_unitId c1 ->
  client_handler c2 = client_handler c1 ->
  client_log c2 = client_log c1 ->
  (m c2).1 = (m c1).1
  /\ client_unitId (m c2).2 = client_unitId (m c1).2
  /\ client_handler (m c2).2 = client_handler (m c1).2
  /\ client_log (m c2).2 = client_log (m c1).2
  /\ new_events m c2 = new_events m c1.
Proof.
  intros Hm Eu Eh El.
  destruct (Hm c1) as (_ & _ & Hsame).
  destruct (Hsame c2 Eu Eh) as (Er & Eu' & Eh' & Ee).
  repeat split; try assumption.
  now rewrite !proper_log, El, Ee by assumption.
Qed.

End ProperComputations.

(** Takes a computation apart along its sequencing. *)
Ltac proper_steps :=
  repeat first
    [ apply proper_ret
    | apply proper_lift
    | apply proper_throw
    | apply proper_setUnitId
    | apply proper_issue
    | apply proper_await
    | apply proper_logged
    | apply proper_connectSocket
    | assumption
    | apply proper_bind; [| intros ?]
    | apply proper_try_catch
    | match goal with
      | |- proper (if ?b then _ else _) => destruct b
      | |- proper (match ?x with _ => _ end) => destruct x
      end ].

Section ProperDriver.
Context {G : Type} `{Gateway G} `{JsNumber} `{PowerTagRegistry}.

Lemma proper_issue_all (rqs : list Request) : proper (issue_all (G := G) rqs).
Proof.
  induction rqs as [|rq rqs IH]; cbn [issue_all]; proper_steps.
Qed.

Lemma proper_await_all (rqs : list Request) : proper (await_all (G := G) rqs).
Proof.
  unfold await_all. apply proper_bind; [apply proper_issue_all |].
  intros ps. apply proper_logged.
Qed.

Lemma proper_poll {A} (blocks : list Request) (decode : list (list byte) -> Result A) :
  proper (do bufs <- await_all (G := G) blocks; lift (decode bufs)).
Proof. apply proper_bind; [apply proper_await_all | intros bufs; apply proper_lift]. Qed.

Lemma proper_readDeviceType : proper (readDeviceType (G := G)).
Proof. unfold readDeviceType, readHoldingRegisters. proper_steps. Qed.

Lemma proper_readDeviceName : proper (readDeviceName (G := G)).
Proof. unfold readDeviceName, readHoldingRegisters. proper_steps. Qed.

Lemma proper_readCommercialReference : proper (readCommercialReference (G := G)).
Proof. unfold readCommercialReference, readHoldingRegisters. proper_steps. Qed.

Lemma proper_tryReadDeviceName : proper (tryReadDeviceName (G := G)).
Proof.
  unfold tryReadDeviceName.
  apply proper_try_catch; [apply proper_readDeviceName | apply proper_ret].
Qed.

Lemma proper_readPanelServerDeviceAddresses :
  proper (readPanelServerDeviceAddresses (G := G)).
Proof. apply proper_poll. Qed.

Lemma proper_panel_slot (settings : PowerTagSettings) (slot unitId : Z)
      (devices : list DeviceEntry) :
  proper (panel_slot (G := G) settings slot unitId devices).
Proof.
  unfold panel_slot.
  pose proof proper_readCommercialReference.
  pose proof proper_tryReadDeviceName.
  proper_steps.
Qed.

Lemma proper_panel_loop (settings : PowerTagSettings) (addressMap : JsMap.t)
      (devices : list DeviceEntry) :
  proper (panel_loop (G := G) settings addressMap devices).
Proof.
  revert devices. induction addressMap as [|[slot unitId] rest IH]; intros devices;
    cbn [panel_loop]; [apply proper_ret |].
  apply proper_bind; [apply proper_panel_slot | intros devices'; apply IH].
Qed.

Lemma proper_discoverViaPanelServer (settings : PowerTagSettings) :
  proper (discoverViaPanelServer (G := G) settings).
Proof.
  unfold discoverViaPanelServer.
  apply proper_bind; [apply proper_setUnitId | intros _].
  apply proper_bind; [apply proper_readPanelServerDeviceAddresses |].
  intros addressMap. apply proper_panel_loop.
Qed.

Lemma proper_scan_unit (settings : PowerTagSettings) (maxCT unitId : Z)
      (st : ScanState) :
  proper (scan_unit (G := G) settings maxCT unitId st).
Proof.
  unfold scan_unit.
  pose proof proper_readDeviceType.
  pose proof proper_tryReadDeviceName.
  proper_steps.
Qed.

Lemma proper_scan_loop (settings : PowerTagSettings) (maxCT : Z) (unitIds : list Z)
      (st : ScanState) :
  proper (scan_loop (G := G) settings maxCT unitIds st).
Proof.
  revert st. induction unitIds as [|unitId rest IH]; intros st;
    cbn [scan_loop]; [apply proper_ret |].
  apply proper_bind; [apply proper_scan_unit |].
  intros [[|] st']; [apply IH | apply proper_ret].
Qed.

Lemma proper_scanUnitRange (settings : PowerTagSettings) (startId endId maxCT : Z) :
  proper (scanUnitRange (G := G) settings startId endId maxCT).
Proof.
  unfold scanUnitRange.
  apply proper_bind; [apply proper_scan_loop | intros r; apply proper_ret].
Qed.

Lemma proper_smartlinkScan (settings : PowerTagSettings) :
  proper (smartlinkScan (G := G) settings).
Proof.
  unfold smartlinkScan.
  repeat (apply proper_bind; [apply proper_scanUnitRange | intros ?]).
  apply proper_ret.
Qed.

Lemma proper_panel_strategy (settings : PowerTagSettings) :
  proper (try_catch (discoverViaPanelServer (G := G) settings) (ret [])).
Proof.
  apply proper_try_catch; [apply proper_discoverViaPanelServer | apply proper_ret].
Qed.

End ProperDriver.
(** ** Polls and the output command *)

Section Polls.
Context {G : Type} `{Gateway G} `{JsNumber}.

Lemma requests_of_promise_all (unitId : Z) (blocks : list Request)
      (resps : list Response) :
  length resps = length blocks ->
  requests_of (promise_all_events unitId blocks resps)
  = map (fun rq => (unitId, rq)) blocks.
Proof.
  unfold promise_all_events, requests_of. intros Hlen.
  rewrite omap_app. simpl. rewrite app_nil_r.
  revert resps Hlen. induction blocks as [|rq blocks IH]; intros [|r resps] Hlen;
    simpl in *; try discriminate; [reflexivity |].
  f_equal. apply IH. congruence.
Qed.

Lemma poll_issues_blocks {A} (blocks : list Request)
      (decode : list (list byte) -> Result A) (poll : M G A) (c : Client G) :
  all_or_nothing_poll blocks decode poll ->
  call_throws (client_handler c) (client_unitId c) = false ->
  issued_by poll c = map (fun rq => (client_unitId c, rq)) blocks.
Proof.
  intros Hpoll Hn. destruct (Hpoll c) as [Hreturns _].
  destruct (Hreturns Hn) as (resps & Hlen & Hev & _).
  unfold issued_by. rewrite Hev. now apply requests_of_promise_all.
Qed.

(** A poll whose first call throws has handed over that one request. *)
Lemma poll_issues_first {A} (rq : Request) (blocks : list Request)
      (decode : list (list byte) -> Result A) (poll : M G A) (c : Client G) :
  all_or_nothing_poll (rq :: blocks) decode poll ->
  call_throws (client_handler c) (client_unitId c) = true ->
  (poll c).1 = Err /\ issued_by poll c = [(client_unitId c, rq)].
Proof.
  intros Hpoll Ht. destruct (Hpoll c) as [_ Hthrows].
  destruct (Hthrows Ht) as [Herr Hev]; [discriminate |].
  split; [exact Herr |]. unfold issued_by. now rewrite Hev.
Qed.

End Polls.




(** C8. [writeControlIOOutput] with [true] hands the client exactly one
    request, a single-register write of 2 to register 37051, and with
    [false] exactly one single-register write of 1 to the same register. *)
Theorem writeControlIOOutput_command {G : Type} `{Gateway G} (c : Client G) :
  issued_by (writeControlIOOutput true) c
  = [(client_unitId c, WriteSingleRegister 37051 2)]
  /\ issued_by (writeControlIOOutput false) c
     = [(client_unitId c, WriteSingleRegister 37051 1)]
  /\ REG_DO1_CMD = 37051.
Proof.
  assert (Hon : forall on : bool,
             issued_by (writeControlIOOutput on) c
             = [(client_unitId c, WriteSingleRegister REG_DO1_CMD (if on then 2 else 1))]).
  { intros on. unfold issued_by.
    destruct (handle (client_handler c) (client_unitId c)
                     (WriteSingleRegister REG_DO1_CMD (if on then 2 else 1)))
      as [resp h'] eqn:Er.
    rewrite (new_events_app _ _
               (exchange_events c
                  (WriteSingleRegister REG_DO1_CMD (if on then 2 else 1)) resp)).
    - unfold exchange_events.
      now destruct (call_throws (client_handler c) (client_unitId c)).
    - unfold writeControlIOOutput, writeSingleRegister, exchange_events.
      rewrite bind_run, issue_run, Er. cbn [fst snd].
      destruct (call_throws (client_handler c) (client_unitId c)); [reflexivity |].
      unfold bind, await. destruct resp; simpl; now rewrite <- app_assoc. }
  split; [apply (Hon true) | split; [apply (Hon false) | reflexivity]].
Qed.



(** ** Single reads *)

Section Reads.
Context {G : Type} `{Gateway G}.

Lemma exchange_run {A} (rq : Request) (k : list byte -> Result A) (c : Client G) :
  (do p <- issue rq; do buf <- await p; lift (k buf)) c
  = let '(resp, h') := handle (client_handler c) (client_unitId c) rq in
    (match resp with Fulfilled buf => k buf | Rejected => Err | Pending => Never end,
     after_exchange c rq resp h').
Proof.
  rewrite bind_run, issue_run. unfold after_exchange, exchange_events.
  destruct (call_throws (client_handler c) (client_unitId c)) eqn:Ht.
  - now rewrite (handle_thrown _ _ rq Ht).
  - destruct (handle (client_handler c) (client_unitId c) rq) as [[buf| |] h'];
      cbn [fst snd]; unfold bind, await, lift, write_log;
      simpl; rewrite <- app_assoc; reflexivity.
Qed.

(** What an exchange puts in the log: its request, and the wait for the
    response unless the call has thrown. *)
Lemma requests_of_app (evs1 evs2 : list Event) :
  requests_of (evs1 ++ evs2) = (requests_of evs1 ++ requests_of evs2)%list.
Proof. apply omap_app. Qed.

Lemma requests_of_exchange (c : Client G) (rq : Request) (resp : Response) :
  requests_of (exchange_events c rq resp) = [(client_unitId c, rq)].
Proof.
  unfold exchange_events.
  now destruct (call_throws (client_handler c) (client_unitId c)).
Qed.

Lemma exchange_events_first (c : Client G) (rq : Request) (resp : Response) :
  exists waits,
    exchange_events c rq resp = Issued (client_unitId c) rq resp :: waits
    /\ requests_of waits = []
    /\ forall u rq' resp', Issued u rq' resp' ∉ waits.
Proof.
  unfold exchange_events.
  destruct (call_throws (client_handler c) (client_unitId c));
    [exists [] | exists [Awaited 1]];
    (split; [reflexivity |]); (split; [reflexivity |]); intros u rq' resp' Hin.
  - now apply elem_of_nil in Hin.
  - apply elem_of_cons in Hin as [Hin | Hin]; [discriminate Hin |].
    now apply elem_of_nil in Hin.
Qed.

Lemma readDeviceType_run (c : Client G) :
  readDeviceType c
  = let '(resp, h') := handle (client_handler c) (client_unitId c) type_read in
    (deviceType_of resp, after_exchange c type_read resp h').
Proof. apply (exchange_run type_read (fun buf => Buffer.readUInt16BE buf 0)). Qed.

Lemma readDeviceName_run (c : Client G) :
  readDeviceName c
  = let '(resp, h') := handle (client_handler c) (client_unitId c) name_read in
    (ascii_of resp, after_exchange c name_read resp h').
Proof. apply (exchange_run name_read (fun buf => Ok (parseAsciiBuffer buf))). Qed.

Lemma readCommercialReference_run (c : Client G) :
  readCommercialReference c
  = let '(resp, h') := handle (client_handler c) (client_unitId c) reference_read in
    (ascii_of resp, after_exchange c reference_read resp h').
Proof. apply (exchange_run reference_read (fun buf => Ok (parseAsciiBuffer buf))). Qed.

(** The name read never fails the caller: a rejected read gives ''. *)
Lemma tryReadDeviceName_run (c : Client G) :
  tryReadDeviceName c
  = let '(resp, h') := handle (client_handler c) (client_unitId c) name_read in
    (match ascii_of resp with
     | Ok name => Ok name
     | Err => Ok ""
     | Never => Never
     end,
     after_exchange c name_read resp h').
Proof.
  unfold tryReadDeviceName, try_catch. rewrite readDeviceName_run.
  destruct (handle (client_handler c) (client_unitId c) name_read) as [[buf| |] h'];
    reflexivity.
Qed.

(** A body whose first two bytes are read as a type id, or a body that
    is read as text, is the body of a fulfilled promise. *)
Lemma deviceType_of_Ok (resp : Response) (typeId : Z) :
  deviceType_of resp = Ok typeId -> exists buf, resp = Fulfilled buf.
Proof. destruct resp as [buf| |]; [eauto | discriminate ..]. Qed.

Lemma ascii_of_Ok (resp : Response) (text : string) :
  ascii_of resp = Ok text -> exists buf, resp = Fulfilled buf.
Proof. destruct resp as [buf| |]; [eauto | discriminate ..]. Qed.

Lemma deviceType_of_Never (resp : Response) :
  deviceType_of resp = Never -> resp = Pending.
Proof.
  destruct resp as [buf| |]; [| discriminate | reflexivity].
  cbn. unfold Buffer.readUInt16BE.
  destruct (Buffer.at_ buf 0), (Buffer.at_ buf (0 + 1)); discriminate.
Qed.

Lemma ascii_of_Never (resp : Response) :
  ascii_of resp = Never -> resp = Pending.
Proof. destruct resp as [buf| |]; [discriminate | discriminate | reflexivity]. Qed.

End Reads.

(** ** One turn of each discovery loop *)

Section Turns.
Context {G : Type} `{Gateway G} `{JsNumber} `{PowerTagRegistry}.

(** The name read that follows a fulfilled read settles. *)
Lemma name_read_settles (h h1 h2 : RequestHandler G) (unitId : Z) (rq : Request)
      (buf : list byte) (resp2 : Response) :
  handle h unitId rq = (Fulfilled buf, h1) ->
  handle h1 unitId name_read = (resp2, h2) ->
  (match ascii_of resp2 with
   | Ok name => Ok name
   | Err => Ok ""
   | Never => Never
   end) = Ok (name_or_empty resp2)
  /\ handler_stalled h2 = false.
Proof.
  intros E1 E2. apply handle_Fulfilled in E1 as (_ & Hf & Hs1 & _).
  destruct (handle_stays_ready h1 unitId name_read Hs1 Hf) as [Hp Hs2].
  rewrite E2 in Hp, Hs2. cbn [fst snd] in Hp, Hs2.
  split; [| exact Hs2].
  unfold name_or_empty. destruct resp2; [reflexivity | reflexivity | contradiction].
Qed.

Lemma scan_unit_run (settings : PowerTagSettings) (maxConsecutiveTimeouts unitId : Z)
      (st : ScanState) (c : Client G) :
  let '(resp, h1) := handle (client_handler c) unitId type_read in
  let c1 := after_exchange (addressed unitId c) type_read resp h1 in
  match deviceType_of resp with
  | Never => scan_unit settings maxConsecutiveTimeouts unitId st c = (Never, c1)
  | Err =>
      scan_unit settings maxConsecutiveTimeouts unitId st c
      = (Ok (if bool_decide (consecutiveTimeouts st + 1 >= maxConsecutiveTimeouts)
             then Break else Continue,
             {| consecutiveTimeouts := consecutiveTimeouts st + 1;
                scan_devices := scan_devices st |}),
         c1)
  | Ok typeId =>
      match scanned_model typeId with
      | None =>
          scan_unit settings maxConsecutiveTimeouts unitId st c
          = (Ok (Continue,
                 {| consecutiveTimeouts := 0; scan_devices := scan_devices st |}),
             c1)
      | Some modelConfig =>
          let '(resp2, h2) := handle h1 unitId name_read in
          scan_unit settings maxConsecutiveTimeouts unitId st c
          = (Ok (Continue,
                 {| consecutiveTimeouts := 0;
                    scan_devices :=
                      (scan_devices st ++
                       [buildDeviceEntry settings unitId typeId modelConfig
                                         (name_or_empty resp2)])%list |}),
             after_exchange c1 name_read resp2 h2)
      end
  end.
Proof.
  destruct (handle (client_handler c) unitId type_read) as [resp h1] eqn:Er.
  assert (Hread : readDeviceType (addressed unitId c)
                  = (deviceType_of resp,
                     after_exchange (addressed unitId c) type_read resp h1)).
  { rewrite readDeviceType_run. cbn [addressed client_handler client_unitId].
    now rewrite Er. }
  cbv zeta.
  destruct (deviceType_of resp) as [typeId| |] eqn:Et.
  - unfold scanned_model.
    destruct (bool_decide (typeId = 0) || bool_decide (typeId = 65535)) eqn:Eempty.
    + unfold scan_unit, try_catch. rewrite bind_run. unfold setUnitId.
      fold (addressed unitId c). rewrite bind_run, Hread, Eempty. reflexivity.
    + destruct (POWERTAG_MODELS !! typeId) as [modelConfig|] eqn:Em.
      * destruct (handle h1 unitId name_read) as [resp2 h2] eqn:Er2.
        destruct (deviceType_of_Ok _ _ Et) as [buf ->].
        destruct (name_read_settles _ _ _ _ _ _ _ Er Er2) as [Ename _].
        unfold scan_unit, try_catch. rewrite bind_run. unfold setUnitId.
        fold (addressed unitId c). rewrite bind_run, Hread, Eempty, Em.
        rewrite bind_run, tryReadDeviceName_run.
        cbn [after_exchange addressed client_handler client_unitId].
        rewrite Er2, Ename. reflexivity.
      * unfold scan_unit, try_catch. rewrite bind_run. unfold setUnitId.
        fold (addressed unitId c). rewrite bind_run, Hread, Eempty, Em. reflexivity.
  - unfold scan_unit, try_catch. rewrite bind_run. unfold setUnitId.
    fold (addressed unitId c). rewrite bind_run, Hread.
    destruct (bool_decide _); reflexivity.
  - unfold scan_unit, try_catch. rewrite bind_run. unfold setUnitId.
    fold (addressed unitId c). rewrite bind_run, Hread. reflexivity.
Qed.

Lemma panel_slot_run (settings : PowerTagSettings) (slot unitId : Z)
      (devices : list DeviceEntry) (c : Client G) :
  let '(resp, h1) := handle (client_handler c) unitId reference_read in
  let c1 := after_exchange (addressed unitId c) reference_read resp h1 in
  match ascii_of resp with
  | Never => panel_slot settings slot unitId devices c = (Never, c1)
  | Err => panel_slot settings slot unitId devices c = (Ok devices, c1)
  | Ok reference =>
      match (if bool_decide (reference = "") then None
             else getModelByReference reference) with
      | None => panel_slot settings slot unitId devices c = (Ok devices, c1)
      | Some modelConfig =>
          let '(resp2, h2) := handle h1 unitId name_read in
          panel_slot settings slot unitId devices c
          = (Ok (devices ++
                 [buildDeviceEntry settings unitId (mc_typeId modelConfig)
                                   modelConfig (name_or_empty resp2)])%list,
             after_exchange c1 name_read resp2 h2)
      end
  end.
Proof.
  destruct (handle (client_handler c) unitId reference_read) as [resp h1] eqn:Er.
  assert (Hread : readCommercialReference (addressed unitId c)
                  = (ascii_of resp,
                     after_exchange (addressed unitId c) reference_read resp h1)).
  { rewrite readCommercialReference_run.
    cbn [addressed client_handler client_unitId]. now rewrite Er. }
  cbv zeta.
  destruct (ascii_of resp) as [reference| |] eqn:Et.
  - destruct (bool_decide (reference = "")) eqn:Eempty.
    + unfold panel_slot, try_catch. rewrite bind_run. unfold setUnitId.
      fold (addressed unitId c). rewrite bind_run, Hread, Eempty. reflexivity.
    + destruct (getModelByReference reference) as [modelConfig|] eqn:Em.
      * destruct (handle h1 unitId name_read) as [resp2 h2] eqn:Er2.
        destruct (ascii_of_Ok _ _ Et) as [buf ->].
        destruct (name_read_settles _ _ _ _ _ _ _ Er Er2) as [Ename _].
        unfold panel_slot, try_catch. rewrite bind_run. unfold setUnitId.
        fold (addressed unitId c). rewrite bind_run, Hread, Eempty, Em.
        rewrite bind_run, tryReadDeviceName_run.
        cbn [after_exchange addressed client_handler client_unitId].
        rewrite Er2, Ename. reflexivity.
      * unfold panel_slot, try_catch. rewrite bind_run. unfold setUnitId.
        fold (addressed unitId c). rewrite bind_run, Hread, Eempty, Em. reflexivity.
  - unfold panel_slot, try_catch. rewrite bind_run. unfold setUnitId.
    fold (addressed unitId c). rewrite bind_run, Hread. reflexivity.
  - unfold panel_slot, try_catch. rewrite bind_run. unfold setUnitId.
    fold (addressed unitId c). rewrite bind_run, Hread. reflexivity.
Qed.

End Turns.

(** Splits a turn of the scan into its courses: known model, empty unit
    or unknown type, failed type read, and a type read that never
    settles. *)
Ltac scan_turn settings maxCT unitId st c :=
  let resp := fresh "resp" in
  let h1 := fresh "h1" in
  let Eresp := fresh "Eresp" in
  let Eturn := fresh "Eturn" in
  pose proof (scan_unit_run settings maxCT unitId st c) as Eturn;
  destruct (handle (client_handler c) unitId type_read) as [resp h1] eqn:Eresp;
  cbv zeta in Eturn;
  let typeId := fresh "typeId" in
  let Etype := fresh "Etype" in
  destruct (deviceType_of resp) as [typeId| |] eqn:Etype;
  [ let mc := fresh "modelConfig" in
    let Emodel := fresh "Emodel" in
    destruct (scanned_model typeId) as [mc|] eqn:Emodel;
    [ let resp2 := fresh "resp2" in
      let h2 := fresh "h2" in
      let Ename := fresh "Ename" in
      destruct (handle h1 unitId name_read) as [resp2 h2] eqn:Ename
    | ]
  | | ].

(** The same for a turn of the slot loop. *)
Ltac panel_turn settings slot unitId devices c :=
  let resp := fresh "resp" in
  let h1 := fresh "h1" in
  let Eresp := fresh "Eresp" in
  let Eturn := fresh "Eturn" in
  pose proof (panel_slot_run settings slot unitId devices c) as Eturn;
  destruct (handle (client_handler c) unitId reference_read) as [resp h1] eqn:Eresp;
  cbv zeta in Eturn;
  let reference := fresh "reference" in
  let Eref := fresh "Eref" in
  destruct (ascii_of resp) as [reference| |] eqn:Eref;
  [ let mc := fresh "modelConfig" in
    let Emodel := fresh "Emodel" in
    destruct (if bool_decide (reference = "") then None
              else getModelByReference reference) as [mc|] eqn:Emodel;
    [ let resp2 := fresh "resp2" in
      let h2 := fresh "h2" in
      let Ename := fresh "Ename" in
      destruct (handle h1 unitId name_read) as [resp2 h2] eqn:Ename
    | ]
  | | ].

(** ** The range scan *)

Section RangeScan.
Context {G : Type} `{Gateway G} `{JsNumber} `{PowerTagRegistry}.

(** A turn never raises: its [catch] block handles every error. *)
Lemma scan_unit_never_raises (settings : PowerTagSettings) (maxCT unitId : Z)
      (st : ScanState) (c : Client G) :
  (scan_unit settings maxCT unitId st c).1 <> Err.
Proof. scan_turn settings maxCT unitId st c; rewrite Eturn; discriminate. Qed.

(** A turn for a unit id that fits in the frame, with the handler ready,
    completes and leaves the handler ready. *)
Lemma scan_unit_ready (settings : PowerTagSettings) (maxCT unitId : Z)
      (st : ScanState) (c : Client G) :
  handler_stalled (client_handler c) = false ->
  fits_in_byte unitId = true ->
  exists e st1 c1,
    scan_unit settings maxCT unitId st c = (Ok (e, st1), c1)
    /\ handler_stalled (client_handler c1) = false.
Proof.
  intros Hs Hf.
  destruct (handle_stays_ready (client_handler c) unitId type_read Hs Hf) as [Hp Hs1].
  scan_turn settings maxCT unitId st c; cbn [fst snd] in Hp, Hs1.
  - destruct (handle_stays_ready h1 unitId name_read Hs1 Hf) as [_ Hs2].
    rewrite Ename in Hs2. eexists _, _, _. split; [exact Eturn | exact Hs2].
  - eexists _, _, _. split; [exact Eturn | exact Hs1].
  - eexists _, _, _. split; [exact Eturn | exact Hs1].
  - apply deviceType_of_Never in Etype. contradiction.
Qed.

(** Induction over the turns of the loop: a property of whole runs holds
    when it holds of the run over no unit id, of a run whose first turn
    leaves the loop, of a run whose first turn never completes, and of a
    run whose first turn goes on whenever it holds of the rest of the run.
    The loop never raises. *)
Lemma scan_loop_run (settings : PowerTagSettings) (maxCT : Z)
      (P : list Z -> ScanState -> Client G
           -> Result (LoopExit * ScanState) -> Client G -> Prop) :
  (forall st c, P [] st c (Ok (Continue, st)) c) ->
  (forall unitId rest st c st1 c1,
      scan_unit settings maxCT unitId st c = (Ok (Break, st1), c1) ->
      P (unitId :: rest) st c (Ok (Break, st1)) c1) ->
  (forall unitId rest st c c1,
      scan_unit settings maxCT unitId st c = (Never, c1) ->
      P (unitId :: rest) st c Never c1) ->
  (forall unitId rest st c st1 c1 r c2,
      scan_unit settings maxCT unitId st c = (Ok (Continue, st1), c1) ->
      scan_loop settings maxCT rest st1 c1 = (r, c2) ->
      P rest st1 c1 r c2 ->
      P (unitId :: rest) st c r c2) ->
  forall unitIds st c,
  exists r c',
    scan_loop settings maxCT unitIds st c = (r, c')
    /\ r <> Err
    /\ P unitIds st c r c'.
Proof.
  intros Hnil Hbreak Hnever Hcont unitIds.
  induction unitIds as [|unitId rest IH]; intros st c.
  - exists (Ok (Continue, st)), c. split; [reflexivity |].
    split; [discriminate | apply Hnil].
  - pose proof (scan_unit_never_raises settings maxCT unitId st c) as Hne.
    cbn [scan_loop]. rewrite bind_run.
    destruct (scan_unit settings maxCT unitId st c) as [[[e st1]| |] c1] eqn:E1.
    + destruct e.
      * destruct (IH st1 c1) as (r & c2 & E2 & Hr & HP).
        exists r, c2. split; [exact E2 |]. split; [exact Hr |].
        eapply Hcont; eassumption.
      * exists (Ok (Break, st1)), c1. split; [reflexivity |].
        split; [discriminate | now apply Hbreak].
    + now contradiction Hne.
    + exists Never, c1. split; [reflexivity |].
      split; [discriminate | now apply Hnever].
Qed.

Lemma scanUnitRange_run (settings : PowerTagSettings) (startId endId maxCT : Z)
      (c : Client G) :
  scanUnitRange settings startId endId maxCT c
  = match scan_loop settings maxCT (seqZ startId (endId - startId))
                    {| consecutiveTimeouts := 0; scan_devices := [] |} c with
    | (Ok (e, st'), c') => (Ok (scan_devices st'), c')
    | (Err, c') => (Err, c')
    | (Never, c') => (Never, c')
    end.
Proof.
  unfold scanUnitRange. rewrite bind_run.
  now destruct (scan_loop _ _ _ _ c) as [[[e st']| |] c'].
Qed.

Lemma new_events_ret {A} (a : A) (c : Client G) : new_events (ret a) c = [].
Proof. unfold new_events. cbn. apply drop_all. Qed.

Lemma scanUnitRange_events (settings : PowerTagSettings) (startId endId maxCT : Z)
      (c : Client G) :
  new_events (scanUnitRange settings startId endId maxCT) c
  = new_events (scan_loop settings maxCT (seqZ startId (endId - startId))
                          {| consecutiveTimeouts := 0; scan_devices := [] |}) c.
Proof.
  unfold new_events. now rewrite scanUnitRange_run;
    destruct (scan_loop _ _ _ _ c) as [[[e st']| |] c'].
Qed.

(** The loop over unit ids that fit in the frame, with the handler
    ready, completes and leaves the handler ready. *)
Lemma scan_loop_ready (settings : PowerTagSettings) (maxCT : Z)
      (unitIds : list Z) (st : ScanState) (c : Client G) :
  handler_stalled (client_handler c) = false ->
  Forall (fun unitId => fits_in_byte unitId = true) unitIds ->
  exists e st' c',
    scan_loop settings maxCT unitIds st c = (Ok (e, st'), c')
    /\ handler_stalled (client_handler c') = false.
Proof.
  revert st c. induction unitIds as [|unitId rest IH]; intros st c Hs Hfit.
  - exists Continue, st, c. split; [reflexivity | exact Hs].
  - apply Forall_cons in Hfit as [Hf Hfit].
    destruct (scan_unit_ready settings maxCT unitId st c Hs Hf)
      as (e & st1 & c1 & E1 & Hs1).
    cbn [scan_loop]. rewrite bind_run, E1. destruct e.
    + apply IH; assumption.
    + exists Break, st1, c1. split; [reflexivity | exact Hs1].
Qed.

Lemma scanUnitRange_ready (settings : PowerTagSettings) (startId endId maxCT : Z)
      (c : Client G) :
  handler_stalled (client_handler c) = false ->
  0 <= startId -> endId <= 256 ->
  exists devices c',
    scanUnitRange settings startId endId maxCT c = (Ok devices, c')
    /\ handler_stalled (client_handler c') = false.
Proof.
  intros Hs Hlo Hhi.
  destruct (scan_loop_ready settings maxCT (seqZ startId (endId - startId))
              {| consecutiveTimeouts := 0; scan_devices := [] |} c Hs)
    as (e & st' & c' & E & Hs').
  { apply Forall_forall. intros unitId Hin. apply elem_of_seqZ in Hin.
    unfold fits_in_byte. apply bool_decide_eq_true. lia. }
  exists (scan_devices st'), c'. rewrite scanUnitRange_run, E. auto.
Qed.

Lemma smartlinkScan_ready (settings : PowerTagSettings) (c : Client G) :
  handler_stalled (client_handler c) = false ->
  exists devices c',
    smartlinkScan settings c = (Ok devices, c')
    /\ handler_stalled (client_handler c') = false.
Proof.
  intros Hs.
  destruct (scanUnitRange_ready settings 150 170 default_maxConsecutiveTimeouts c Hs)
    as (d1 & c1 & E1 & Hs1); [lia | lia |].
  destruct (scanUnitRange_ready settings 100 150 3 c1 Hs1)
    as (d2 & c2 & E2 & Hs2); [lia | lia |].
  destruct (scanUnitRange_ready settings 170 200 3 c2 Hs2)
    as (d3 & c3 & E3 & Hs3); [lia | lia |].
  exists (d1 ++ d2 ++ d3)%list, c3.
  unfold smartlinkScan. rewrite bind_run, E1, bind_run, E2, bind_run, E3. auto.
Qed.

Lemma scanned_model_Some (typeId : Z) (modelConfig : PowerTagModelConfig) :
  scanned_model typeId = Some modelConfig ->
  typeId <> 0 /\ typeId <> 65535 /\ POWERTAG_MODELS !! typeId = Some modelConfig.
Proof.
  unfold scanned_model.
  destruct (bool_decide (typeId = 0)) eqn:E0; [discriminate |].
  destruct (bool_decide (typeId = 65535)) eqn:E1; [discriminate |].
  apply bool_decide_eq_false in E0, E1. simpl. auto.
Qed.

Lemma type_read_units_turn (unitId : Z) (rqs : list (Z * Request)) :
  type_read_units ((unitId, type_read) :: rqs) = unitId :: type_read_units rqs.
Proof. reflexivity. Qed.

Lemma type_read_units_name (unitId : Z) (rqs : list (Z * Request)) :
  type_read_units ((unitId, name_read) :: rqs) = type_read_units rqs.
Proof. reflexivity. Qed.

Lemma scanned_entry_cons (unitId : Z) (rest : list Z) (d : DeviceEntry) :
  scanned_entry rest d -> scanned_entry (unitId :: rest) d.
Proof. intros (Hin & Hrest). split; [now right | exact Hrest]. Qed.

Lemma built_entry_build (settings : PowerTagSettings) (unitId typeId : Z)
      (modelConfig : PowerTagModelConfig) (deviceName : string) :
  built_entry settings (buildDeviceEntry settings unitId typeId modelConfig deviceName).
Proof. now exists unitId, typeId, modelConfig, deviceName. Qed.

(** How the trace of a scan grows by one turn. *)
Lemma scan_trace_nil (settings : PowerTagSettings) (unitIds : list Z) :
  scan_trace settings unitIds [] [].
Proof.
  unfold scan_trace, requests_satisfy. cbn.
  repeat split; try constructor; try apply sublist_nil_l; lia.
Qed.

Lemma scan_trace_skip (settings : PowerTagSettings) (unitId : Z) (rest : list Z)
      (turn evs : list Event) (new : list DeviceEntry) :
  requests_of turn = [(unitId, type_read)] ->
  scan_trace settings rest evs new ->
  scan_trace settings (unitId :: rest) (turn ++ evs) new.
Proof.
  intros Hturn (Hreq & Hreads & Hlen & Hnew & Hsub & Hscanned & Hbuilt).
  unfold scan_trace, requests_satisfy in *.
  rewrite requests_of_app, Hturn. cbn [app]. rewrite type_read_units_turn.
  split.
  { constructor; [cbn; split; [left | now left] |].
    eapply Forall_impl; [exact Hreq |]. cbn. intros rq [Hin Hrq].
    split; [now right | exact Hrq]. }
  split; [apply sublist_skip, Hreads |].
  split; [cbn [length]; lia |].
  split; [cbn [length]; lia |].
  split; [apply sublist_cons, Hsub |].
  split; [| exact Hbuilt].
  eapply Forall_impl; [exact Hscanned | apply scanned_entry_cons].
Qed.

Lemma scan_trace_found (settings : PowerTagSettings) (unitId : Z) (rest : list Z)
      (turn : list Event) (typeId : Z) (modelConfig : PowerTagModelConfig)
      (deviceName : string) (evs : list Event) (new : list DeviceEntry) :
  requests_of turn = [(unitId, type_read); (unitId, name_read)] ->
  scanned_model typeId = Some modelConfig ->
  scan_trace settings rest evs new ->
  scan_trace settings (unitId :: rest) (turn ++ evs)
             (buildDeviceEntry settings unitId typeId modelConfig deviceName :: new).
Proof.
  intros Hturn Hmodel (Hreq & Hreads & Hlen & Hnew & Hsub & Hscanned & Hbuilt).
  apply scanned_model_Some in Hmodel as (Hn0 & Hn1 & Hm).
  unfold scan_trace, requests_satisfy in *.
  rewrite requests_of_app, Hturn. cbn [app].
  rewrite type_read_units_turn, type_read_units_name.
  split.
  { constructor; [cbn; split; [left | now left] |].
    constructor; [cbn; split; [left | now right] |].
    eapply Forall_impl; [exact Hreq |]. cbn. intros rq [Hin Hrq].
    split; [now right | exact Hrq]. }
  split; [apply sublist_skip, Hreads |].
  split; [cbn [length]; lia |].
  split; [cbn [length]; lia |].
  split; [apply sublist_skip, Hsub |].
  split.
  - constructor.
    + unfold scanned_entry, entry_unitId, entry_typeId.
      cbn [buildDeviceEntry entry_store store_unitId store_typeId].
      split; [left | split; [exact Hn0 | split; [exact Hn1 | now rewrite Hm]]].
    + eapply Forall_impl; [exact Hscanned | apply scanned_entry_cons].
  - constructor; [apply built_entry_build | exact Hbuilt].
Qed.

(** The events of a turn that reads the type only, and of a turn that
    reads the name too. *)
Lemma type_turn_requests (unitId : Z) (c : Client G) (resp : Response) :
  requests_of (exchange_events (addressed unitId c) type_read resp)
  = [(unitId, type_read)].
Proof. now rewrite requests_of_exchange. Qed.

Lemma named_turn_requests (unitId : Z) (c : Client G) (rq : Request)
      (resp resp2 : Response) (h1 : RequestHandler G) :
  requests_of (exchange_events (addressed unitId c) rq resp
               ++ exchange_events (after_exchange (addressed unitId c) rq resp h1)
                                  name_read resp2)
  = [(unitId, rq); (unitId, name_read)].
Proof. now rewrite requests_of_app, !requests_of_exchange. Qed.

(** What a run of the scan loop does, whether or not it completes. *)
Lemma scan_loop_trace (settings : PowerTagSettings) (maxCT : Z)
      (unitIds : list Z) (st : ScanState) (c : Client G) :
  exists r c' evs new,
    scan_loop settings maxCT unitIds st c = (r, c')
    /\ r <> Err
    /\ client_log c' = (client_log c ++ evs)%list
    /\ scan_trace settings unitIds evs new
    /\ forall e st', r = Ok (e, st') ->
                     scan_devices st' = (scan_devices st ++ new)%list.
Proof.
  destruct (scan_loop_run settings maxCT
              (fun unitIds st c r c' =>
                 exists evs new,
                   client_log c' = (client_log c ++ evs)%list
                   /\ scan_trace settings unitIds evs new
                   /\ forall e st', r = Ok (e, st') ->
                                    scan_devices st' = (scan_devices st ++ new)%list))
    with (unitIds := unitIds) (st := st) (c := c)
    as (r & c' & E & Hr & evs & new & Hlog & Htrace & Hdev).
  - clear. intros st c. exists [], []. rewrite !app_nil_r.
    split; [reflexivity |]. split; [apply scan_trace_nil |].
    now intros e st' [= _ ->].
  - clear. intros unitId rest st c st1 c1 E.
    scan_turn settings maxCT unitId st c; rewrite Eturn in E;
      try discriminate E; injection E; intros; subst st1 c1.
    exists (exchange_events (addressed unitId c) type_read resp ++ [])%list, [].
    split; [now rewrite app_nil_r |].
    split; [apply scan_trace_skip; [apply type_turn_requests | apply scan_trace_nil] |].
    intros e st' [= _ <-]. cbn. now rewrite app_nil_r.
  - clear. intros unitId rest st c c1 E.
    scan_turn settings maxCT unitId st c; rewrite Eturn in E;
      try discriminate E; injection E; intros; subst c1.
    exists (exchange_events (addressed unitId c) type_read resp ++ [])%list, [].
    split; [now rewrite app_nil_r |].
    split; [apply scan_trace_skip; [apply type_turn_requests | apply scan_trace_nil]
           | discriminate].
  - clear. intros unitId rest st c st1 c1 r c2 E _ (evs & new & Hlog & Htrace & Hdev).
    scan_turn settings maxCT unitId st c; rewrite Eturn in E;
      try discriminate E; injection E; intros; subst st1 c1.
    + exists ((exchange_events (addressed unitId c) type_read resp
               ++ exchange_events
                    (after_exchange (addressed unitId c) type_read resp h1)
                    name_read resp2) ++ evs)%list,
             (buildDeviceEntry settings unitId typeId modelConfig (name_or_empty resp2)
              :: new).
      cbn [after_exchange addressed client_log client_unitId scan_devices] in *.
      split; [rewrite Hlog, <- !app_assoc; reflexivity |].
      split; [apply scan_trace_found;
              [apply named_turn_requests | assumption | assumption] |].
      intros e st' Er. rewrite (Hdev e st' Er), <- app_assoc. reflexivity.
    + exists (exchange_events (addressed unitId c) type_read resp ++ evs)%list, new.
      cbn [after_exchange addressed client_log client_unitId scan_devices] in *.
      split; [rewrite Hlog, <- !app_assoc; reflexivity |].
      split; [apply scan_trace_skip; [apply type_turn_requests | assumption]
             | exact Hdev].
    + exists (exchange_events (addressed unitId c) type_read resp ++ evs)%list, new.
      cbn [after_exchange addressed client_log client_unitId scan_devices] in *.
      split; [rewrite Hlog, <- !app_assoc; reflexivity |].
      split; [apply scan_trace_skip; [apply type_turn_requests | assumption]
             | exact Hdev].
  - exists r, c', evs, new. auto.
Qed.

(** The first event of a turn is the type read of its unit id, and the
    turn reads no other type. *)
Lemma scan_unit_first_event (settings : PowerTagSettings) (maxCT unitId : Z)
      (st : ScanState) (c : Client G) :
  exists tail,
    new_events (scan_unit settings maxCT unitId st) c
    = Issued unitId type_read (handle (client_handler c) unitId type_read).1 :: tail
    /\ type_read_units (requests_of tail) = []
    /\ forall u resp, Issued u type_read resp ∉ tail.
Proof.
  destruct (exchange_events_first
              (addressed unitId c) type_read
              (handle (client_handler c) unitId type_read).1)
    as (waits & Ewaits & Hwaits & Hnone).
  scan_turn settings maxCT unitId st c; cbn [fst] in *;
    [exists (waits ++ exchange_events
                        (after_exchange (addressed unitId c) type_read resp h1)
                        name_read resp2)%list
    | exists waits | exists waits | exists waits];
    (split; [apply new_events_app; rewrite Eturn;
             cbn [snd after_exchange client_log addressed client_unitId];
             rewrite ?Ewaits, <- ?app_assoc; reflexivity |]).
  - split.
    + now rewrite requests_of_app, Hwaits, requests_of_exchange.
    + intros u r Hin. apply elem_of_app in Hin as [Hin | Hin];
        [now apply Hnone in Hin |].
      destruct (exchange_events_first
                  (after_exchange (addressed unitId c) type_read resp h1)
                  name_read resp2) as (waits2 & E2 & _ & Hnone2).
      rewrite E2 in Hin. apply elem_of_cons in Hin as [Hin | Hin];
        [discriminate Hin | now apply Hnone2 in Hin].
  - split; [now rewrite Hwaits | intros u r Hin; now apply Hnone in Hin].
  - split; [now rewrite Hwaits | intros u r Hin; now apply Hnone in Hin].
  - split; [now rewrite Hwaits | intros u r Hin; now apply Hnone in Hin].
Qed.

(** The events of a loop are those of its first turn, then those of the
    rest of the loop if the turn goes on. *)
Lemma scan_loop_events (settings : PowerTagSettings) (maxCT unitId : Z)
      (rest : list Z) (st : ScanState) (c : Client G) :
  new_events (scan_loop settings maxCT (unitId :: rest) st) c
  = (new_events (scan_unit settings maxCT unitId st) c
     ++ match scan_unit settings maxCT unitId st c with
        | (Ok (Continue, st1), c1) => new_events (scan_loop settings maxCT rest st1) c1
        | _ => []
        end)%list.
Proof.
  cbn [scan_loop]. rewrite new_events_bind.
  - f_equal.
    destruct (scan_unit settings maxCT unitId st c) as [[[[|] st1]| |] c1];
      cbn [fst snd]; try reflexivity.
    apply new_events_ret.
  - apply proper_scan_unit.
  - intros [[|] st']; [apply proper_scan_loop | apply proper_ret].
Qed.

End RangeScan.

(** ** The scan when every type read is rejected *)

Section RejectedScan.
Context {G : Type} `{Gateway G} `{JsNumber} `{PowerTagRegistry}.

(** With the counter below the threshold, a scan whose type reads are
    all rejected reads the type of the first [maxCT - counter] unit ids
    and of no other, and completes. *)
Lemma scan_loop_rejected (settings : PowerTagSettings) (maxCT : Z)
      (unitIds : list Z) (st : ScanState) (c : Client G) :
  consecutiveTimeouts st < maxCT ->
  (forall unitId resp,
      Issued unitId type_read resp ∈ new_events (scan_loop settings maxCT unitIds st) c ->
      resp = Rejected) ->
  exists e st' c' evs,
    scan_loop settings maxCT unitIds st c = (Ok (e, st'), c')
    /\ scan_devices st' = scan_devices st
    /\ client_log c' = (client_log c ++ evs)%list
    /\ requests_of evs
       = map (fun unitId => (unitId, type_read))
             (take (Z.to_nat (maxCT - consecutiveTimeouts st)) unitIds).
Proof.
  revert st c. induction unitIds as [|unitId rest IH]; intros st c Hlt Hrej.
  - exists Continue, st, c, []. rewrite take_nil. simpl. now rewrite app_nil_r.
  - rewrite scan_loop_events in Hrej.
    destruct (scan_unit_first_event settings maxCT unitId st c) as (tail & Efirst & _).
    assert (Hresp : (handle (client_handler c) unitId type_read).1 = Rejected).
    { apply (Hrej unitId). rewrite Efirst. apply elem_of_app. left. left. }
    pose proof (scan_unit_run settings maxCT unitId st c) as Eturn.
    destruct (handle (client_handler c) unitId type_read) as [resp h1].
    cbn [fst] in Hresp. subst resp. cbv zeta in Eturn. cbn [deviceType_of] in Eturn.
    rewrite Eturn in Hrej.
    cbn [scan_loop]. rewrite bind_run, Eturn.
    replace (Z.to_nat (maxCT - consecutiveTimeouts st))
      with (S (Z.to_nat (maxCT - (consecutiveTimeouts st + 1)))) by lia.
    cbn [take map].
    case_bool_decide as Hge.
    + eexists _, _, _, _. split; [reflexivity |]. split; [reflexivity |].
      split; [reflexivity |].
      replace (Z.to_nat (maxCT - (consecutiveTimeouts st + 1))) with 0%nat by lia.
      rewrite take_0. apply type_turn_requests.
    + destruct (IH {| consecutiveTimeouts := consecutiveTimeouts st + 1;
                      scan_devices := scan_devices st |}
                   (after_exchange (addressed unitId c) type_read Rejected h1))
        as (e & st' & c' & evs & E2 & Hdev & Hlog & Hreq); [simpl; lia | |].
      { intros u resp Hin. apply (Hrej u). apply elem_of_app. now right. }
      exists e, st', c',
             (exchange_events (addressed unitId c) type_read Rejected ++ evs)%list.
      split; [exact E2 |]. split; [exact Hdev |].
      split.
      * rewrite Hlog. cbn [after_exchange addressed client_log client_unitId].
        now rewrite <- app_assoc.
      * rewrite requests_of_app, type_turn_requests, Hreq. reflexivity.
Qed.

Lemma scanUnitRange_rejected (settings : PowerTagSettings) (startId endId maxCT : Z)
      (c : Client G) :
  0 < maxCT ->
  (forall unitId resp,
      Issued unitId type_read resp
        ∈ new_events (scanUnitRange settings startId endId maxCT) c ->
      resp = Rejected) ->
  issued_by (scanUnitRange settings startId endId maxCT) c
  = map (fun unitId => (unitId, type_read))
        (take (Z.to_nat maxCT) (seqZ startId (endId - startId)))
  /\ (scanUnitRange settings startId endId maxCT c).1 = Ok [].
Proof.
  intros Hpos Hrej. rewrite scanUnitRange_events in Hrej.
  destruct (scan_loop_rejected settings maxCT (seqZ startId (endId - startId))
              {| consecutiveTimeouts := 0; scan_devices := [] |} c)
    as (e & st' & c' & evs & E & Hdev & Hlog & Hreq); [simpl; lia | exact Hrej |].
  unfold issued_by. rewrite scanUnitRange_events.
  rewrite scanUnitRange_run, E. cbn [fst]. rewrite Hdev. cbn [scan_devices].
  split; [| reflexivity].
  rewrite (new_events_app _ _ _ (eq_trans (f_equal (fun r => client_log r.2) E) Hlog)).
  rewrite Hreq. cbn [consecutiveTimeouts]. now rewrite Z.sub_0_r.
Qed.

End RejectedScan.

(** Settles what an event of a short, explicit log can be. *)
Ltac log_cases Hin :=
  repeat (apply elem_of_cons in Hin as [Hin | Hin];
          [try discriminate Hin; try congruence |]);
  try (now apply elem_of_nil in Hin).

(** C3, as the code has it. When every device-type read that
    [scanUnitRange] with threshold 3 issues is rejected, it reads the
    device type of the first three unit ids of the range and of nothing
    else, or of every unit id of the range when it holds fewer than
    three: it issues min(3, endId - startId) requests (none for an empty
    range), and exactly 3 whenever the range holds at least three unit
    ids; and it returns, with no device. *)
Theorem scanUnitRange_threshold_3 {G : Type} `{Gateway G} `{JsNumber} `{PowerTagRegistry}
        (settings : PowerTagSettings) (startId endId : Z) (c : Client G) :
  (forall (unitId : Z) (resp : Response),
      Issued unitId type_read resp
        ∈ new_events (scanUnitRange settings startId endId 3) c ->
      resp = Rejected) ->
  issued_by (scanUnitRange settings startId endId 3) c
  = map (fun unitId => (unitId, type_read)) (take 3 (seqZ startId (endId - startId)))
  /\ length (issued_by (scanUnitRange settings startId endId 3) c)
     = Z.to_nat (Z.min 3 (Z.max 0 (endId - startId)))
  /\ (3 <= endId - startId ->
      length (issued_by (scanUnitRange settings startId endId 3) c) = 3%nat)
  /\ (scanUnitRange settings startId endId 3 c).1 = Ok [].
Proof.
  intros Hrej.
  destruct (scanUnitRange_rejected settings startId endId 3 c) as [E Hret];
    [lia | exact Hrej |].
  change (Z.to_nat 3) with 3%nat in E.
  assert (L : length (issued_by (scanUnitRange settings startId endId 3) c)
              = Z.to_nat (Z.min 3 (Z.max 0 (endId - startId)))).
  { rewrite E, length_map, length_take, length_seqZ. lia. }
  split; [exact E |]. split; [exact L |].
  split; [| exact Hret].
  intros Hge. rewrite L. lia.
Qed.

Lemma scanUnitRange_threshold_3_witness :
  issued_by (scanUnitRange example_settings 100 150 3) (newClient dead)
  = [(100, type_read); (101, type_read); (102, type_read)].
Proof.
  destruct (scanUnitRange_threshold_3 example_settings 100 150 (newClient dead))
    as (E & _); [| exact E].
  intros unitId resp Hin.
  assert (Elog : new_events (scanUnitRange example_settings 100 150 3) (newClient dead)
                 = rejected_type_reads [100; 101; 102]) by (vm_compute; reflexivity).
  rewrite Elog in Hin. cbn in Hin. log_cases Hin.
Defined.

(** The range 100..101 holds two unit ids, and two requests are issued. *)
Lemma scanUnitRange_short_range_counterexample :
  (forall (unitId : Z) (resp : Response),
      Issued unitId type_read resp
        ∈ new_events (scanUnitRange example_settings 100 102 3) (newClient dead) ->
      resp = Rejected)
  /\ issued_by (scanUnitRange example_settings 100 102 3) (newClient dead)
     = [(100, type_read); (101, type_read)]
  /\ length (issued_by (scanUnitRange example_settings 100 102 3) (newClient dead))
     <> 3%nat.
Proof.
  split.
  { intros unitId resp Hin.
    assert (Elog : new_events (scanUnitRange example_settings 100 102 3) (newClient dead)
                   = rejected_type_reads [100; 101]) by (vm_compute; reflexivity).
    rewrite Elog in Hin. cbn in Hin. log_cases Hin. }
  split; [reflexivity |]. vm_compute. discriminate.
Qed.

(** ** The consecutive-timeout counter *)

Section Counter.
Context {G : Type} `{Gateway G} `{JsNumber} `{PowerTagRegistry}.

Lemma trailing_failures_turn (pre : list Event) (c : Client G) (resp : Response) :
  trailing_failures (pre ++ exchange_events c type_read resp)
  = if is_Ok (deviceType_of resp) then 0%nat else S (trailing_failures pre).
Proof.
  unfold trailing_failures, exchange_events. rewrite reverse_app.
  destruct (call_throws (client_handler c) (client_unitId c)); cbn;
    now destruct (is_Ok (deviceType_of resp)).
Qed.

Lemma trailing_failures_name (pre : list Event) (c : Client G) (resp : Response) :
  trailing_failures (pre ++ exchange_events c name_read resp) = 0%nat.
Proof.
  unfold trailing_failures, exchange_events. rewrite reverse_app.
  now destruct (call_throws (client_handler c) (client_unitId c)).
Qed.

Lemma scan_loop_counter (settings : PowerTagSettings) (maxCT : Z)
      (unitIds : list Z) (st : ScanState) (c : Client G)
      (e : LoopExit) (st' : ScanState) (c' : Client G) :
  scan_loop settings maxCT unitIds st c = (Ok (e, st'), c') ->
  counter_tracks_log maxCT st c e st' c'.
Proof.
  destruct (scan_loop_run settings maxCT
              (fun _ st c r c' =>
                 forall e st', r = Ok (e, st') -> counter_tracks_log maxCT st c e st' c'))
    with (unitIds := unitIds) (st := st) (c := c) as (r & c0 & E0 & _ & HP).
  - clear. intros st c e st' [= <- <-]. split; [discriminate |]. exists [].
    split; [now rewrite app_nil_r |]. intros pre Hpre. now rewrite app_nil_r.
  - clear. intros unitId rest st c st1 c1 E e st' [= <- <-].
    scan_turn settings maxCT unitId st c; rewrite Eturn in E;
      try discriminate E; injection E; intros; subst st1 c1.
    split.
    + intros _. cbn [consecutiveTimeouts].
      destruct (bool_decide (consecutiveTimeouts st + 1 >= maxCT)) eqn:Hb;
        [| discriminate].
      apply bool_decide_eq_true in Hb. lia.
    + exists (exchange_events (addressed unitId c) type_read resp).
      split; [reflexivity |]. intros pre Hpre.
      rewrite trailing_failures_turn, Etype. cbn [is_Ok consecutiveTimeouts]. lia.
  - clear. intros unitId rest st c c1 _ e st'. discriminate.
  - clear. intros unitId rest st c st1 c1 r c2 E _ HP e st2 Er.
    destruct (HP e st2 Er) as (Hbreak & evs & Hlog & Htrack).
    scan_turn settings maxCT unitId st c; rewrite Eturn in E;
      try discriminate E; injection E; intros; subst st1 c1;
      cbn [consecutiveTimeouts] in Hbreak;
      (split; [intros Hb; destruct (Hbreak Hb) as [Hmax Hone];
               split; [exact Hmax | intros Hnn; apply Hone; lia] |]).
    + exists (exchange_events (addressed unitId c) type_read resp
              ++ exchange_events
                   (after_exchange (addressed unitId c) type_read resp h1)
                   name_read resp2 ++ evs)%list.
      split; [rewrite Hlog; cbn; now rewrite <- !app_assoc |].
      intros pre Hpre. rewrite !app_assoc. apply Htrack.
      now rewrite trailing_failures_name.
    + exists (exchange_events (addressed unitId c) type_read resp ++ evs)%list.
      split; [rewrite Hlog; cbn; now rewrite <- !app_assoc |].
      intros pre Hpre. rewrite !app_assoc. apply Htrack.
      rewrite trailing_failures_turn, Etype. reflexivity.
    + exists (exchange_events (addressed unitId c) type_read resp ++ evs)%list.
      split; [rewrite Hlog; cbn; now rewrite <- !app_assoc |].
      intros pre Hpre. rewrite !app_assoc. apply Htrack.
      rewrite trailing_failures_turn, Etype. cbn [is_Ok consecutiveTimeouts]. lia.
  - intros E. rewrite E in E0. injection E0 as <- <-. now apply HP.
Qed.

End Counter.

(** C9. In a turn of [scanUnitRange] whose device-type read yields a
    value, whatever the value, the loop goes on with the counter at 0; in
    a turn whose read fails the counter grows by one and the loop is left
    exactly when the counter has reached the threshold. Over a whole scan
    the counter is therefore the number of failed type reads that end the
    scan's log with no other exchange between them, and a scan that stops
    early has at least one and at least [maxConsecutiveTimeouts] of them
    at the end of its log. *)
Theorem scan_counter_resets {G : Type} `{Gateway G} `{JsNumber} `{PowerTagRegistry}
        (settings : PowerTagSettings) (maxCT : Z) :
  (forall unitId st (c : Client G) resp h1 typeId,
      handle (client_handler c) unitId type_read = (resp, h1) ->
      deviceType_of resp = Ok typeId ->
      exists st1 c1,
        scan_unit settings maxCT unitId st c = (Ok (Continue, st1), c1)
        /\ consecutiveTimeouts st1 = 0)
  /\ (forall unitId st (c : Client G) resp h1,
         handle (client_handler c) unitId type_read = (resp, h1) ->
         deviceType_of resp = Err ->
         exists e st1 c1,
           scan_unit settings maxCT unitId st c = (Ok (e, st1), c1)
           /\ consecutiveTimeouts st1 = consecutiveTimeouts st + 1
           /\ (e = Break <-> maxCT <= consecutiveTimeouts st + 1))
  /\ (forall unitIds (c : Client G) e st' c',
         let scan := scan_loop settings maxCT unitIds
                               {| consecutiveTimeouts := 0; scan_devices := [] |} in
         scan c = (Ok (e, st'), c') ->
         Z.of_nat (trailing_failures (new_events scan c)) = consecutiveTimeouts st'
         /\ (e = Break ->
             maxCT <= Z.of_nat (trailing_failures (new_events scan c))
             /\ (1 <= trailing_failures (new_events scan c))%nat)).
Proof.
  split; [| split].
  - intros unitId st c resp h1 typeId Er Et.
    pose proof (scan_unit_run settings maxCT unitId st c) as Eturn.
    rewrite Er in Eturn. cbv zeta in Eturn. rewrite Et in Eturn.
    destruct (scanned_model typeId) as [modelConfig|].
    + destruct (handle h1 unitId name_read) as [resp2 h2].
      eexists _, _. split; [exact Eturn | reflexivity].
    + eexists _, _. split; [exact Eturn | reflexivity].
  - intros unitId st c resp h1 Er Et.
    pose proof (scan_unit_run settings maxCT unitId st c) as Eturn.
    rewrite Er in Eturn. cbv zeta in Eturn. rewrite Et in Eturn.
    eexists _, _, _. split; [exact Eturn |]. split; [reflexivity |].
    case_bool_decide; split; intros; try lia; try discriminate; reflexivity.
  - intros unitIds c e st' c' scan E.
    destruct (scan_loop_counter settings maxCT unitIds
                {| consecutiveTimeouts := 0; scan_devices := [] |} c e st' c' E)
      as (Hbreak & evs & Hlog & Htrack).
    assert (Hev : new_events scan c = evs).
    { apply new_events_app. unfold scan in E |- *. now rewrite E. }
    rewrite Hev.
    specialize (Htrack [] eq_refl). rewrite app_nil_l in Htrack.
    split; [exact Htrack |].
    intros Hb. destruct (Hbreak Hb) as [Hmax Hone].
    cbn [consecutiveTimeouts] in Hone. lia.
Qed.

Lemma scan_counter_resets_witness :
  let scan := scan_loop (G := RegisterGateway) example_settings 10 (seqZ 150 20)
                        {| consecutiveTimeouts := 0; scan_devices := [] |} in
  trailing_failures (new_events scan (newClient energy_gateway)) = 10%nat.
Proof.
  intros scan.
  destruct (scan_loop_ready example_settings 10 (seqZ 150 20)
              {| consecutiveTimeouts := 0; scan_devices := [] |}
              (newClient energy_gateway)) as (e & st' & c' & E & _);
    [reflexivity | now apply Forall_forall; intros u Hu; apply elem_of_seqZ in Hu;
                   apply bool_decide_eq_true; lia |].
  destruct (scan_counter_resets (G := RegisterGateway) example_settings 10)
    as (_ & _ & Hscan).
  destruct (Hscan (seqZ 150 20) (newClient energy_gateway) e st' c' E) as [Hcount _].
  assert (Hten : match (scan (newClient energy_gateway)).1 with
                 | Ok (_, st) => consecutiveTimeouts st
                 | Err | Never => 0
                 end = 10) by (vm_compute; reflexivity).
  unfold scan in Hten. rewrite E in Hten. cbn in Hten.
  fold scan in Hcount. lia.
Defined.

(** ** The Panel-Server address table *)

Section AddressTable.

Lemma JsMap_set_fresh (m : JsMap.t) (k v : Z) :
  k ∉ map fst m -> JsMap.set m k v = (m ++ [(k, v)])%list.
Proof.
  induction m as [|[k' v'] m IH]; intros Hfresh; [reflexivity |].
  cbn [JsMap.set]. case_bool_decide as Hk.
  - exfalso. apply Hfresh. subst k'. left.
  - cbn [app]. f_equal. apply IH. intros Hin. apply Hfresh. now right.
Qed.

Lemma JsMap_get_Some (m : JsMap.t) (k v : Z) :
  NoDup (map fst m) -> JsMap.get m k = Some v <-> (k, v) ∈ m.
Proof.
  induction m as [|[k' v'] m IH]; intros Hnd.
  - split; [discriminate | intros Hin; inversion Hin].
  - cbn [map fst] in Hnd. apply NoDup_cons in Hnd as [Hfresh Hnd].
    cbn [JsMap.get]. case_bool_decide as Hk.
    + subst k'. split.
      * intros [= ->]. left.
      * intros Hin. apply elem_of_cons in Hin as [[= ->] | Hin]; [reflexivity |].
        exfalso. apply Hfresh.
        apply list_elem_of_In, in_map_iff. exists (k, v).
        split; [reflexivity | now apply list_elem_of_In].
    + rewrite (IH Hnd). split.
      * intros Hin. now right.
      * intros Hin. apply elem_of_cons in Hin as [[= -> ->] | Hin];
          [contradiction | exact Hin].
Qed.

Lemma table_entries_cons (chunks : list (list byte)) (slot : Z) (rest : list Z) :
  table_entries chunks (slot :: rest)
  = match slot_unitId chunks slot with
    | Ok unitId =>
        if occupied unitId
        then (slot, unitId) :: table_entries chunks rest
        else table_entries chunks rest
    | Err | Never => table_entries chunks rest
    end.
Proof.
  unfold table_entries. simpl.
  destruct (slot_unitId chunks slot) as [unitId| |]; [| reflexivity ..].
  now destruct (occupied unitId).
Qed.

Lemma table_entries_slots (chunks : list (list byte)) (slots : list Z) :
  map fst (table_entries chunks slots) `sublist_of` slots.
Proof.
  induction slots as [|slot rest IH]; [constructor |].
  rewrite table_entries_cons.
  destruct (slot_unitId chunks slot) as [unitId| |]; [| apply sublist_cons, IH ..].
  destruct (occupied unitId);
    [cbn [map fst]; apply sublist_skip, IH | apply sublist_cons, IH].
Qed.

Lemma table_entries_elem (chunks : list (list byte)) (slots : list Z) (slot unitId : Z) :
  (slot, unitId) ∈ table_entries chunks slots
  <-> slot ∈ slots /\ slot_unitId chunks slot = Ok unitId /\ occupied unitId = true.
Proof.
  unfold table_entries. rewrite list_elem_of_omap. split.
  - intros (s & Hs & Hsome).
    destruct (slot_unitId chunks s) as [u| |] eqn:Eu; [| discriminate ..].
    destruct (occupied u) eqn:Eo; [| discriminate].
    injection Hsome as <- <-. auto.
  - intros (Hs & Eu & Eo). exists slot. split; [exact Hs |].
    now rewrite Eu, Eo.
Qed.

(** The slot loop: with distinct slots that the map does not hold yet,
    [Map.set] only ever appends, and the loop fails exactly when a
    [readUInt16BE] is out of range. *)
Lemma addresses_loop_entries (chunks : list (list byte)) (slots : list Z)
      (addresses : JsMap.t) :
  NoDup slots ->
  (forall slot, slot ∈ slots -> slot ∉ map fst addresses) ->
  addresses_loop chunks slots addresses
  = if forallb (fun slot => is_Ok (slot_unitId chunks slot)) slots
    then Ok (addresses ++ table_entries chunks slots)%list
    else Err.
Proof.
  revert addresses. induction slots as [|slot rest IH]; intros addresses Hnd Hfresh.
  - cbn. now rewrite app_nil_r.
  - apply NoDup_cons in Hnd as [Hslot Hnd].
    cbn [addresses_loop forallb]. rewrite table_entries_cons.
    assert (Hsettles : slot_unitId chunks slot <> Never).
    { unfold slot_unitId, Buffer.readUInt16BE.
      destruct (Buffer.at_ chunks _) as [buf|]; [| discriminate].
      destruct (Buffer.at_ buf _); [| discriminate].
      destruct (Buffer.at_ buf _); discriminate. }
    destruct (slot_unitId chunks slot) as [unitId| |] eqn:Eu;
      [| reflexivity | contradiction].
    cbn [is_Ok andb]. fold (occupied unitId).
    destruct (occupied unitId) eqn:Eo.
    + rewrite JsMap_set_fresh by (apply Hfresh; left).
      rewrite IH; [| exact Hnd |].
      * rewrite <- app_assoc. reflexivity.
      * intros s Hs. rewrite map_app. cbn. intros Hin.
        apply elem_of_app in Hin as [Hin | Hin].
        -- apply (Hfresh s); [now right | exact Hin].
        -- apply list_elem_of_singleton in Hin. subst s. contradiction.
    + rewrite IH; [reflexivity | exact Hnd |].
      intros s Hs. apply Hfresh. now right.
Qed.

Lemma occupied_spec (unitId : Z) :
  occupied unitId = true <-> unitId <> 0 /\ unitId <> 65535.
Proof.
  unfold occupied. rewrite andb_true_iff, !bool_decide_eq_true. reflexivity.
Qed.

End AddressTable.

(** ** The two strategies and their composition *)

Section Strategies.
Context {G : Type} `{Gateway G} `{JsNumber} `{PowerTagRegistry}.

Lemma requests_of_Issued (unitId : Z) (rq : Request) (resp : Response) (evs : list Event) :
  requests_of (Issued unitId rq resp :: evs) = (unitId, rq) :: requests_of evs.
Proof. reflexivity. Qed.

Lemma requests_of_Awaited (n : nat) (evs : list Event) :
  requests_of (Awaited n :: evs) = requests_of evs.
Proof. reflexivity. Qed.

Lemma requests_satisfy_app (Q : Z -> Request -> Prop) (evs1 evs2 : list Event) :
  requests_satisfy Q evs1 -> requests_satisfy Q evs2 ->
  requests_satisfy Q (evs1 ++ evs2).
Proof.
  unfold requests_satisfy. rewrite requests_of_app. apply Forall_app_2.
Qed.

Lemma requests_satisfy_impl (Q Q' : Z -> Request -> Prop) (evs : list Event) :
  (forall unitId rq, Q unitId rq -> Q' unitId rq) ->
  requests_satisfy Q evs -> requests_satisfy Q' evs.
Proof.
  intros Himpl Hq. unfold requests_satisfy in *.
  eapply Forall_impl; [exact Hq |]. intros [unitId rq]. apply Himpl.
Qed.

Lemma requests_satisfy_nil (Q : Z -> Request -> Prop) : requests_satisfy Q [].
Proof. constructor. Qed.

Lemma type_read_units_app (evs1 evs2 : list Event) :
  type_read_units (requests_of (evs1 ++ evs2))
  = (type_read_units (requests_of evs1) ++ type_read_units (requests_of evs2))%list.
Proof. unfold type_read_units. now rewrite requests_of_app, omap_app. Qed.

Lemma reference_read_units_app (evs1 evs2 : list Event) :
  reference_read_units (requests_of (evs1 ++ evs2))
  = (reference_read_units (requests_of evs1)
     ++ reference_read_units (requests_of evs2))%list.
Proof. unfold reference_read_units. now rewrite requests_of_app, omap_app. Qed.

Lemma is_Ok_run {A} (m : M G A) (c : Client G) :
  is_Ok (m c).1 = true -> exists a c', m c = (Ok a, c').
Proof. destruct (m c) as [[a| |] c']; [eauto | discriminate ..]. Qed.

Lemma try_catch_Ok {A} (body handler : M G A) (c c' : Client G) (a : A) :
  body c = (Ok a, c') -> try_catch body handler c = (Ok a, c').
Proof. intros E. unfold try_catch. now rewrite E. Qed.

(** *** The table read *)

Lemma settle_all_settles (resps : list Response) :
  Pending ∉ resps -> settle_all resps <> Never.
Proof.
  induction resps as [|p ps IH]; intros Hnp; [discriminate |].
  cbn [settle_all].
  assert (Hp : p <> Pending) by (intros ->; apply Hnp; left).
  assert (Hps : settle_all ps <> Never) by (apply IH; intros Hin; apply Hnp; now right).
  destruct p; [| | contradiction]; cbn [settle];
    destruct (settle_all ps); try discriminate; contradiction.
Qed.

Lemma readPanelServerDeviceAddresses_run (c : Client G) :
  call_throws (client_handler c) (client_unitId c) = false ->
  exists resps c1,
    issue_all address_chunks c = (Ok resps, c1)
    /\ length resps = 4%nat
    /\ client_log c1
       = (client_log c ++ zip_with (Issued (client_unitId c)) address_chunks resps)%list
    /\ socket_destroyed c1 = socket_destroyed c
    /\ readPanelServerDeviceAddresses c
       = (match settle_all resps with
          | Ok chunks =>
              if forallb (fun slot => is_Ok (slot_unitId chunks slot)) (seqZ 1 99)
              then Ok (table_entries chunks (seqZ 1 99))
              else Err
          | Err => Err
          | Never => Never
          end,
          write_log (Awaited 4) c1).
Proof.
  intros Hn.
  destruct (issue_all_spec address_chunks c Hn) as (resps & c1 & E1 & E2 & E3 & E4 & E5).
  exists resps, c1. repeat split; try assumption.
  unfold readPanelServerDeviceAddresses. rewrite bind_run.
  unfold await_all. rewrite bind_run, E1, E2. cbn [length address_chunks].
  destruct (settle_all resps) as [chunks| |]; [| reflexivity ..].
  unfold lift. f_equal.
  rewrite addresses_loop_entries; [reflexivity | apply NoDup_seqZ |].
  intros slot _ Hin. inversion Hin.
Qed.

(** The table read whose first call throws fails there. *)
Lemma readPanelServerDeviceAddresses_thrown (c : Client G) :
  call_throws (client_handler c) (client_unitId c) = true ->
  (readPanelServerDeviceAddresses c).1 = Err
  /\ issued_by readPanelServerDeviceAddresses c
     = [(client_unitId c, ReadHoldingRegisters REG_PAS_DEVICE_ADDRESS 125)].
Proof.
  intros Ht.
  apply (poll_issues_first (ReadHoldingRegisters REG_PAS_DEVICE_ADDRESS 125)
           (tail address_chunks)
           (fun chunks => addresses_loop chunks (seqZ 1 99) [])); [| exact Ht].
  apply (await_all_then_decode address_chunks).
Qed.

Lemma readPanelServerDeviceAddresses_returned (c : Client G) :
  (readPanelServerDeviceAddresses c).1 <> Err ->
  call_throws (client_handler c) (client_unitId c) = false.
Proof.
  intros Hne. destruct (call_throws (client_handler c) (client_unitId c)) eqn:Ht;
    [| reflexivity].
  now apply readPanelServerDeviceAddresses_thrown in Ht as [Herr _].
Qed.

(** What the address map holds, in terms of the chunk bodies read. *)
Lemma readPanelServerDeviceAddresses_entries (c : Client G) (addressMap : JsMap.t) :
  (readPanelServerDeviceAddresses c).1 = Ok addressMap ->
  exists resps chunks,
    (issue_all address_chunks c).1 = Ok resps
    /\ settle_all resps = Ok chunks
    /\ addressMap = table_entries chunks (seqZ 1 99).
Proof.
  intros E.
  assert (Hn : call_throws (client_handler c) (client_unitId c) = false)
    by (apply readPanelServerDeviceAddresses_returned; now rewrite E).
  destruct (readPanelServerDeviceAddresses_run c Hn)
    as (resps & c1 & E1 & _ & _ & _ & E2).
  rewrite E2 in E. cbn [fst] in E.
  destruct (settle_all resps) as [chunks| |] eqn:Es; [| discriminate E ..].
  destruct (forallb _ _); [| discriminate E].
  apply Ok_inj in E.
  exists resps, chunks. rewrite E1.
  split; [reflexivity | split; [exact Es | now symmetry]].
Qed.

Lemma readPanelServerDeviceAddresses_issued (c : Client G) :
  call_throws (client_handler c) (client_unitId c) = false ->
  issued_by readPanelServerDeviceAddresses c
  = map (fun rq => (client_unitId c, rq)) address_chunks.
Proof.
  apply (poll_issues_blocks address_chunks
           (fun chunks => addresses_loop chunks (seqZ 1 99) [])).
  apply await_all_then_decode.
Qed.

Lemma table_read_events (c : Client G) :
  call_throws (client_handler c) (client_unitId c) = false ->
  exists evs,
    client_log (readPanelServerDeviceAddresses c).2 = (client_log c ++ evs)%list
    /\ requests_of evs = map (fun rq => (client_unitId c, rq)) address_chunks.
Proof.
  intros Hn. exists (new_events readPanelServerDeviceAddresses c).
  split; [apply proper_log, proper_readPanelServerDeviceAddresses |].
  now apply readPanelServerDeviceAddresses_issued.
Qed.

(** With the handler ready and a unit id that fits, the table read
    settles and leaves the handler ready. *)
Lemma table_read_ready (c : Client G) :
  handler_stalled (client_handler c) = false ->
  fits_in_byte (client_unitId c) = true ->
  (readPanelServerDeviceAddresses c).1 <> Never
  /\ handler_stalled (client_handler (readPanelServerDeviceAddresses c).2) = false.
Proof.
  intros Hs Hf.
  destruct (issue_all_ready address_chunks c Hs Hf) as (resps & c1 & E1 & Hnp & Hs1).
  destruct (readPanelServerDeviceAddresses_run c (call_throws_fits _ _ Hf))
    as (resps' & c1' & E1' & _ & _ & _ & E).
  rewrite E1 in E1'. injection E1' as <- <-.
  rewrite E. cbn [fst snd write_log client_handler].
  split; [| exact Hs1].
  pose proof (settle_all_settles resps Hnp) as Hset.
  destruct (settle_all resps) as [chunks| |]; [| discriminate | contradiction].
  destruct (forallb _ _); discriminate.
Qed.

(** A table read that settles was handed to a handler that was ready. *)
Lemma table_read_settled (c : Client G) :
  (readPanelServerDeviceAddresses c).1 <> Never ->
  handler_stalled (client_handler c) = false.
Proof.
  intros Hset. destruct (handler_stalled (client_handler c)) eqn:Hs; [| reflexivity].
  exfalso. apply Hset.
  destruct (readPanelServerDeviceAddresses_run c (call_throws_stalled _ _ Hs))
    as (resps & c1 & E1 & _ & _ & _ & E).
  pose proof (issue_all_stalled address_chunks c Hs) as Hp.
  rewrite E1 in Hp. cbn [fst] in Hp. apply Ok_inj in Hp. subst resps.
  rewrite E. reflexivity.
Qed.

Lemma byteZ_range (b : byte) : 0 <= Buffer.byteZ b < 256.
Proof.
  unfold Buffer.byteZ. pose proof (Byte.to_N_bounded b). lia.
Qed.

Lemma readUInt16BE_range (buf : list byte) (offset v : Z) :
  Buffer.readUInt16BE buf offset = Ok v -> 0 <= v < 65536.
Proof.
  unfold Buffer.readUInt16BE.
  destruct (Buffer.at_ buf offset) as [hi|]; [| discriminate].
  destruct (Buffer.at_ buf (offset + 1)) as [lo|]; [| discriminate].
  intros E. apply Ok_inj in E. subst v.
  pose proof (byteZ_range hi). pose proof (byteZ_range lo). lia.
Qed.

Lemma slot_unitId_range (chunks : list (list byte)) (slot v : Z) :
  slot_unitId chunks slot = Ok v -> 0 <= v < 65536.
Proof.
  unfold slot_unitId.
  destruct (Buffer.at_ chunks _) as [buf|]; [| discriminate].
  apply readUInt16BE_range.
Qed.

Lemma elem_of_map_sublist {A} (f : A -> Z) (l : list A) (k : list Z) (x : A) :
  x ∈ l -> map f l `sublist_of` k -> f x ∈ k.
Proof.
  intros Hx Hsub. eapply elem_of_sublist; [| exact Hsub].
  apply list_elem_of_In, in_map, list_elem_of_In, Hx.
Qed.

Lemma elem_of_map_snd (m : JsMap.t) (unitId : Z) :
  unitId ∈ map snd m -> exists slot, (slot, unitId) ∈ m.
Proof.
  intros Hin. apply list_elem_of_In, in_map_iff in Hin as [[slot u] [Hu Hin]].
  simpl in Hu. subst u. exists slot. now apply list_elem_of_In.
Qed.

(** The unit ids of an address map lie strictly between 0 and 65535. *)
Lemma table_entries_units (chunks : list (list byte)) (slots : list Z) (unitId : Z) :
  unitId ∈ map snd (table_entries chunks slots) -> 1 <= unitId <= 65534.
Proof.
  intros Hin. apply elem_of_map_snd in Hin as [slot Hin].
  apply table_entries_elem in Hin as (_ & Eu & Ho).
  apply slot_unitId_range in Eu. apply occupied_spec in Ho. lia.
Qed.

Lemma address_map_units (c : Client G) (addressMap : JsMap.t) (unitId : Z) :
  (readPanelServerDeviceAddresses c).1 = Ok addressMap ->
  unitId ∈ map snd addressMap -> 1 <= unitId <= 65534.
Proof.
  intros E Hin.
  apply readPanelServerDeviceAddresses_entries in E as (resps & chunks & _ & _ & ->).
  now apply table_entries_units in Hin.
Qed.

Lemma address_map_size (c : Client G) (addressMap : JsMap.t) :
  (readPanelServerDeviceAddresses c).1 = Ok addressMap ->
  (length addressMap <= 99)%nat /\ NoDup (map fst addressMap).
Proof.
  intros E.
  apply readPanelServerDeviceAddresses_entries in E as (resps & chunks & _ & _ & ->).
  split.
  - rewrite <- (length_map fst).
    etransitivity; [apply sublist_length, table_entries_slots |].
    now rewrite length_seqZ.
  - eapply sublist_NoDup; [apply NoDup_seqZ | apply table_entries_slots].
Qed.

(** *** The slot loop *)

Lemma reference_read_units_turn (unitId : Z) (rqs : list (Z * Request)) :
  reference_read_units ((unitId, reference_read) :: rqs)
  = unitId :: reference_read_units rqs.
Proof. reflexivity. Qed.

Lemma reference_read_units_name (unitId : Z) (rqs : list (Z * Request)) :
  reference_read_units ((unitId, name_read) :: rqs) = reference_read_units rqs.
Proof. reflexivity. Qed.

Lemma type_read_units_reference (unitId : Z) (rqs : list (Z * Request)) :
  type_read_units ((unitId, reference_read) :: rqs) = type_read_units rqs.
Proof. reflexivity. Qed.

Lemma reference_turn_requests (unitId : Z) (c : Client G) (resp : Response) :
  requests_of (exchange_events (addressed unitId c) reference_read resp)
  = [(unitId, reference_read)].
Proof. now rewrite requests_of_exchange. Qed.

Lemma panel_trace_nil (settings : PowerTagSettings) (addressMap : JsMap.t) :
  panel_trace settings addressMap [] [].
Proof.
  unfold panel_trace, requests_satisfy. cbn.
  repeat split; try constructor; try apply sublist_nil_l; try apply prefix_nil; lia.
Qed.

Lemma panel_trace_skip (settings : PowerTagSettings) (slot unitId : Z) (rest : JsMap.t)
      (turn evs : list Event) (new : list DeviceEntry) :
  requests_of turn = [(unitId, reference_read)] ->
  panel_trace settings rest evs new ->
  panel_trace settings ((slot, unitId) :: rest) (turn ++ evs) new.
Proof.
  intros Hturn (Hreq & Hrefs & Htypes & Hlen & Hnew & Hsub & Hbuilt).
  unfold panel_trace, requests_satisfy in *.
  rewrite requests_of_app, Hturn. cbn [app].
  rewrite reference_read_units_turn, type_read_units_reference.
  cbn [map snd].
  split.
  { constructor; [cbn; split; [left | now left] |].
    eapply Forall_impl; [exact Hreq |]. cbn. intros rq [Hin Hrq].
    split; [now right | exact Hrq]. }
  split; [now apply prefix_cons |].
  split; [exact Htypes |].
  split; [cbn [length]; lia |].
  split; [cbn [length]; lia |].
  split; [apply sublist_cons, Hsub | exact Hbuilt].
Qed.

Lemma panel_trace_found (settings : PowerTagSettings) (slot unitId : Z) (rest : JsMap.t)
      (turn : list Event) (typeId : Z) (modelConfig : PowerTagModelConfig)
      (deviceName : string) (evs : list Event) (new : list DeviceEntry) :
  requests_of turn = [(unitId, reference_read); (unitId, name_read)] ->
  panel_trace settings rest evs new ->
  panel_trace settings ((slot, unitId) :: rest) (turn ++ evs)
              (buildDeviceEntry settings unitId typeId modelConfig deviceName :: new).
Proof.
  intros Hturn (Hreq & Hrefs & Htypes & Hlen & Hnew & Hsub & Hbuilt).
  unfold panel_trace, requests_satisfy in *.
  rewrite requests_of_app, Hturn. cbn [app].
  rewrite reference_read_units_turn, reference_read_units_name,
    type_read_units_reference, type_read_units_name.
  cbn [map snd].
  split.
  { constructor; [cbn; split; [left | now left] |].
    constructor; [cbn; split; [left | now right] |].
    eapply Forall_impl; [exact Hreq |]. cbn. intros rq [Hin Hrq].
    split; [now right | exact Hrq]. }
  split; [now apply prefix_cons |].
  split; [exact Htypes |].
  split; [cbn [length]; lia |].
  split; [cbn [length]; lia |].
  split; [apply sublist_skip, Hsub |].
  constructor; [apply built_entry_build | exact Hbuilt].
Qed.

(** A turn of the slot loop never raises. *)
Lemma panel_slot_never_raises (settings : PowerTagSettings) (slot unitId : Z)
      (devices : list DeviceEntry) (c : Client G) :
  (panel_slot settings slot unitId devices c).1 <> Err.
Proof. panel_turn settings slot unitId devices c; rewrite Eturn; discriminate. Qed.

(** What a run of the slot loop does, whether or not it completes; a run
    that completes has read the reference of every entry of the map. *)
Lemma panel_loop_trace (settings : PowerTagSettings) (addressMap : JsMap.t)
      (devices : list DeviceEntry) (c : Client G) :
  exists r c' evs new,
    panel_loop settings addressMap devices c = (r, c')
    /\ r <> Err
    /\ client_log c' = (client_log c ++ evs)%list
    /\ panel_trace settings addressMap evs new
    /\ forall devices',
        r = Ok devices' ->
        devices' = (devices ++ new)%list
        /\ reference_read_units (requests_of evs) = map snd addressMap.
Proof.
  revert devices c. induction addressMap as [|[slot unitId] rest IH]; intros devices c.
  - exists (Ok devices), c, [], []. rewrite !app_nil_r.
    split; [reflexivity |]. split; [discriminate |]. split; [reflexivity |].
    split; [apply panel_trace_nil |].
    intros devices' [= <-]. split; reflexivity.
  - cbn [panel_loop]. rewrite bind_run.
    panel_turn settings slot unitId devices c; rewrite Eturn.
    + destruct (IH (devices ++
                    [buildDeviceEntry settings unitId (mc_typeId modelConfig)
                                      modelConfig (name_or_empty resp2)])%list
                   (after_exchange
                      (after_exchange (addressed unitId c) reference_read resp h1)
                      name_read resp2 h2))
        as (r & c2 & evs & new & E2 & Hr & Hlog & Htrace & Hok).
      exists r, c2,
        ((exchange_events (addressed unitId c) reference_read resp
          ++ exchange_events
               (after_exchange (addressed unitId c) reference_read resp h1)
               name_read resp2) ++ evs)%list,
        (buildDeviceEntry settings unitId (mc_typeId modelConfig) modelConfig
                          (name_or_empty resp2) :: new).
      cbn [after_exchange addressed client_log client_unitId] in Hlog.
      split; [exact E2 |]. split; [exact Hr |].
      split; [rewrite Hlog, <- !app_assoc; reflexivity |].
      split; [apply panel_trace_found; [apply named_turn_requests | exact Htrace] |].
      intros devices' Er. destruct (Hok devices' Er) as [Hdev Hrefs].
      rewrite requests_of_app, named_turn_requests. cbn [app].
      rewrite reference_read_units_turn, reference_read_units_name, Hrefs, Hdev.
      split; [now rewrite <- app_assoc | reflexivity].
    + destruct (IH devices (after_exchange (addressed unitId c) reference_read resp h1))
        as (r & c2 & evs & new & E2 & Hr & Hlog & Htrace & Hok).
      exists r, c2,
        (exchange_events (addressed unitId c) reference_read resp ++ evs)%list, new.
      cbn [after_exchange addressed client_log client_unitId] in Hlog.
      split; [exact E2 |]. split; [exact Hr |].
      split; [rewrite Hlog, <- !app_assoc; reflexivity |].
      split; [apply panel_trace_skip; [apply reference_turn_requests | exact Htrace] |].
      intros devices' Er. destruct (Hok devices' Er) as [Hdev Hrefs].
      rewrite requests_of_app, reference_turn_requests. cbn [app].
      rewrite reference_read_units_turn, Hrefs. split; [exact Hdev | reflexivity].
    + destruct (IH devices (after_exchange (addressed unitId c) reference_read resp h1))
        as (r & c2 & evs & new & E2 & Hr & Hlog & Htrace & Hok).
      exists r, c2,
        (exchange_events (addressed unitId c) reference_read resp ++ evs)%list, new.
      cbn [after_exchange addressed client_log client_unitId] in Hlog.
      split; [exact E2 |]. split; [exact Hr |].
      split; [rewrite Hlog, <- !app_assoc; reflexivity |].
      split; [apply panel_trace_skip; [apply reference_turn_requests | exact Htrace] |].
      intros devices' Er. destruct (Hok devices' Er) as [Hdev Hrefs].
      rewrite requests_of_app, reference_turn_requests. cbn [app].
      rewrite reference_read_units_turn, Hrefs. split; [exact Hdev | reflexivity].
    + exists Never, (after_exchange (addressed unitId c) reference_read resp h1),
        (exchange_events (addressed unitId c) reference_read resp ++ [])%list, [].
      split; [reflexivity |]. split; [discriminate |].
      split; [now rewrite app_nil_r |].
      split; [apply panel_trace_skip;
              [apply reference_turn_requests | apply panel_trace_nil]
             | discriminate].
Qed.

(** A turn for a unit id that fits in the frame, with the handler ready,
    completes and leaves the handler ready. *)
Lemma panel_slot_ready (settings : PowerTagSettings) (slot unitId : Z)
      (devices : list DeviceEntry) (c : Client G) :
  handler_stalled (client_handler c) = false ->
  fits_in_byte unitId = true ->
  exists devices' c',
    panel_slot settings slot unitId devices c = (Ok devices', c')
    /\ handler_stalled (client_handler c') = false.
Proof.
  intros Hs Hf.
  destruct (handle_stays_ready (client_handler c) unitId reference_read Hs Hf)
    as [Hp Hs1].
  panel_turn settings slot unitId devices c; cbn [fst snd] in Hp, Hs1.
  - destruct (handle_stays_ready h1 unitId name_read Hs1 Hf) as [_ Hs2].
    rewrite Ename in Hs2. eexists _, _. split; [exact Eturn | exact Hs2].
  - eexists _, _. split; [exact Eturn | exact Hs1].
  - eexists _, _. split; [exact Eturn | exact Hs1].
  - apply ascii_of_Never in Eref. contradiction.
Qed.

Lemma panel_loop_ready (settings : PowerTagSettings) (addressMap : JsMap.t)
      (devices : list DeviceEntry) (c : Client G) :
  handler_stalled (client_handler c) = false ->
  Forall (fun entry => fits_in_byte entry.2 = true) addressMap ->
  exists devices' c',
    panel_loop settings addressMap devices c = (Ok devices', c')
    /\ handler_stalled (client_handler c') = false.
Proof.
  revert devices c. induction addressMap as [|[slot unitId] rest IH];
    intros devices c Hs Hfit.
  - exists devices, c. split; [reflexivity | exact Hs].
  - apply Forall_cons in Hfit as [Hf Hfit]. cbn [snd] in Hf.
    destruct (panel_slot_ready settings slot unitId devices c Hs Hf)
      as (devices1 & c1 & E1 & Hs1).
    cbn [panel_loop]. rewrite bind_run, E1. now apply IH.
Qed.

(** *** The range scans *)

Lemma scan_trace_weaken (settings : PowerTagSettings) (before unitIds after : list Z)
      (evs : list Event) (new : list DeviceEntry) :
  scan_trace settings unitIds evs new ->
  scan_trace settings (before ++ unitIds ++ after) evs new.
Proof.
  intros (Hreq & Hreads & Hlen & Hnew & Hsub & Hscanned & Hbuilt).
  assert (Hin : forall u, u ∈ unitIds -> u ∈ (before ++ unitIds ++ after)%list).
  { intros u Hu. rewrite !elem_of_app. auto. }
  assert (Hsublist : unitIds `sublist_of` (before ++ unitIds ++ after)%list).
  { apply sublist_inserts_l, sublist_inserts_r. reflexivity. }
  unfold scan_trace. rewrite !length_app.
  split.
  { eapply requests_satisfy_impl; [| exact Hreq].
    intros u rq [Hu Hrq]. split; [now apply Hin | exact Hrq]. }
  split; [etransitivity; eassumption |].
  split; [lia |]. split; [lia |].
  split; [etransitivity; eassumption |].
  split; [| exact Hbuilt].
  eapply Forall_impl; [exact Hscanned |].
  intros d (Hu & Hrest). split; [now apply Hin | exact Hrest].
Qed.

Lemma scan_trace_app (settings : PowerTagSettings) (unitIds1 unitIds2 : list Z)
      (evs1 evs2 : list Event) (new1 new2 : list DeviceEntry) :
  scan_trace settings unitIds1 evs1 new1 ->
  scan_trace settings unitIds2 evs2 new2 ->
  scan_trace settings (unitIds1 ++ unitIds2) (evs1 ++ evs2) (new1 ++ new2).
Proof.
  intros (Hreq1 & Hreads1 & Hlen1 & Hnew1 & Hsub1 & Hscanned1 & Hbuilt1)
         (Hreq2 & Hreads2 & Hlen2 & Hnew2 & Hsub2 & Hscanned2 & Hbuilt2).
  unfold scan_trace.
  rewrite type_read_units_app, requests_of_app, !length_app, map_app.
  split.
  { apply requests_satisfy_app;
      (eapply requests_satisfy_impl; [| eassumption]);
      intros u rq [Hu Hrq]; (split; [| exact Hrq]); rewrite elem_of_app; auto. }
  split; [now apply sublist_app |].
  split; [lia |]. split; [lia |].
  split; [now apply sublist_app |].
  split; [| now apply Forall_app_2].
  apply Forall_app_2;
    [eapply Forall_impl; [exact Hscanned1 |] | eapply Forall_impl; [exact Hscanned2 |]];
    intros d (Hu & Hrest); (split; [| exact Hrest]); rewrite elem_of_app; auto.
Qed.

Lemma scanUnitRange_trace (settings : PowerTagSettings) (startId endId maxCT : Z)
      (c : Client G) :
  exists r c' evs new,
    scanUnitRange settings startId endId maxCT c = (r, c')
    /\ r <> Err
    /\ client_log c' = (client_log c ++ evs)%list
    /\ scan_trace settings (seqZ startId (endId - startId)) evs new
    /\ forall devices, r = Ok devices -> devices = new.
Proof.
  destruct (scan_loop_trace settings maxCT (seqZ startId (endId - startId))
              {| consecutiveTimeouts := 0; scan_devices := [] |} c)
    as (r & c' & evs & new & E & Hr & Hlog & Htrace & Hdev).
  rewrite scanUnitRange_run, E.
  destruct r as [[e st']| |]; [| contradiction |].
  - exists (Ok (scan_devices st')), c', evs, new.
    split; [reflexivity |]. split; [discriminate |].
    split; [exact Hlog |]. split; [exact Htrace |].
    intros devices [= <-]. exact (Hdev e st' eq_refl).
  - exists Never, c', evs, new.
    split; [reflexivity |]. split; [discriminate |].
    split; [exact Hlog |]. split; [exact Htrace | discriminate].
Qed.

(** The three scans in a row. *)
Lemma smartlinkScan_trace (settings : PowerTagSettings) (c : Client G) :
  exists r c' evs new,
    smartlinkScan settings c = (r, c')
    /\ r <> Err
    /\ client_log c' = (client_log c ++ evs)%list
    /\ scan_trace settings scan_range evs new
    /\ forall devices, r = Ok devices -> devices = new.
Proof.
  unfold smartlinkScan, scan_range. rewrite bind_run.
  destruct (scanUnitRange_trace settings 150 170 default_maxConsecutiveTimeouts c)
    as (r1 & c1 & evs1 & new1 & E1 & Hr1 & Hlog1 & Htrace1 & Hdev1).
  rewrite E1. destruct r1 as [ds1| |]; [| contradiction |].
  2:{ exists Never, c1, evs1, new1.
      split; [reflexivity |]. split; [discriminate |]. split; [exact Hlog1 |].
      split; [| discriminate].
      apply (scan_trace_weaken settings [] (seqZ 150 (170 - 150))). exact Htrace1. }
  rewrite (Hdev1 ds1 eq_refl). rewrite bind_run.
  destruct (scanUnitRange_trace settings 100 150 3 c1)
    as (r2 & c2 & evs2 & new2 & E2 & Hr2 & Hlog2 & Htrace2 & Hdev2).
  rewrite E2. destruct r2 as [ds2| |]; [| contradiction |].
  2:{ exists Never, c2, (evs1 ++ evs2)%list, (new1 ++ new2)%list.
      split; [reflexivity |]. split; [discriminate |].
      split; [rewrite Hlog2, Hlog1; now rewrite <- app_assoc |].
      split; [| discriminate].
      rewrite <- (app_nil_r evs2), <- (app_nil_r new2).
      apply scan_trace_app; [exact Htrace1 |].
      apply scan_trace_app; [exact Htrace2 | apply scan_trace_nil]. }
  rewrite (Hdev2 ds2 eq_refl). rewrite bind_run.
  destruct (scanUnitRange_trace settings 170 200 3 c2)
    as (r3 & c3 & evs3 & new3 & E3 & Hr3 & Hlog3 & Htrace3 & Hdev3).
  rewrite E3.
  assert (Htrace : scan_trace settings
                     (seqZ 150 (170 - 150) ++ seqZ 100 (150 - 100)
                      ++ seqZ 170 (200 - 170))
                     (evs1 ++ evs2 ++ evs3) (new1 ++ new2 ++ new3)).
  { apply scan_trace_app; [exact Htrace1 |]. now apply scan_trace_app. }
  assert (Hlog : client_log c3 = (client_log c ++ evs1 ++ evs2 ++ evs3)%list).
  { rewrite Hlog3, Hlog2, Hlog1. now rewrite <- !app_assoc. }
  destruct r3 as [ds3| |]; [| contradiction |].
  - rewrite (Hdev3 ds3 eq_refl).
    exists (Ok (new1 ++ new2 ++ new3)%list), c3, (evs1 ++ evs2 ++ evs3)%list,
      (new1 ++ new2 ++ new3)%list.
    split; [reflexivity |]. split; [discriminate |]. split; [exact Hlog |].
    split; [exact Htrace |]. now intros devices [= <-].
  - exists Never, c3, (evs1 ++ evs2 ++ evs3)%list, (new1 ++ new2 ++ new3)%list.
    split; [reflexivity |]. split; [discriminate |]. split; [exact Hlog |].
    split; [exact Htrace | discriminate].
Qed.

Lemma scan_range_NoDup : NoDup scan_range.
Proof.
  unfold scan_range.
  change (seqZ 150 (170 - 150) ++ seqZ 100 (150 - 100) ++ seqZ 170 (200 - 170))%list
    with (seqZ 150 20 ++ seqZ 100 50 ++ seqZ 170 30)%list.
  apply NoDup_app. split; [apply NoDup_seqZ |]. split.
  - intros u Hu Hin. apply elem_of_seqZ in Hu.
    apply elem_of_app in Hin as [Hin | Hin]; apply elem_of_seqZ in Hin; lia.
  - apply NoDup_app. split; [apply NoDup_seqZ |]. split; [| apply NoDup_seqZ].
    intros u Hu Hin. apply elem_of_seqZ in Hu, Hin. lia.
Qed.

Lemma scan_range_elem (u : Z) : u ∈ scan_range -> 100 <= u < 200.
Proof.
  unfold scan_range. rewrite !elem_of_app, !elem_of_seqZ. lia.
Qed.

Lemma scan_range_length : length scan_range = 100%nat.
Proof. reflexivity. Qed.

End Strategies.

(** ** Discovery as a whole *)

Section Discovery.
Context {G : Type} `{Gateway G} `{JsNumber} `{PowerTagRegistry}.

Lemma discoverViaPanelServer_run (settings : PowerTagSettings) (c : Client G) :
  discoverViaPanelServer settings c
  = match readPanelServerDeviceAddresses (addressed 255 c) with
    | (Ok addressMap, c1) => panel_loop settings addressMap [] c1
    | (Err, c1) => (Err, c1)
    | (Never, c1) => (Never, c1)
    end.
Proof. reflexivity. Qed.

(** A client whose handler is ready has the handler of a client that
    was just created. *)
Lemma created_handler (c : Client G) :
  handler_stalled (client_handler c) = false ->
  client_handler (created c) = client_handler c.
Proof.
  unfold created, client_gateway. destruct (client_handler c) as [stalled g].
  cbn. now intros ->.
Qed.

(** A computation that sets the unit id first runs on a new client as
    it does on any client whose handler is ready. *)
Lemma created_run {A} (m : M G A) (unitId : Z) (c : Client G) :
  proper m ->
  (forall c0, m c0 = m (addressed unitId c0)) ->
  handler_stalled (client_handler c) = false ->
  (m (created c)).1 = (m c).1
  /\ client_unitId (m (created c)).2 = client_unitId (m c).2
  /\ client_handler (m (created c)).2 = client_handler (m c).2
  /\ client_log (m (created c)).2 = client_log (m c).2
  /\ new_events m (created c) = new_events m c.
Proof.
  intros Hm Hadd Hs.
  destruct (proper_ext m (addressed unitId c) (addressed unitId (created c)) Hm)
    as (Er & Eu & Eh & El & _);
    [reflexivity | cbn; now apply created_handler | reflexivity |].
  rewrite <- (Hadd (created c)), <- (Hadd c) in Er, Eu, Eh, El.
  repeat split; try assumption.
  unfold new_events. now rewrite El.
Qed.

Lemma panel_strategy_created (settings : PowerTagSettings) (c : Client G) :
  handler_stalled (client_handler c) = false ->
  (try_catch (discoverViaPanelServer settings) (ret []) (created c)).1
  = (try_catch (discoverViaPanelServer settings) (ret []) c).1
  /\ destroySocket (try_catch (discoverViaPanelServer settings) (ret []) (created c)).2
     = destroySocket (try_catch (discoverViaPanelServer settings) (ret []) c).2
  /\ new_events (try_catch (discoverViaPanelServer settings) (ret [])) (created c)
     = new_events (try_catch (discoverViaPanelServer settings) (ret [])) c.
Proof.
  intros Hs.
  destruct (created_run (try_catch (discoverViaPanelServer settings) (ret [])) 255 c)
    as (Er & Eu & Eh & El & Ee);
    [apply proper_panel_strategy | reflexivity | exact Hs |].
  split; [exact Er |]. split; [now apply destroySocket_ext | exact Ee].
Qed.

Lemma table_read_created (c : Client G) :
  handler_stalled (client_handler c) = false ->
  (readPanelServerDeviceAddresses (addressed 255 (created c))).1
  = (readPanelServerDeviceAddresses (addressed 255 c)).1
  /\ client_unitId (readPanelServerDeviceAddresses (addressed 255 (created c))).2
     = client_unitId (readPanelServerDeviceAddresses (addressed 255 c)).2
  /\ client_handler (readPanelServerDeviceAddresses (addressed 255 (created c))).2
     = client_handler (readPanelServerDeviceAddresses (addressed 255 c)).2
  /\ client_log (readPanelServerDeviceAddresses (addressed 255 (created c))).2
     = client_log (readPanelServerDeviceAddresses (addressed 255 c)).2.
Proof.
  intros Hs.
  destruct (proper_ext readPanelServerDeviceAddresses
              (addressed 255 c) (addressed 255 (created c))
              proper_readPanelServerDeviceAddresses)
    as (Er & Eu & Eh & El & _);
    [reflexivity | cbn; now apply created_handler | reflexivity |].
  auto.
Qed.

(** The first strategy inside its [try]: bounded reads only, addressed to
    unit 255 or to a unit id found in the table; four table reads, one
    reference read per occupied slot at most, one name read per device;
    no type read. It never raises, and what it returns is entered for a
    sub-sequence of the unit ids of the address map. *)
Lemma panel_strategy_trace (settings : PowerTagSettings) (c : Client G) :
  exists r c' evs,
    try_catch (discoverViaPanelServer settings) (ret []) c = (r, c')
    /\ r <> Err
    /\ client_log c' = (client_log c ++ evs)%list
    /\ requests_satisfy (fun u rq => 1 <= u <= 65534 /\ bounded_read rq) evs
    /\ type_read_units (requests_of evs) = []
    /\ (length (requests_of evs) <= 202)%nat
    /\ forall devices,
        r = Ok devices ->
        (length (requests_of evs) <= 103 + length devices)%nat
        /\ (length devices <= 99)%nat
        /\ Forall (built_entry settings) devices
        /\ (devices = []
            \/ exists addressMap c1,
                readPanelServerDeviceAddresses (addressed 255 c) = (Ok addressMap, c1)
                /\ map entry_unitId devices `sublist_of` map snd addressMap).
Proof.
  unfold try_catch. rewrite discoverViaPanelServer_run.
  destruct (table_read_events (addressed 255 c) (call_throws_fits _ 255 eq_refl))
    as (evs0 & Hlog0 & Hreq0).
  cbn [addressed client_unitId client_log] in Hlog0, Hreq0.
  assert (Htable : requests_satisfy (fun u rq => 1 <= u <= 65534 /\ bounded_read rq) evs0
                   /\ length (requests_of evs0) = 4%nat
                   /\ type_read_units (requests_of evs0) = []).
  { unfold requests_satisfy. rewrite Hreq0.
    split; [repeat constructor; cbn; lia | split; reflexivity]. }
  destruct Htable as (Hsat0 & Hlen0 & Htype0).
  destruct (readPanelServerDeviceAddresses (addressed 255 c))
    as [[addressMap| |] c1] eqn:E; cbn [snd] in Hlog0.
  - destruct (panel_loop_trace settings addressMap [] c1)
      as (r & c2 & evs & new & E2 & Hr & Hlog & Htrace & Hok).
    destruct Htrace as (Hreq & _ & Htype & Hlen & Hnew & Hsub & Hbuilt).
    destruct (address_map_size (addressed 255 c) addressMap) as [Hsize _];
      [now rewrite E |].
    assert (Hunits : forall u, u ∈ map snd addressMap -> 1 <= u <= 65534).
    { intros u. apply (address_map_units (addressed 255 c)). now rewrite E. }
    rewrite E2.
    exists r, c2, (evs0 ++ evs)%list.
    split; [destruct r as [ds| |]; [reflexivity | contradiction | reflexivity] |].
    split; [exact Hr |].
    split; [rewrite Hlog, Hlog0; now rewrite <- app_assoc |].
    split.
    { apply requests_satisfy_app; [exact Hsat0 |].
      eapply requests_satisfy_impl; [| exact Hreq].
      intros u rq [Hin Hrq]. split; [now apply Hunits |].
      destruct Hrq as [-> | ->]; cbn; lia. }
    split; [rewrite type_read_units_app, Htype0, Htype; reflexivity |].
    split; [rewrite requests_of_app, length_app; lia |].
    intros devices Er. destruct (Hok devices Er) as [Hdev _].
    cbn [app] in Hdev. subst new.
    split; [rewrite requests_of_app, length_app; lia |].
    split; [lia |]. split; [exact Hbuilt |].
    right. now exists addressMap, c1.
  - exists (Ok []), c1, evs0.
    split; [reflexivity |]. split; [discriminate |]. split; [exact Hlog0 |].
    split; [exact Hsat0 |]. split; [exact Htype0 |]. split; [lia |].
    intros devices [= <-]. cbn [length].
    split; [lia |]. split; [lia |]. split; [constructor | now left].
  - exists Never, c1, evs0.
    split; [reflexivity |]. split; [discriminate |]. split; [exact Hlog0 |].
    split; [exact Hsat0 |]. split; [exact Htype0 |]. split; [lia | discriminate].
Qed.


Lemma discoverDevices_run (settings : PowerTagSettings) (c : Client G) :
  discoverDevices settings c
  = match connect (client_gateway c) with
    | Connected =>
        match try_catch (discoverViaPanelServer settings) (ret []) (created c) with
        | (Ok devices, c1) =>
            if bool_decide (length devices = 0%nat)
            then match smartlinkScan settings c1 with
                 | (Ok scanned, c2) => (Ok scanned, destroySocket c2)
                 | (Err, c2) => (Err, destroySocket c2)
                 | (Never, c2) => (Never, c2)
                 end
            else (Ok devices, destroySocket c1)
        | (Err, c1) => (Err, destroySocket c1)
        | (Never, c1) => (Never, c1)
        end
    | ConnectTimeout | ConnectError => (Err, destroySocket (created c))
    end.
Proof.
  unfold discoverDevices. rewrite bind_run. unfold createClient, try_finally.
  rewrite bind_run. unfold connectSocket.
  change (client_gateway (created c)) with (client_gateway c).
  destruct (connect (client_gateway c)); [| reflexivity | reflexivity].
  rewrite bind_run.
  destruct (try_catch (discoverViaPanelServer settings) (ret []) (created c))
    as [[devices| |] c1]; [| reflexivity | reflexivity].
  rewrite bind_run. case_bool_decide; [| reflexivity].
  now destruct (smartlinkScan settings c1) as [[scanned| |] c2].
Qed.



(** A run of discovery, whether or not it completes: what it puts on
    the wire, when it raises, what becomes of the socket, and where the
    devices it returns come from. *)
Lemma discoverDevices_trace (settings : PowerTagSettings) (c : Client G) :
  exists r c' evs,
    discoverDevices settings c = (r, c')
    /\ client_log c' = (client_log c ++ evs)%list
    /\ requests_satisfy (fun u rq => 1 <= u <= 65534 /\ bounded_read rq) evs
    /\ (length (requests_of evs) <= 303)%nat
    /\ (r = Err <-> connect (client_gateway c) <> Connected)
    /\ (r = Never -> socket_destroyed c' = false)
    /\ (r <> Never -> socket_destroyed c' = true)
    /\ forall devices,
        r = Ok devices ->
        (length devices <= 100)%nat
        /\ Forall (built_entry settings) devices
        /\ ((devices <> []
             /\ type_read_units (requests_of evs) = []
             /\ (exists c1,
                    try_catch (discoverViaPanelServer settings) (ret []) (created c)
                    = (Ok devices, c1)
                    /\ c' = destroySocket c1)
             /\ exists addressMap c1,
                 readPanelServerDeviceAddresses (addressed 255 (created c))
                 = (Ok addressMap, c1)
                 /\ map entry_unitId devices `sublist_of` map snd addressMap)
            \/ ((exists c1 c2,
                    try_catch (discoverViaPanelServer settings) (ret []) (created c)
                    = (Ok [], c1)
                    /\ smartlinkScan settings c1 = (Ok devices, c2)
                    /\ c' = destroySocket c2)
                /\ map entry_unitId devices `sublist_of` scan_range
                /\ Forall (scanned_entry scan_range) devices)).
Proof.
  rewrite discoverDevices_run.
  destruct (connect (client_gateway c)) eqn:Hc.
  2,3: exists Err, (destroySocket (created c)), [];
    (split; [reflexivity |]); (split; [cbn; now rewrite app_nil_r |]);
    (split; [apply requests_satisfy_nil |]); (split; [cbn; lia |]);
    (split; [split; [discriminate | reflexivity] |]);
    (split; [discriminate |]); (split; [reflexivity | discriminate]).
  destruct (panel_strategy_trace settings (created c))
    as (r1 & c1 & evs1 & E1 & Hr1 & Hlog1 & Hreq1 & Htype1 & Hlen1 & Hok1).
  pose proof (proper_socket _ (created c) (proper_panel_strategy settings)) as Hsock1.
  rewrite E1 in *. cbn [snd created socket_destroyed client_log] in Hsock1, Hlog1.
  destruct r1 as [panel| |]; [| contradiction |].
  2:{ exists Never, c1, evs1.
      split; [reflexivity |]. split; [exact Hlog1 |]. split; [exact Hreq1 |].
      split; [lia |]. split; [split; [discriminate | intros Hn; now contradiction Hn] |].
      split; [intros _; exact Hsock1 |].
      split; [intros Hn; now contradiction Hn | discriminate]. }
  destruct (Hok1 panel eq_refl) as (Hlen1' & Hnew1 & Hbuilt1 & Hpanel).
  case_bool_decide as Hempty.
  - destruct panel; [| discriminate Hempty]. cbn [length] in Hlen1'.
    destruct (smartlinkScan_trace settings c1)
      as (r2 & c2 & evs2 & new2 & E2 & Hr2 & Hlog2 & Htrace2 & Hok2).
    pose proof (proper_socket _ c1 (proper_smartlinkScan settings)) as Hsock2.
    rewrite E2 in *. cbn [snd] in Hsock2.
    destruct Htrace2 as (Hreq2 & _ & Hlen2 & Hnew2 & Hsub2 & Hscanned2 & Hbuilt2).
    rewrite scan_range_length in Hlen2, Hnew2.
    assert (Hreq : requests_satisfy (fun u rq => 1 <= u <= 65534 /\ bounded_read rq)
                                    (evs1 ++ evs2)).
    { apply requests_satisfy_app; [exact Hreq1 |].
      eapply requests_satisfy_impl; [| exact Hreq2].
      intros u rq [Hin Hrq]. apply scan_range_elem in Hin.
      split; [lia |]. destruct Hrq as [-> | ->]; cbn; lia. }
    assert (Hlen : (length (requests_of (evs1 ++ evs2)) <= 303)%nat)
      by (rewrite requests_of_app, length_app; lia).
    assert (Hlog : client_log c2 = (client_log c ++ evs1 ++ evs2)%list)
      by (rewrite Hlog2, Hlog1; now rewrite <- app_assoc).
    destruct r2 as [scanned| |]; [| contradiction |].
    + rewrite (Hok2 scanned eq_refl) in *.
      exists (Ok new2), (destroySocket c2), (evs1 ++ evs2)%list.
      split; [reflexivity |]. split; [exact Hlog |]. split; [exact Hreq |].
      split; [exact Hlen |].
      split; [split; [discriminate | intros Hn; now contradiction Hn] |].
      split; [discriminate |]. split; [reflexivity |].
      intros devices [= <-]. split; [exact Hnew2 |]. split; [exact Hbuilt2 |].
      right. split; [| split; assumption].
      now exists c1, c2.
    + exists Never, c2, (evs1 ++ evs2)%list.
      split; [reflexivity |]. split; [exact Hlog |]. split; [exact Hreq |].
      split; [exact Hlen |].
      split; [split; [discriminate | intros Hn; now contradiction Hn] |].
      split; [intros _; now rewrite Hsock2 |].
      split; [intros Hn; now contradiction Hn | discriminate].
  - exists (Ok panel), (destroySocket c1), evs1.
    split; [reflexivity |]. split; [exact Hlog1 |]. split; [exact Hreq1 |].
    split; [lia |].
    split; [split; [discriminate | intros Hn; now contradiction Hn] |].
    split; [discriminate |]. split; [reflexivity |].
    intros devices [= <-]. split; [lia |]. split; [exact Hbuilt1 |].
    left. split; [intros ->; now apply Hempty |].
    split; [exact Htype1 |]. split; [now exists c1 |].
    destruct Hpanel as [-> | Hmap]; [now contradiction Hempty | exact Hmap].
Qed.

End Discovery.




Section UnitIds.
Context {G : Type} `{Gateway G} `{JsNumber} `{PowerTagRegistry}.

Lemma smartlinkScan_distinct (settings : PowerTagSettings) (c : Client G) :
  NoDup (type_read_units (issued_by (smartlinkScan settings) c))
  /\ forall devices c',
      smartlinkScan settings c = (Ok devices, c') ->
      NoDup (map entry_unitId devices).
Proof.
  destruct (smartlinkScan_trace settings c)
    as (r & c1 & evs & new & E & _ & Hlog & (_ & Hreads & _ & _ & Hsub & _) & Hok).
  split.
  - unfold issued_by. rewrite (new_events_app _ _ evs) by (now rewrite E).
    eapply sublist_NoDup; [apply scan_range_NoDup | exact Hreads].
  - intros devices c' E'. rewrite E in E'. injection E' as -> _.
    rewrite (Hok devices eq_refl).
    eapply sublist_NoDup; [apply scan_range_NoDup | exact Hsub].
Qed.

Lemma discoverViaPanelServer_devices (settings : PowerTagSettings) (c : Client G)
      (devices : list DeviceEntry) (c' : Client G) :
  discoverViaPanelServer settings c = (Ok devices, c') ->
  exists addressMap c1,
    readPanelServerDeviceAddresses (addressed 255 c) = (Ok addressMap, c1)
    /\ NoDup (map fst addressMap)
    /\ map entry_unitId devices `sublist_of` map snd addressMap
    /\ forall unitId, unitId ∈ map snd addressMap -> 1 <= unitId <= 65534.
Proof.
  intros E. rewrite discoverViaPanelServer_run in E.
  destruct (readPanelServerDeviceAddresses (addressed 255 c))
    as [[addressMap| |] c1] eqn:Em; [| discriminate ..].
  exists addressMap, c1. split; [reflexivity |].
  split; [apply (address_map_size (addressed 255 c)); now rewrite Em |].
  split.
  - destruct (panel_loop_trace settings addressMap [] c1)
      as (r & c2 & evs & new & E2 & _ & _ & (_ & _ & _ & _ & _ & Hsub & _) & Hok).
    rewrite E in E2. injection E2 as <- _.
    destruct (Hok devices eq_refl) as [-> _]. exact Hsub.
  - intros unitId. apply (address_map_units (addressed 255 c)). now rewrite Em.
Qed.

End UnitIds.

(** C2, as the code has it. The range scan reads the device type of each
    unit id at most once and never enters two devices with the same unit
    id. The Panel-Server strategy enters at most one device per occupied
    slot, for the unit id the slot holds. So the list that
    [discoverDevices] returns has no two entries with the same unitId
    whenever the occupied slots of the address table, as the client of
    this run reads it, hold pairwise distinct unit ids. *)
Theorem discovery_unit_ids_distinct
        {G : Type} `{Gateway G} `{JsNumber} `{PowerTagRegistry}
        (settings : PowerTagSettings) :
  (forall c : Client G,
      NoDup (type_read_units (issued_by (smartlinkScan settings) c))
      /\ forall devices c',
          smartlinkScan settings c = (Ok devices, c') ->
          NoDup (map entry_unitId devices))
  /\ (forall (c : Client G) devices c',
         discoverViaPanelServer settings c = (Ok devices, c') ->
         exists addressMap c1,
           readPanelServerDeviceAddresses (addressed 255 c) = (Ok addressMap, c1)
           /\ NoDup (map fst addressMap)
           /\ map entry_unitId devices `sublist_of` map snd addressMap)
  /\ (forall (c : Client G) devices c',
         discoverDevices settings c = (Ok devices, c') ->
         (forall addressMap c1,
             readPanelServerDeviceAddresses (addressed 255 (created c))
             = (Ok addressMap, c1) ->
             NoDup (map snd addressMap)) ->
         NoDup (map entry_unitId devices)).
Proof.
  split; [intros c; apply smartlinkScan_distinct |].
  split.
  - intros c devices c' E.
    destruct (discoverViaPanelServer_devices settings c devices c' E)
      as (addressMap & c1 & Em & Hnd & Hsub & _).
    now exists addressMap, c1.
  - intros c devices c' E Hdistinct.
    destruct (discoverDevices_trace settings c)
      as (r & c2 & evs & E2 & _ & _ & _ & _ & _ & _ & Hok).
    rewrite E in E2. injection E2 as <- _.
    destruct (Hok devices eq_refl)
      as (_ & _ & [(_ & _ & _ & addressMap & c1 & Em & Hsub) | (_ & Hsub & _)]).
    + eapply sublist_NoDup; [eapply Hdistinct, Em | exact Hsub].
    + eapply sublist_NoDup; [apply scan_range_NoDup | exact Hsub].
Qed.

Lemma discovery_unit_ids_distinct_witness :
  exists devices c',
    discoverDevices example_settings (newClient two_device_gateway) = (Ok devices, c')
    /\ map entry_unitId devices = [42; 43]
    /\ NoDup (map entry_unitId devices).
Proof.
  pose (c := newClient two_device_gateway).
  destruct (is_Ok_run (discoverDevices example_settings) c) as (devices & c' & E);
    [vm_compute; reflexivity |].
  exists devices, c'. split; [exact E |].
  split.
  - assert (Hunits : match (discoverDevices example_settings c).1 with
                     | Ok ds => map entry_unitId ds
                     | Err | Never => []
                     end = [42; 43]) by (vm_compute; reflexivity).
    now rewrite E in Hunits.
  - destruct (discovery_unit_ids_distinct (G := RegisterGateway) example_settings)
      as (_ & _ & Hall).
    apply (Hall _ _ _ E).
    intros addressMap c1 Em.
    assert (Hmap : (readPanelServerDeviceAddresses (addressed 255 (created c))).1
                   = Ok [(1, 42); (2, 43)]) by (vm_compute; reflexivity).
    rewrite Em in Hmap. apply Ok_inj in Hmap. subst addressMap.
    refine (bool_decide_unpack (NoDup (map snd [(1, 42); (2, 43)])) _).
    vm_compute. exact I.
Defined.

(** Two slots that hold the same unit id yield two entries for it, and a
    unit id whose reference the first strategy read is read again by the
    range scan when the first strategy found nothing. *)
Lemma discovery_duplicate_unit_counterexample :
  (match (discoverDevices example_settings
            (newClient (panel_gateway two_slot_table 42 "A9MEM1541"))).1 with
   | Ok devices => map entry_unitId devices = [42; 42]
   | Err | Never => False
   end)
  /\ ~ NoDup [42; 42]
  /\ filter (fun rq => bool_decide (rq.1 = 150))
            (issued_by (discoverDevices example_settings)
                       (newClient (panel_gateway slot_150_table 150 "XYZ")))
     = [(150, reference_read); (150, type_read)].
Proof.
  split; [vm_compute; reflexivity |].
  split; [| vm_compute; reflexivity].
  intros Hnd. apply NoDup_cons in Hnd as [Hnotin _]. apply Hnotin. left.
Qed.

(** C6. A slot of the address table whose unit id register reads 0 or
    65535 gets no entry in the address map (the map holds exactly the
    slots 1..99 whose register reads any other value), and no device of
    the Panel-Server strategy has unit id 0 or 65535. A turn of the range
    scan whose type read returns 0 or 65535 goes on with the device list
    unchanged and without a further request, and no device of a range
    scan has type id 0 or 65535. No device returned by [discoverDevices]
    has unit id 0 or 65535. *)
Theorem empty_units_not_emitted
        {G : Type} `{Gateway G} `{JsNumber} `{PowerTagRegistry}
        (settings : PowerTagSettings) :
  (forall (c : Client G) addressMap c',
      readPanelServerDeviceAddresses c = (Ok addressMap, c') ->
      exists resps chunks,
        (issue_all address_chunks c).1 = Ok resps
        /\ settle_all resps = Ok chunks
        /\ forall slot unitId,
            (slot, unitId) ∈ addressMap
            <-> 1 <= slot <= 99
                /\ slot_unitId chunks slot = Ok unitId
                /\ unitId <> 0 /\ unitId <> 65535)
  /\ (forall (c : Client G) devices c',
         discoverViaPanelServer settings c = (Ok devices, c') ->
         forall d, d ∈ devices -> entry_unitId d <> 0 /\ entry_unitId d <> 65535)
  /\ (forall maxCT unitId st (c : Client G) resp h1 typeId,
         handle (client_handler c) unitId type_read = (resp, h1) ->
         deviceType_of resp = Ok typeId ->
         typeId = 0 \/ typeId = 65535 ->
         scan_unit settings maxCT unitId st c
         = (Ok (Continue,
                {| consecutiveTimeouts := 0; scan_devices := scan_devices st |}),
            after_exchange (addressed unitId c) type_read resp h1))
  /\ (forall startId endId maxCT (c : Client G) devices c',
         scanUnitRange settings startId endId maxCT c = (Ok devices, c') ->
         forall d, d ∈ devices -> entry_typeId d <> 0 /\ entry_typeId d <> 65535)
  /\ (forall (c : Client G) devices c',
         discoverDevices settings c = (Ok devices, c') ->
         forall d, d ∈ devices -> entry_unitId d <> 0 /\ entry_unitId d <> 65535).
Proof.
  split.
  { intros c addressMap c' E.
    destruct (readPanelServerDeviceAddresses_entries c addressMap)
      as (resps & chunks & E1 & E2 & ->); [now rewrite E |].
    exists resps, chunks. split; [exact E1 |]. split; [exact E2 |].
    intros slot unitId. rewrite table_entries_elem, elem_of_seqZ, occupied_spec.
    intuition lia. }
  split.
  { intros c devices c' E d Hd.
    destruct (discoverViaPanelServer_devices settings c devices c' E)
      as (addressMap & c1 & _ & _ & Hsub & Hunits).
    assert (Hu : 1 <= entry_unitId d <= 65534)
      by (apply Hunits; now apply (elem_of_map_sublist entry_unitId devices)).
    lia. }
  split.
  { intros maxCT unitId st c resp h1 typeId Er Et Hempty.
    pose proof (scan_unit_run settings maxCT unitId st c) as Eturn.
    rewrite Er in Eturn. cbv zeta in Eturn. rewrite Et in Eturn.
    assert (Hnone : scanned_model typeId = None).
    { unfold scanned_model. destruct Hempty as [-> | ->]; reflexivity. }
    now rewrite Hnone in Eturn. }
  split.
  { intros startId endId maxCT c devices c' E d Hd.
    destruct (scanUnitRange_trace settings startId endId maxCT c)
      as (r & c1 & evs & new & E1 & _ & _ & (_ & _ & _ & _ & _ & Hall & _) & Hok).
    rewrite E in E1. injection E1 as <- _. rewrite <- (Hok devices eq_refl) in Hall.
    rewrite Forall_forall in Hall. destruct (Hall d Hd) as (_ & Hn0 & Hn1 & _). auto. }
  intros c devices c' E d Hd.
  destruct (discoverDevices_trace settings c)
    as (r & c2 & evs & E2 & _ & _ & _ & _ & _ & _ & Hok).
  rewrite E in E2. injection E2 as <- _.
  destruct (Hok devices eq_refl)
    as (_ & _ & [(_ & _ & _ & addressMap & c1 & Em & Hsub) | (_ & Hsub & _)]).
  - assert (Hu : 1 <= entry_unitId d <= 65534).
    { apply (address_map_units (addressed 255 (created c)) addressMap);
        [now rewrite Em |].
      now apply (elem_of_map_sublist entry_unitId devices). }
    lia.
  - apply (elem_of_map_sublist entry_unitId devices _ d Hd), scan_range_elem in Hsub.
    lia.
Qed.

Lemma empty_units_not_emitted_witness :
  exists devices c',
    discoverDevices example_settings
                    (newClient (panel_gateway one_slot_table 42 "A9MEM1541"))
    = (Ok devices, c')
    /\ forall d, d ∈ devices -> entry_unitId d <> 0 /\ entry_unitId d <> 65535.
Proof.
  pose (c := newClient (panel_gateway one_slot_table 42 "A9MEM1541")).
  destruct (is_Ok_run (discoverDevices example_settings) c) as (devices & c' & E);
    [vm_compute; reflexivity |].
  exists devices, c'. split; [exact E |].
  destruct (empty_units_not_emitted (G := RegisterGateway) example_settings)
    as (_ & _ & _ & _ & Hall).
  apply (Hall _ _ _ E).
Defined.

(** ** Reading a well-formed address table *)

Section TableDecoding.


Lemma of_register_value (v : Z) :
  0 <= v < 65536 ->
  exists hi lo,
    Buffer.of_register v = [hi; lo]
    /\ Buffer.byteZ hi * 256 + Buffer.byteZ lo = v.
Proof.
  intros Hv. unfold Buffer.of_register.
  assert (Hhi : 0 <= v `div` 256 < 256).
  { split; [apply Z.div_pos; lia | apply Z.div_lt_upper_bound; lia]. }
  assert (Hlo : 0 <= v `mod` 256 < 256) by (apply Z.mod_pos_bound; lia).
  destruct (Byte.of_N (Z.to_N (v `div` 256))) as [hi|] eqn:Ehi;
    [| apply Byte.of_N_None_iff in Ehi; lia].
  destruct (Byte.of_N (Z.to_N (v `mod` 256))) as [lo|] eqn:Elo;
    [| apply Byte.of_N_None_iff in Elo; lia].
  exists hi, lo. split; [reflexivity |].
  apply Byte.to_of_N in Ehi, Elo. unfold Buffer.byteZ. rewrite Ehi, Elo.
  rewrite !Z2N.id by lia.
  pose proof (Z.div_mod v 256). lia.
Qed.







End TableDecoding.

Section PanelServerTable.
Context {G : Type} `{Gateway G} `{JsNumber} `{PowerTagRegistry}.



End PanelServerTable.



(** * Further properties *)

Section DiscoveryFacts.
Context {G : Type} `{Gateway G} `{JsNumber} `{PowerTagRegistry}.




(** A first strategy that returns was run by a handler that was ready. *)
Lemma discoverViaPanelServer_settled (settings : PowerTagSettings) (c : Client G) :
  (readPanelServerDeviceAddresses (addressed 255 c)).1 <> Never ->
  handler_stalled (client_handler c) = false.
Proof. apply (table_read_settled (addressed 255 c)). Qed.

End DiscoveryFacts.

(** X1. Whatever the gateway answers, and whether or not the run ever
    returns, every request that [discoverDevices] hands to the client is
    a read of holding registers, of at least 1 and at most 125 registers,
    addressed to a unit id between 1 and 65534: it never writes a
    register, never exceeds the ceiling of one transaction and never
    addresses unit 0 or 65535. *)
Theorem discovery_only_reads {G : Type} `{Gateway G} `{JsNumber} `{PowerTagRegistry}
        (settings : PowerTagSettings) (c : Client G) :
  Forall (fun rq => 1 <= rq.1 <= 65534 /\ bounded_read rq.2)
         (issued_by (discoverDevices settings) c).
Proof.
  destruct (discoverDevices_trace settings c) as (r & c' & evs & E & Hlog & Hreq & _).
  unfold issued_by. rewrite (new_events_app _ _ evs) by (now rewrite E).
  exact Hreq.
Qed.

(** X2. Whatever the gateway answers, one run of [discoverDevices] hands
    the client at most 303 requests (4 table reads, at most 99 reference
    reads, at most 100 type reads and at most one name read per device
    returned) and returns at most 100 devices. *)
Theorem discovery_is_bounded {G : Type} `{Gateway G} `{JsNumber} `{PowerTagRegistry}
        (settings : PowerTagSettings) (c : Client G) :
  (length (issued_by (discoverDevices settings) c) <= 303)%nat
  /\ forall devices c',
      discoverDevices settings c = (Ok devices, c') -> (length devices <= 100)%nat.
Proof.
  destruct (discoverDevices_trace settings c)
    as (r & c' & evs & E & Hlog & _ & Hlen & _ & _ & _ & Hok).
  split.
  - unfold issued_by. rewrite (new_events_app _ _ evs) by (now rewrite E).
    exact Hlen.
  - intros devices c2 E2. rewrite E in E2.
    apply (f_equal fst) in E2. cbn [fst] in E2.
    now destruct (Hok devices E2) as (Hnew & _).
Qed.

Lemma discovery_is_bounded_witness :
  (length (issued_by (discoverDevices example_settings) (newClient energy_gateway))
   <= 303)%nat.
Proof.
  destruct (discovery_is_bounded example_settings (newClient energy_gateway))
    as [Hbound _].
  exact Hbound.
Defined.



(** X4. When the Panel-Server strategy finds at least one device, the
    range scan does not run: [discoverDevices] returns exactly the devices
    of the first strategy and issues no device-type read at all. *)
Theorem panel_devices_preempt_scan
        {G : Type} `{Gateway G} `{JsNumber} `{PowerTagRegistry}
        (settings : PowerTagSettings) (c c1 : Client G) (panel : list DeviceEntry) :
  connect (client_gateway c) = Connected ->
  discoverViaPanelServer settings c = (Ok panel, c1) ->
  panel <> [] ->
  discoverDevices settings c = (Ok panel, destroySocket c1)
  /\ type_read_units (issued_by (discoverDevices settings) c) = [].
Proof.
  intros Hc Epanel Hne.
  assert (Hs : handler_stalled (client_handler c) = false).
  { apply (discoverViaPanelServer_settled settings).
    rewrite discoverViaPanelServer_run in Epanel.
    destruct (readPanelServerDeviceAddresses (addressed 255 c)) as [[m| |] c0];
      [discriminate | discriminate Epanel ..]. }
  destruct (panel_strategy_created settings c Hs) as (Er & Ed & _).
  rewrite (try_catch_Ok _ _ _ _ _ Epanel) in Er, Ed. cbn [fst snd] in Er, Ed.
  destruct (try_catch (discoverViaPanelServer settings) (ret []) (created c))
    as [r1 c1'] eqn:E1.
  cbn [fst snd] in Er, Ed. subst r1.
  assert (Erun : discoverDevices settings c = (Ok panel, destroySocket c1)).
  { rewrite discoverDevices_run, Hc, E1, <- Ed.
    destruct panel; [contradiction | reflexivity]. }
  split; [exact Erun |].
  destruct (discoverDevices_trace settings c)
    as (r & c' & evs & E & Hlog & _ & _ & _ & _ & _ & Hok).
  unfold issued_by. rewrite (new_events_app _ _ evs) by (now rewrite E).
  rewrite Erun in E. injection E as <- _.
  destruct (Hok panel eq_refl)
    as (_ & _ & [(_ & Htype & _) | ((c2 & c3 & E2 & _) & _)]); [exact Htype |].
  rewrite E1 in E2. injection E2 as -> _. contradiction.
Qed.

Lemma panel_devices_preempt_scan_witness :
  type_read_units
    (issued_by (discoverDevices example_settings)
               (newClient (panel_gateway one_slot_table 42 "A9MEM1541")))
  = [].
Proof.
  pose (c := newClient (panel_gateway one_slot_table 42 "A9MEM1541")).
  assert (Hc : connect (client_gateway c) = Connected) by reflexivity.
  destruct (is_Ok_run (discoverViaPanelServer example_settings) c)
    as (panel & c1 & Epanel); [vm_compute; reflexivity |].
  assert (Hne : panel <> []).
  { assert (Hlen : match (discoverViaPanelServer example_settings c).1 with
                   | Ok ds => length ds
                   | Err | Never => 0%nat
                   end = 1%nat) by (vm_compute; reflexivity).
    rewrite Epanel in Hlen. cbn [fst] in Hlen.
    intros Hnil. rewrite Hnil in Hlen. discriminate Hlen. }
  exact (proj2 (panel_devices_preempt_scan example_settings c _ _ Hc Epanel Hne)).
Defined.

(** ** The range scan depends on the request handler only *)

Section Frame.
Context {G : Type} `{Gateway G} `{JsNumber} `{PowerTagRegistry}.

(** A turn of the scan sets the unit id before it reads, so its outcome
    and the handler it leaves depend on the handler alone. *)
Lemma scan_unit_addressed (settings : PowerTagSettings) (maxCT unitId : Z)
      (st : ScanState) (c : Client G) :
  scan_unit settings maxCT unitId st c
  = scan_unit settings maxCT unitId st (addressed unitId c).
Proof. reflexivity. Qed.

Lemma scan_loop_frame (settings : PowerTagSettings) (maxCT : Z) (unitIds : list Z)
      (st : ScanState) (c c2 : Client G) :
  client_handler c2 = client_handler c ->
  (scan_loop settings maxCT unitIds st c2).1 = (scan_loop settings maxCT unitIds st c).1
  /\ client_handler (scan_loop settings maxCT unitIds st c2).2
     = client_handler (scan_loop settings maxCT unitIds st c).2.
Proof.
  revert st c c2. induction unitIds as [|unitId rest IH]; intros st c c2 Hh.
  - cbn. auto.
  - cbn [scan_loop]. rewrite !bind_run.
    rewrite (scan_unit_addressed settings maxCT unitId st c),
      (scan_unit_addressed settings maxCT unitId st c2).
    destruct (proper_scan_unit settings maxCT unitId st (addressed unitId c))
      as (_ & _ & Hsame).
    destruct (Hsame (addressed unitId c2) eq_refl Hh) as (Er & _ & Eh & _).
    destruct (scan_unit settings maxCT unitId st (addressed unitId c))
      as [[[e st1]| |] ca],
        (scan_unit settings maxCT unitId st (addressed unitId c2))
        as [[[e2 st2]| |] cb];
      cbn [fst snd] in *; try discriminate Er; auto.
    apply Ok_inj in Er. injection Er as -> ->.
    destruct e; [now apply IH | auto].
Qed.

Lemma scanUnitRange_frame (settings : PowerTagSettings) (startId endId maxCT : Z)
      (c c2 : Client G) :
  client_handler c2 = client_handler c ->
  (scanUnitRange settings startId endId maxCT c2).1
  = (scanUnitRange settings startId endId maxCT c).1
  /\ client_handler (scanUnitRange settings startId endId maxCT c2).2
     = client_handler (scanUnitRange settings startId endId maxCT c).2.
Proof.
  intros Hh.
  destruct (scan_loop_frame settings maxCT (seqZ startId (endId - startId))
              {| consecutiveTimeouts := 0; scan_devices := [] |} c c2 Hh) as [Er Eh].
  rewrite !scanUnitRange_run.
  destruct (scan_loop settings maxCT _ _ c) as [[[e st1]| |] ca],
      (scan_loop settings maxCT _ _ c2) as [[[e2 st2]| |] cb];
    cbn [fst snd] in *; try discriminate Er; auto.
  apply Ok_inj in Er. injection Er as -> ->. auto.
Qed.

Lemma smartlinkScan_frame (settings : PowerTagSettings) (c c2 : Client G) :
  client_handler c2 = client_handler c ->
  (smartlinkScan settings c2).1 = (smartlinkScan settings c).1.
Proof.
  intros Hh. unfold smartlinkScan. rewrite !bind_run.
  destruct (scanUnitRange_frame settings 150 170 default_maxConsecutiveTimeouts c c2 Hh)
    as [Er1 Eh1].
  destruct (scanUnitRange settings 150 170 default_maxConsecutiveTimeouts c)
    as [[ds1| |] ca1],
      (scanUnitRange settings 150 170 default_maxConsecutiveTimeouts c2)
      as [[ds1'| |] cb1];
    cbn [fst snd] in *; try discriminate Er1; auto.
  apply Ok_inj in Er1. subst ds1'. rewrite !bind_run.
  destruct (scanUnitRange_frame settings 100 150 3 ca1 cb1 Eh1) as [Er2 Eh2].
  destruct (scanUnitRange settings 100 150 3 ca1) as [[ds2| |] ca2],
      (scanUnitRange settings 100 150 3 cb1) as [[ds2'| |] cb2];
    cbn [fst snd] in *; try discriminate Er2; auto.
  apply Ok_inj in Er2. subst ds2'. rewrite !bind_run.
  destruct (scanUnitRange_frame settings 170 200 3 ca2 cb2 Eh2) as [Er3 _].
  destruct (scanUnitRange settings 170 200 3 ca2) as [[ds3| |] ca3],
      (scanUnitRange settings 170 200 3 cb2) as [[ds3'| |] cb3];
    cbn [fst snd] in *; try discriminate Er3; auto.
  apply Ok_inj in Er3. now subst ds3'.
Qed.

End Frame.

Section Fallback.
Context {G : Type} `{Gateway G} `{JsNumber} `{PowerTagRegistry}.

Lemma discoverDevices_fallback_run (settings : PowerTagSettings) (c : Client G) :
  connect (client_gateway c) = Connected ->
  (readPanelServerDeviceAddresses (addressed 255 c)).1 = Err ->
  handler_stalled
    (client_handler (readPanelServerDeviceAddresses (addressed 255 c)).2) = false
  /\ discoverDevices settings c
     = ((smartlinkScan settings (readPanelServerDeviceAddresses (addressed 255 c)).2).1,
        destroySocket
          (smartlinkScan settings (readPanelServerDeviceAddresses (addressed 255 c)).2).2).
Proof.
  intros Hc Hfail.
  assert (Hs : handler_stalled (client_handler c) = false).
  { apply (discoverViaPanelServer_settled settings). now rewrite Hfail. }
  destruct (table_read_ready (addressed 255 c) Hs eq_refl) as [_ Hs1].
  split; [exact Hs1 |].
  destruct (table_read_created c Hs) as (Er & Eu & Eh & El).
  set (c1 := (readPanelServerDeviceAddresses (addressed 255 c)).2) in *.
  rewrite Hfail in Er.
  rewrite discoverDevices_run, Hc. unfold try_catch.
  rewrite discoverViaPanelServer_run.
  destruct (readPanelServerDeviceAddresses (addressed 255 (created c)))
    as [r1 c1'] eqn:E1.
  cbn [fst snd] in Er, Eu, Eh, El. subst r1. cbn [ret length].
  rewrite bool_decide_eq_true_2 by reflexivity.
  destruct (proper_ext (smartlinkScan settings) c1 c1' (proper_smartlinkScan settings)
                       Eu Eh El) as (Er2 & Eu2 & Eh2 & El2 & _).
  destruct (smartlinkScan_ready settings c1 Hs1) as (ds & c2 & E2 & _).
  rewrite E2 in *. cbn [fst snd] in *.
  destruct (smartlinkScan settings c1') as [r2 c2'].
  cbn [fst snd] in *. subst r2. f_equal. now apply destroySocket_ext.
Qed.

End Fallback.

(** X5. Fallback ordering: when the socket connects and the read of the
    address table fails, [discoverDevices] returns what the three range
    scans return, and that is what they return on a fresh client behind
    the gateway as the failed table read left it: the failed first
    strategy leaves no trace in the result. *)
Theorem fallback_after_table_failure
        {G : Type} `{Gateway G} `{JsNumber} `{PowerTagRegistry}
        (settings : PowerTagSettings) (c : Client G) :
  connect (client_gateway c) = Connected ->
  (readPanelServerDeviceAddresses (addressed 255 c)).1 = Err ->
  let c1 := (readPanelServerDeviceAddresses (addressed 255 c)).2 in
  discoverDevices settings c
  = ((smartlinkScan settings c1).1, destroySocket (smartlinkScan settings c1).2)
  /\ (discoverDevices settings c).1
     = (smartlinkScan settings (newClient (client_gateway c1))).1.
Proof.
  intros Hc Hfail c1.
  destruct (discoverDevices_fallback_run settings c Hc Hfail) as [Hs1 Erun].
  fold c1 in Hs1, Erun. split; [exact Erun |].
  rewrite Erun. cbn [fst]. symmetry. apply smartlinkScan_frame.
  unfold newClient, client_gateway. cbn [client_handler].
  destruct (client_handler c1) as [stalled g]. cbn in Hs1 |- *. now subst stalled.
Qed.

Lemma fallback_after_table_failure_witness :
  (discoverDevices example_settings (newClient energy_gateway)).1
  = (smartlinkScan example_settings
       (newClient
          (client_gateway
             (readPanelServerDeviceAddresses
                (addressed 255 (newClient energy_gateway))).2))).1.
Proof.
  assert (Hc : connect (client_gateway (newClient energy_gateway)) = Connected)
    by reflexivity.
  assert (Hfail : (readPanelServerDeviceAddresses
                     (addressed 255 (newClient energy_gateway))).1 = Err)
    by (vm_compute; reflexivity).
  exact (proj2 (fallback_after_table_failure example_settings
                  (newClient energy_gateway) Hc Hfail)).
Defined.

(** X6. Once the address table has been read, the Panel-Server strategy
    never raises, and it reads the commercial reference of occupied
    slots in slot order, once each, whatever those reads and the lookups
    return: a slot that fails is skipped and the loop goes on. A run that
    returns has read the reference of every occupied slot, and the run
    returns whenever no unit id of the table exceeds 255. *)
Theorem panel_strategy_visits_every_slot
        {G : Type} `{Gateway G} `{JsNumber} `{PowerTagRegistry}
        (settings : PowerTagSettings) (c c1 : Client G) (addressMap : JsMap.t) :
  readPanelServerDeviceAddresses (addressed 255 c) = (Ok addressMap, c1) ->
  (discoverViaPanelServer settings c).1 <> Err
  /\ reference_read_units (issued_by (discoverViaPanelServer settings) c)
     `prefix_of` map snd addressMap
  /\ ((exists devices c', discoverViaPanelServer settings c = (Ok devices, c')) ->
      reference_read_units (issued_by (discoverViaPanelServer settings) c)
      = map snd addressMap)
  /\ (Forall (fun entry => entry.2 <= 255) addressMap ->
      (exists devices c', discoverViaPanelServer settings c = (Ok devices, c'))
      /\ reference_read_units (issued_by (discoverViaPanelServer settings) c)
         = map snd addressMap).
Proof.
  intros E.
  destruct (table_read_events (addressed 255 c) (call_throws_fits _ 255 eq_refl))
    as (evs0 & Hlog0 & Hreq0).
  rewrite E in Hlog0. cbn [snd addressed client_log client_unitId] in Hlog0, Hreq0.
  destruct (panel_loop_trace settings addressMap [] c1)
    as (r & c2 & evs & new & E2 & Hr & Hlog & (_ & Hprefix & _) & Hok).
  assert (Erun : discoverViaPanelServer settings c = (r, c2)).
  { rewrite discoverViaPanelServer_run, E. exact E2. }
  assert (Erefs : reference_read_units (issued_by (discoverViaPanelServer settings) c)
                  = reference_read_units (requests_of evs)).
  { unfold issued_by.
    rewrite (new_events_app _ _ (evs0 ++ evs)%list)
      by (rewrite Erun; cbn [snd]; rewrite Hlog, Hlog0; now rewrite <- app_assoc).
    rewrite reference_read_units_app. unfold reference_read_units at 1.
    rewrite Hreq0. reflexivity. }
  assert (Hall : (exists devices c', discoverViaPanelServer settings c = (Ok devices, c')) ->
                 reference_read_units (issued_by (discoverViaPanelServer settings) c)
                 = map snd addressMap).
  { intros (devices & c' & E'). rewrite Erun in E'. injection E' as -> _.
    rewrite Erefs. now destruct (Hok devices eq_refl). }
  split; [now rewrite Erun |].
  split; [now rewrite Erefs |].
  split; [exact Hall |].
  intros Hfit.
  assert (Hret : exists devices c', discoverViaPanelServer settings c = (Ok devices, c')).
  { assert (Hs : handler_stalled (client_handler c) = false).
    { apply (discoverViaPanelServer_settled settings). now rewrite E. }
    destruct (table_read_ready (addressed 255 c) Hs eq_refl) as [_ Hs1].
    rewrite E in Hs1. cbn [snd] in Hs1.
    destruct (panel_loop_ready settings addressMap [] c1 Hs1) as (ds & c3 & E3 & _).
    { rewrite Forall_forall in Hfit. apply Forall_forall. intros [slot unitId] Hin.
      specialize (Hfit _ Hin). cbn [snd] in Hfit |- *.
      assert (Hu : 1 <= unitId <= 65534).
      { apply (address_map_units (addressed 255 c) addressMap); [now rewrite E |].
        apply list_elem_of_In, in_map_iff. exists (slot, unitId).
        split; [reflexivity | now apply list_elem_of_In]. }
      unfold fits_in_byte. apply bool_decide_eq_true. lia. }
    exists ds, c3. rewrite discoverViaPanelServer_run, E. exact E3. }
  split; [exact Hret | now apply Hall].
Qed.

Lemma panel_strategy_visits_every_slot_witness :
  reference_read_units
    (issued_by (discoverViaPanelServer example_settings)
               (newClient (panel_gateway two_slot_table 42 "A9MEM1541")))
  = [42; 42].
Proof.
  pose (c := newClient (panel_gateway two_slot_table 42 "A9MEM1541")).
  assert (E : readPanelServerDeviceAddresses (addressed 255 c)
              = (Ok [(1, 42); (2, 42)],
                 (readPanelServerDeviceAddresses (addressed 255 c)).2)).
  { rewrite (surjective_pairing (readPanelServerDeviceAddresses (addressed 255 c))) at 1.
    apply pair_equal_spec. split; [vm_compute; reflexivity | reflexivity]. }
  destruct (panel_strategy_visits_every_slot example_settings c _ _ E)
    as (_ & _ & _ & Hfit).
  apply Hfit. repeat constructor; cbn; lia.
Defined.

(** ** A gateway that answers no request *)

Section Responses.
Context {G : Type} `{Gateway G} `{JsNumber} `{PowerTagRegistry}.

(** With the handler ready and unit ids that fit in the frame, every
    type read of a scan is answered by the gateway. *)
Lemma scan_loop_responses (settings : PowerTagSettings) (maxCT : Z)
      (unitIds : list Z) (st : ScanState) (c : Client G) :
  handler_stalled (client_handler c) = false ->
  Forall (fun unitId => fits_in_byte unitId = true) unitIds ->
  forall unitId resp,
    Issued unitId type_read resp ∈ new_events (scan_loop settings maxCT unitIds st) c ->
    exists g, resp = (respond g unitId type_read).1.
Proof.
  revert st c. induction unitIds as [|u rest IH]; intros st c Hs Hfit unitId resp Hin.
  - cbn [scan_loop] in Hin. rewrite new_events_ret in Hin.
    now apply elem_of_nil in Hin.
  - apply Forall_cons in Hfit as [Hf Hfit].
    rewrite scan_loop_events in Hin.
    destruct (scan_unit_first_event settings maxCT u st c) as (tail & Efirst & _ & Htail).
    destruct (scan_unit_ready settings maxCT u st c Hs Hf) as (e & st1 & c1 & E1 & Hs1).
    rewrite Efirst, E1 in Hin.
    rewrite handle_ready in Hin by assumption. cbn [fst] in Hin.
    apply elem_of_app in Hin as [Hin | Hin].
    + apply elem_of_cons in Hin as [Hin | Hin].
      * injection Hin as -> ->. now exists (handler_gateway (client_handler c)).
      * now apply Htail in Hin.
    + destruct e; [| now apply elem_of_nil in Hin].
      now apply (IH st1 c1 Hs1 Hfit).
Qed.

Lemma scanUnitRange_responses (settings : PowerTagSettings) (startId endId maxCT : Z)
      (c : Client G) :
  handler_stalled (client_handler c) = false ->
  0 <= startId -> endId <= 256 ->
  forall unitId resp,
    Issued unitId type_read resp
      ∈ new_events (scanUnitRange settings startId endId maxCT) c ->
    exists g, resp = (respond g unitId type_read).1.
Proof.
  intros Hs Hlo Hhi unitId resp Hin. rewrite scanUnitRange_events in Hin.
  apply (scan_loop_responses settings maxCT (seqZ startId (endId - startId))
           {| consecutiveTimeouts := 0; scan_devices := [] |} c Hs); [| exact Hin].
  apply Forall_forall. intros u Hu. apply elem_of_seqZ in Hu.
  unfold fits_in_byte. apply bool_decide_eq_true. lia.
Qed.

End Responses.

Section SilentGateway.
Context {G : Type} `{Gateway G} `{JsNumber} `{PowerTagRegistry}.
Hypothesis every_request_rejected :
  forall (g : G) (unitId : Z) (rq : Request), (respond g unitId rq).1 = Rejected.

Lemma issue_all_rejected (rqs : list Request) (c : Client G) :
  handler_stalled (client_handler c) = false ->
  fits_in_byte (client_unitId c) = true ->
  (issue_all rqs c).1 = Ok (map (fun _ => Rejected) rqs).
Proof.
  revert c. induction rqs as [|rq rqs IH]; intros c Hs Hf; [reflexivity |].
  cbn [issue_all]. rewrite bind_run, issue_run, (call_throws_fits _ _ Hf).
  destruct (handle_stays_ready (client_handler c) (client_unitId c) rq Hs Hf)
    as [_ Hs1].
  rewrite (handle_ready _ _ rq Hs Hf) in *. cbn [fst snd] in *.
  rewrite every_request_rejected.
  match goal with |- context [mkClient ?u ?h ?l ?d] => set (c1 := mkClient u h l d) end.
  specialize (IH c1 Hs1 Hf). rewrite bind_run.
  destruct (issue_all rqs c1) as [[ps| |] c2]; cbn [fst] in IH; try discriminate IH.
  apply Ok_inj in IH. subst ps. reflexivity.
Qed.

Lemma table_read_rejected (c : Client G) :
  handler_stalled (client_handler c) = false ->
  fits_in_byte (client_unitId c) = true ->
  (readPanelServerDeviceAddresses c).1 = Err.
Proof.
  intros Hs Hf.
  destruct (readPanelServerDeviceAddresses_run c (call_throws_fits _ _ Hf))
    as (resps & c1 & E1 & _ & _ & _ & E).
  pose proof (issue_all_rejected address_chunks c Hs Hf) as Hrej.
  rewrite E1 in Hrej. cbn [fst] in Hrej. apply Ok_inj in Hrej. subst resps.
  rewrite E. reflexivity.
Qed.

Lemma scanUnitRange_rejected_run (settings : PowerTagSettings) (startId endId maxCT : Z)
      (c : Client G) :
  handler_stalled (client_handler c) = false ->
  0 <= startId -> endId <= 256 ->
  0 < maxCT ->
  exists c' evs,
    scanUnitRange settings startId endId maxCT c = (Ok [], c')
    /\ handler_stalled (client_handler c') = false
    /\ client_log c' = (client_log c ++ evs)%list
    /\ requests_of evs
       = map (fun unitId => (unitId, type_read))
             (take (Z.to_nat maxCT) (seqZ startId (endId - startId))).
Proof.
  intros Hs Hlo Hhi Hpos.
  assert (Hrej : forall unitId resp,
             Issued unitId type_read resp
               ∈ new_events (scanUnitRange settings startId endId maxCT) c ->
             resp = Rejected).
  { intros unitId resp Hin.
    destruct (scanUnitRange_responses settings startId endId maxCT c Hs Hlo Hhi
                                      unitId resp Hin) as [g ->].
    apply every_request_rejected. }
  destruct (scanUnitRange_ready settings startId endId maxCT c Hs Hlo Hhi)
    as (ds & c' & E & Hs').
  rewrite scanUnitRange_events in Hrej.
  destruct (scan_loop_rejected settings maxCT (seqZ startId (endId - startId))
              {| consecutiveTimeouts := 0; scan_devices := [] |} c)
    as (e & st' & c2 & evs & E2 & Hdev & Hlog & Hreq); [simpl; lia | exact Hrej |].
  rewrite scanUnitRange_run, E2 in E. injection E as <- <-.
  exists c2, evs. rewrite scanUnitRange_run, E2, Hdev.
  split; [reflexivity |]. split; [exact Hs' |]. split; [exact Hlog |].
  rewrite Hreq. cbn [consecutiveTimeouts]. now rewrite Z.sub_0_r.
Qed.

Lemma smartlinkScan_rejected_run (settings : PowerTagSettings) (c : Client G) :
  handler_stalled (client_handler c) = false ->
  exists c' evs,
    smartlinkScan settings c = (Ok [], c')
    /\ client_log c' = (client_log c ++ evs)%list
    /\ requests_of evs
       = map (fun unitId => (unitId, type_read))
             (seqZ 150 10 ++ seqZ 100 3 ++ seqZ 170 3).
Proof.
  intros Hs.
  destruct (scanUnitRange_rejected_run settings 150 170 default_maxConsecutiveTimeouts c Hs)
    as (c1 & evs1 & E1 & Hs1 & Hlog1 & Hreq1); [lia | lia | reflexivity |].
  destruct (scanUnitRange_rejected_run settings 100 150 3 c1 Hs1)
    as (c2 & evs2 & E2 & Hs2 & Hlog2 & Hreq2); [lia | lia | reflexivity |].
  destruct (scanUnitRange_rejected_run settings 170 200 3 c2 Hs2)
    as (c3 & evs3 & E3 & _ & Hlog3 & Hreq3); [lia | lia | reflexivity |].
  exists c3, (evs1 ++ evs2 ++ evs3)%list.
  unfold smartlinkScan. rewrite bind_run, E1, bind_run, E2, bind_run, E3.
  split; [reflexivity |].
  split; [rewrite Hlog3, Hlog2, Hlog1; now rewrite <- !app_assoc |].
  rewrite !requests_of_app, Hreq1, Hreq2, Hreq3, !map_app. reflexivity.
Qed.

End SilentGateway.

(** X7. A gateway that accepts the TCP connection and then answers no
    Modbus request costs one discovery run exactly 20 requests: the four
    table reads at unit 255, then the type reads of units 150..159,
    100..102 and 170..172, after which each scan has given up; the run
    returns the empty list. *)
Theorem silent_gateway_discovery
        {G : Type} `{Gateway G} `{JsNumber} `{PowerTagRegistry}
        (settings : PowerTagSettings) (c : Client G) :
  connect (client_gateway c) = Connected ->
  (forall (g : G) (unitId : Z) (rq : Request), (respond g unitId rq).1 = Rejected) ->
  (discoverDevices settings c).1 = Ok []
  /\ issued_by (discoverDevices settings) c
     = (map (fun rq => (255, rq)) address_chunks
        ++ map (fun unitId => (unitId, type_read))
               (seqZ 150 10 ++ seqZ 100 3 ++ seqZ 170 3))%list
  /\ length (issued_by (discoverDevices settings) c) = 20%nat.
Proof.
  intros Hc Hrej.
  pose proof (table_read_rejected Hrej (addressed 255 (created c)) eq_refl eq_refl)
    as Hfail.
  destruct (table_read_ready (addressed 255 (created c)) eq_refl eq_refl) as [_ Hs1].
  destruct (table_read_events (addressed 255 (created c)) (call_throws_fits _ 255 eq_refl))
    as (evs0 & Hlog0 & Hreq0).
  cbn [addressed created client_log client_unitId] in Hlog0, Hreq0.
  destruct (smartlinkScan_rejected_run Hrej settings
              (readPanelServerDeviceAddresses (addressed 255 (created c))).2 Hs1)
    as (c' & evs1 & Escan & Hlog & Hreq1).
  assert (Erun : discoverDevices settings c = (Ok [], destroySocket c')).
  { rewrite discoverDevices_run, Hc. unfold try_catch.
    rewrite discoverViaPanelServer_run.
    destruct (readPanelServerDeviceAddresses (addressed 255 (created c)))
      as [[m| |] c1]; cbn [fst snd] in *; try discriminate Hfail.
    cbn [ret length]. rewrite bool_decide_eq_true_2 by reflexivity.
    now rewrite Escan. }
  assert (Eissued : issued_by (discoverDevices settings) c
                    = (map (fun rq => (255, rq)) address_chunks
                       ++ map (fun unitId => (unitId, type_read))
                              (seqZ 150 10 ++ seqZ 100 3 ++ seqZ 170 3))%list).
  { unfold issued_by.
    rewrite (new_events_app _ _ (evs0 ++ evs1)%list)
      by (rewrite Erun; cbn [snd destroySocket client_log]; rewrite Hlog, Hlog0;
          now rewrite <- app_assoc).
    now rewrite requests_of_app, Hreq0, Hreq1. }
  split; [now rewrite Erun |]. split; [exact Eissued |].
  rewrite Eissued. reflexivity.
Qed.

Lemma silent_gateway_discovery_witness :
  length (issued_by (discoverDevices example_settings) (newClient dead)) = 20%nat.
Proof.
  assert (Hc : connect (client_gateway (newClient dead)) = Connected) by reflexivity.
  assert (Hrej : forall (g : DeadGateway) (unitId : Z) (rq : Request),
             (respond g unitId rq).1 = Rejected) by reflexivity.
  exact (proj2 (proj2 (silent_gateway_discovery example_settings (newClient dead)
                         Hc Hrej))).
Defined.

(** ** A scan whose type reads are all answered *)

Section AnsweredScan.
Context {G : Type} `{Gateway G} `{JsNumber} `{PowerTagRegistry}.

Lemma scan_loop_answered (settings : PowerTagSettings) (maxCT : Z)
      (unitIds : list Z) (st : ScanState) (c : Client G) :
  (forall unitId resp,
      Issued unitId type_read resp ∈ new_events (scan_loop settings maxCT unitIds st) c ->
      exists typeId, deviceType_of resp = Ok typeId) ->
  (exists st' c', scan_loop settings maxCT unitIds st c = (Ok (Continue, st'), c'))
  /\ type_read_units (requests_of (new_events (scan_loop settings maxCT unitIds st) c))
     = unitIds.
Proof.
  revert st c. induction unitIds as [|unitId rest IH]; intros st c Hans.
  - split; [now exists st, c |]. cbn [scan_loop]. now rewrite new_events_ret.
  - rewrite scan_loop_events in Hans |- *.
    destruct (scan_unit_first_event settings maxCT unitId st c)
      as (tail & Efirst & Htail & _).
    destruct (Hans unitId (handle (client_handler c) unitId type_read).1)
      as [typeId Htype].
    { rewrite Efirst. apply elem_of_app. left. left. }
    assert (Eturn : exists st1 c1,
               scan_unit settings maxCT unitId st c = (Ok (Continue, st1), c1)).
    { pose proof (scan_unit_run settings maxCT unitId st c) as Eturn.
      destruct (handle (client_handler c) unitId type_read) as [resp h1].
      cbn [fst] in Htype. cbv zeta in Eturn. rewrite Htype in Eturn.
      destruct (scanned_model typeId);
        [destruct (handle h1 unitId name_read) |]; eauto. }
    destruct Eturn as (st1 & c1 & E1). rewrite E1 in Hans |- *.
    destruct (IH st1 c1) as [(st' & c' & E2) Hreads].
    { intros u resp Hin. apply (Hans u). apply elem_of_app. now right. }
    split.
    + exists st', c'. cbn [scan_loop]. rewrite bind_run, E1. exact E2.
    + rewrite type_read_units_app, Hreads, Efirst, requests_of_Issued,
        type_read_units_turn, Htail.
      reflexivity.
Qed.

End AnsweredScan.

(** X8. As long as every device-type read that the scan issues is
    answered with a value, whatever the values and the threshold,
    [scanUnitRange] never stops early: it reads the device type of every
    unit id from startId to endId - 1, once each and in ascending order,
    and returns. *)
Theorem scanUnitRange_reads_whole_range
        {G : Type} `{Gateway G} `{JsNumber} `{PowerTagRegistry}
        (settings : PowerTagSettings) (startId endId maxCT : Z) (c : Client G) :
  (forall (unitId : Z) (resp : Response),
      Issued unitId type_read resp
        ∈ new_events (scanUnitRange settings startId endId maxCT) c ->
      exists typeId, deviceType_of resp = Ok typeId) ->
  type_read_units (issued_by (scanUnitRange settings startId endId maxCT) c)
  = seqZ startId (endId - startId)
  /\ exists devices c',
      scanUnitRange settings startId endId maxCT c = (Ok devices, c').
Proof.
  intros Hanswered. rewrite scanUnitRange_events in Hanswered.
  destruct (scan_loop_answered settings maxCT (seqZ startId (endId - startId))
              {| consecutiveTimeouts := 0; scan_devices := [] |} c Hanswered)
    as [(st' & c' & E) Hreads].
  split.
  - unfold issued_by. rewrite scanUnitRange_events. exact Hreads.
  - exists (scan_devices st'), c'. now rewrite scanUnitRange_run, E.
Qed.

Lemma scanUnitRange_reads_whole_range_witness :
  type_read_units (issued_by (scanUnitRange example_settings 100 105 3) (newClient zeros))
  = [100; 101; 102; 103; 104].
Proof.
  apply (scanUnitRange_reads_whole_range example_settings 100 105 3 (newClient zeros)).
  intros unitId resp Hin.
  assert (Hall : Forall (fun e => match e with
                                  | Issued _ _ resp => is_Ok (deviceType_of resp) = true
                                  | Awaited _ => True
                                  end)
                        (new_events (scanUnitRange example_settings 100 105 3)
                                    (newClient zeros)))
    by (vm_compute; repeat constructor).
  rewrite Forall_forall in Hall. specialize (Hall _ Hin). cbn beta iota in Hall.
  destruct (deviceType_of resp) as [typeId| |]; [now exists typeId | discriminate ..].
Defined.

(** ** Decoding response bodies *)

Section Decoding.
Context {G : Type} `{Gateway G} `{JsNumber}.




Lemma at_Some {A} (buf : list A) (offset : Z) :
  is_Some (Buffer.at_ buf offset) <-> 0 <= offset < Z.of_nat (length buf).
Proof.
  unfold Buffer.at_. case_bool_decide as Hb.
  - rewrite lookup_lt_is_Some. lia.
  - split; [intros [x Hx]; discriminate | lia].
Qed.

Lemma readUInt16BE_Ok (buf : list byte) (offset : Z) :
  is_Ok (Buffer.readUInt16BE buf offset) = true
  <-> 0 <= offset /\ offset + 2 <= Z.of_nat (length buf).
Proof.
  pose proof (at_Some buf offset) as Hhi.
  pose proof (at_Some buf (offset + 1)) as Hlo.
  unfold Buffer.readUInt16BE.
  destruct (Buffer.at_ buf offset) as [hi|].
  - destruct (Buffer.at_ buf (offset + 1)) as [lo|]; cbn [is_Ok].
    + assert (0 <= offset + 1 < Z.of_nat (length buf)) by (apply Hlo; eauto).
      assert (0 <= offset < Z.of_nat (length buf)) by (apply Hhi; eauto).
      split; [intros _; lia | reflexivity].
    + split; [discriminate |]. intros Hr.
      assert (Hs : is_Some (@None byte)) by (apply Hlo; lia).
      destruct Hs as [x Hx]. discriminate Hx.
  - cbn [is_Ok]. split; [discriminate |]. intros Hr.
    assert (Hs : is_Some (@None byte)) by (apply Hhi; lia).
    destruct Hs as [x Hx]. discriminate Hx.
Qed.

Lemma readUInt16BE_of_register (v : Z) :
  0 <= v < 65536 -> Buffer.readUInt16BE (Buffer.of_register v) 0 = Ok v.
Proof.
  intros Hv. destruct (of_register_value v Hv) as (hi & lo & -> & Eval).
  change (Buffer.readUInt16BE [hi; lo] 0)
    with (Ok (Buffer.byteZ hi * 256 + Buffer.byteZ lo)).
  now rewrite Eval.
Qed.









End Decoding.

Section PollBodies.
Context {G : Type} `{Gateway G} `{JsNumber}.










End PollBodies.



(** X10. Polarity of the control registers: when the two block reads are
    fulfilled with the registers v1 and v2, the Control 2DI poll reports
    an input as on exactly when its register holds 0, and the Control IO
    poll reports the input as on exactly when its register holds 0 and
    the output as on exactly when its register holds 1. *)
Theorem control_polls_polarity {G : Type} `{Gateway G} (c : Client G) (v1 v2 : Z) :
  0 <= v1 < 65536 ->
  0 <= v2 < 65536 ->
  ((issue_all control2DI_blocks c).1
   = Ok [Fulfilled (Buffer.of_register v1); Fulfilled (Buffer.of_register v2)] ->
   (readControl2DIRegisters c).1
   = Ok {| di1Status := bool_decide (v1 = 0); di2Status := bool_decide (v2 = 0) |})
  /\ ((issue_all controlIO_blocks c).1
      = Ok [Fulfilled (Buffer.of_register v1); Fulfilled (Buffer.of_register v2)] ->
      (readControlIORegisters c).1
      = Ok {| io_di1Status := bool_decide (v1 = 0);
              io_outputStatus := bool_decide (v2 = 1) |}).
Proof.
  intros Hv1 Hv2. split; intros Hissue.
  - unfold readControl2DIRegisters. rewrite poll_run, Hissue.
    cbn [settle_all settle decode_control2DI].
    now rewrite !readUInt16BE_of_register by assumption.
  - unfold readControlIORegisters. rewrite poll_run, Hissue.
    cbn [settle_all settle decode_controlIO].
    now rewrite !readUInt16BE_of_register by assumption.
Qed.

Lemma control_polls_polarity_witness :
  (readControlIORegisters (newClient controlIO_gateway)).1
  = Ok {| io_di1Status := true; io_outputStatus := false |}.
Proof.
  destruct (control_polls_polarity (newClient controlIO_gateway) 0 0) as [_ Hio];
    [lia | lia |].
  apply Hio. vm_compute. reflexivity.
Defined.

(** ** The shape of the address map *)

Section AddressMapShape.
Context {G : Type} `{Gateway G}.

Lemma table_entries_NoDup (chunks : list (list byte)) :
  NoDup (map fst (table_entries chunks (seqZ 1 99))).
Proof.
  eapply sublist_NoDup; [apply NoDup_seqZ | apply table_entries_slots].
Qed.

Lemma slot_unitId_enough (bufs : list (list byte)) (slot : Z) :
  bodies_at_least [242; 242; 242; 232]%nat bufs ->
  1 <= slot <= 99 ->
  is_Ok (slot_unitId bufs slot) = true.
Proof.
  unfold bodies_at_least. intros Hb Hslot.
  repeat match goal with
         | Hf : Forall2 _ (_ :: _) _ |- _ =>
             apply Forall2_cons_inv_l in Hf as (? & ? & ? & Hf & ->)
         | Hf : Forall2 _ [] _ |- _ => apply Forall2_nil_inv_l in Hf as ->
         end.
  unfold slot_unitId.
  rewrite Z.rem_mod_nonneg by lia.
  pose proof (Z.div_mod ((slot - 1) * 5) 125 ltac:(lia)) as Hdm.
  pose proof (Z.mod_pos_bound ((slot - 1) * 5) 125 ltac:(lia)) as Hm.
  set (k := ((slot - 1) * 5) `div` 125) in *.
  set (i := ((slot - 1) * 5) `mod` 125) in *.
  assert (Hk : k = 0 \/ k = 1 \/ k = 2 \/ k = 3) by lia.
  destruct Hk as [-> | [-> | [-> | ->]]];
    match goal with
    | |- context [Buffer.at_ ?l ?n] =>
        let b := eval cbv in (Buffer.at_ l n) in change (Buffer.at_ l n) with b
    end;
    cbv beta iota; apply readUInt16BE_Ok; lia.
Qed.

Lemma slot_unitId_needs (bufs : list (list byte)) (slot : Z) :
  is_Ok (slot_unitId bufs slot) = true ->
  exists buf,
    Buffer.at_ bufs (((slot - 1) * 5) / 125) = Some buf
    /\ Z.rem ((slot - 1) * 5) 125 * 2 + 2 <= Z.of_nat (length buf).
Proof.
  unfold slot_unitId.
  destruct (Buffer.at_ bufs (((slot - 1) * 5) / 125)) as [buf|]; [| discriminate].
  intros Hok. apply readUInt16BE_Ok in Hok. exists buf. split; [reflexivity | lia].
Qed.

(** The slot loop reads up to byte 242 of the first three bodies (slots
    25, 50 and 75) and up to byte 232 of the fourth (slot 99). *)
Lemma slot_loop_Ok (bufs : list (list byte)) :
  length bufs = 4%nat ->
  forallb (fun slot => is_Ok (slot_unitId bufs slot)) (seqZ 1 99) = true
  <-> bodies_at_least [242; 242; 242; 232]%nat bufs.
Proof.
  intros Hlen. split.
  - intros Hall. rewrite forallb_forall in Hall.
    assert (Hslot : forall slot, 1 <= slot <= 99 ->
                                 is_Ok (slot_unitId bufs slot) = true).
    { intros slot Hs. apply Hall, list_elem_of_In, elem_of_seqZ. lia. }
    destruct bufs as [|b0 [|b1 [|b2 [|b3 [|b4 bufs]]]]]; try discriminate Hlen.
    destruct (slot_unitId_needs _ 25 (Hslot 25 ltac:(lia))) as (x0 & E0 & L0).
    destruct (slot_unitId_needs _ 50 (Hslot 50 ltac:(lia))) as (x1 & E1 & L1).
    destruct (slot_unitId_needs _ 75 (Hslot 75 ltac:(lia))) as (x2 & E2 & L2).
    destruct (slot_unitId_needs _ 99 (Hslot 99 ltac:(lia))) as (x3 & E3 & L3).
    change (Some b0 = Some x0) in E0. change (Some b1 = Some x1) in E1.
    change (Some b2 = Some x2) in E2. change (Some b3 = Some x3) in E3.
    injection E0 as <-. injection E1 as <-. injection E2 as <-. injection E3 as <-.
    change (242 <= Z.of_nat (length b0)) in L0.
    change (242 <= Z.of_nat (length b1)) in L1.
    change (242 <= Z.of_nat (length b2)) in L2.
    change (232 <= Z.of_nat (length b3)) in L3.
    unfold bodies_at_least. repeat constructor; lia.
  - intros Hb. apply forallb_forall. intros slot Hin.
    apply list_elem_of_In, elem_of_seqZ in Hin.
    apply slot_unitId_enough; [exact Hb | lia].
Qed.

Lemma readPanelServerDeviceAddresses_result (c : Client G) :
  (readPanelServerDeviceAddresses c).1
  = match (issue_all address_chunks c).1 with
    | Ok resps =>
        match settle_all resps with
        | Ok bufs =>
            if forallb (fun slot => is_Ok (slot_unitId bufs slot)) (seqZ 1 99)
            then Ok (table_entries bufs (seqZ 1 99))
            else Err
        | Err => Err
        | Never => Never
        end
    | Err => Err
    | Never => Never
    end.
Proof.
  destruct (call_throws (client_handler c) (client_unitId c)) eqn:Ht.
  - destruct (readPanelServerDeviceAddresses_thrown c Ht) as [-> _].
    unfold address_chunks. now rewrite issue_all_thrown.
  - destruct (readPanelServerDeviceAddresses_run c Ht)
      as (resps & c1 & E1 & _ & _ & _ & E2).
    rewrite E2, E1. reflexivity.
Qed.

Lemma issue_all_length (rqs : list Request) (c : Client G) (resps : list Response) :
  (issue_all rqs c).1 = Ok resps -> length resps = length rqs.
Proof.
  destruct rqs as [|rq rqs]; [intros Er; apply Ok_inj in Er; now subst resps |].
  intros Er. pose proof (issue_all_returns _ _ _ _ Er) as Hn.
  destruct (issue_all_spec (rq :: rqs) c Hn) as (resps' & c' & E & Hlen & _).
  rewrite E in Er. cbn [fst] in Er. apply Ok_inj in Er. now subst resps'.
Qed.

End AddressMapShape.

(** X11. The read of the Panel Server address table returns a map exactly
    when all four chunk reads are fulfilled and their bodies hold at least
    242, 242, 242 and 232 bytes (the last slots of the chunks, 25, 50, 75
    and 99, read bytes 240..241 and 230..231): a rejected chunk or a
    body cut short makes it raise, whatever the other slots hold. *)
Theorem address_table_read_needs_whole_chunks {G : Type} `{Gateway G} (c : Client G) :
  is_Ok (readPanelServerDeviceAddresses c).1 = true
  <-> exists bufs,
        (issue_all address_chunks c).1 = Ok (map Fulfilled bufs)
        /\ bodies_at_least [242; 242; 242; 232]%nat bufs.
Proof.
  rewrite readPanelServerDeviceAddresses_result.
  assert (Hsel : forall l : list (list byte),
             omap (fun r => match r with
                            | Fulfilled b => Some b
                            | Rejected | Pending => None
                            end) (map Fulfilled l) = l).
  { intros l. induction l as [|x l IH]; [reflexivity |]. cbn. now rewrite IH. }
  destruct (issue_all address_chunks c).1 as [resps| |] eqn:Ei.
  - pose proof (issue_all_length _ _ _ Ei) as Hlen.
    destruct (settle_all resps) as [bufs| |] eqn:Es.
    + apply settle_all_Ok in Es. subst resps. rewrite length_map in Hlen.
      pose proof (slot_loop_Ok bufs Hlen) as Hloop.
      destruct (forallb _ _) eqn:Ef.
      * split; [| reflexivity]. intros _. exists bufs.
        split; [reflexivity | now apply Hloop].
      * split; [discriminate |]. intros (bufs' & Eb & Hb).
        apply Ok_inj in Eb.
        apply (f_equal (omap (fun r => match r with
                                       | Fulfilled b => Some b
                                       | Rejected | Pending => None
                                       end))) in Eb.
        rewrite !Hsel in Eb. subst bufs'.
        apply Hloop in Hb. discriminate Hb.
    + split; [discriminate |]. intros (bufs & Eb & _).
      apply Ok_inj in Eb. subst resps.
      rewrite (proj2 (settle_all_Ok _ bufs) eq_refl) in Es. discriminate Es.
    + split; [discriminate |]. intros (bufs & Eb & _).
      apply Ok_inj in Eb. subst resps.
      rewrite (proj2 (settle_all_Ok _ bufs) eq_refl) in Es. discriminate Es.
  - split; [discriminate |]. intros (bufs & Eb & _). discriminate Eb.
  - split; [discriminate |]. intros (bufs & Eb & _). discriminate Eb.
Qed.

(** X12. Whatever the gateway sent, a map that
    [readPanelServerDeviceAddresses] returns has its slots in increasing
    order among 1..99, each at most once, so at most 99 entries; [get]
    finds exactly its entries; every unit id in it lies between 1 and
    65534; and its entries are exactly the slots whose first register
    reads as a value other than 0 and 65535 in the bodies received. *)
Theorem address_map_shape {G : Type} `{Gateway G} (c : Client G) (addressMap : JsMap.t) :
  (readPanelServerDeviceAddresses c).1 = Ok addressMap ->
  map fst addressMap `sublist_of` seqZ 1 99
  /\ NoDup (map fst addressMap)
  /\ (length addressMap <= 99)%nat
  /\ (forall slot unitId,
         JsMap.get addressMap slot = Some unitId <-> (slot, unitId) ∈ addressMap)
  /\ Forall (fun entry => 1 <= entry.2 <= 65534) addressMap
  /\ exists bufs,
      (issue_all address_chunks c).1 = Ok (map Fulfilled bufs)
      /\ forall slot unitId,
          (slot, unitId) ∈ addressMap
          <-> 1 <= slot <= 99
              /\ slot_unitId bufs slot = Ok unitId
              /\ unitId <> 0 /\ unitId <> 65535.
Proof.
  rewrite readPanelServerDeviceAddresses_result.
  destruct (issue_all address_chunks c).1 as [resps| |] eqn:Ei; [| discriminate ..].
  destruct (settle_all resps) as [bufs| |] eqn:Es; [| discriminate ..].
  destruct (forallb _ _); [| discriminate].
  intros E. apply Ok_inj in E. subst addressMap.
  apply settle_all_Ok in Es. subst resps.
  pose proof (table_entries_slots bufs (seqZ 1 99)) as Hsub.
  split; [exact Hsub |].
  split; [apply table_entries_NoDup |].
  split.
  { apply sublist_length in Hsub. rewrite length_map, length_seqZ in Hsub. lia. }
  split.
  { intros slot unitId. apply JsMap_get_Some, table_entries_NoDup. }
  split.
  { apply Forall_forall. intros [slot unitId] Hin.
    apply (table_entries_units bufs (seqZ 1 99)).
    apply list_elem_of_In, in_map_iff. exists (slot, unitId).
    split; [reflexivity | now apply list_elem_of_In]. }
  exists bufs. split; [reflexivity |].
  intros slot unitId.
  rewrite table_entries_elem, elem_of_seqZ, occupied_spec. intuition lia.
Qed.

Lemma address_map_shape_witness :
  (readPanelServerDeviceAddresses
     (addressed 255 (newClient (panel_gateway one_slot_table 42 "A9MEM1541")))).1
  = Ok [(5, 42)]
  /\ JsMap.get [(5, 42)] 5 = Some 42.
Proof.
  assert (E : (readPanelServerDeviceAddresses
                 (addressed 255
                    (newClient (panel_gateway one_slot_table 42 "A9MEM1541")))).1
              = Ok [(5, 42)])
    by (vm_compute; reflexivity).
  split; [exact E |].
  destruct (address_map_shape _ _ E) as (_ & _ & _ & Hget & _).
  apply Hget. left.
Defined.

(** ** The ASCII parser, both ways *)

Section AsciiRoundTrip.

Lemma byteZ_zero (b : byte) : Buffer.byteZ b = 0 <-> ascii_of_byte b = "000"%char.
Proof.
  destruct b; vm_compute; split; intros E; solve [reflexivity | discriminate E].
Qed.

Lemma until_zero_no_zero (buf : list byte) :
  Forall (fun b => Buffer.byteZ b <> 0) (until_zero buf).
Proof.
  induction buf as [|b rest IH]; cbn [until_zero]; [constructor |].
  case_bool_decide as Hb; [constructor | now constructor].
Qed.

Lemma until_zero_length (buf : list byte) :
  (length (until_zero buf) <= length buf)%nat.
Proof.
  induction buf as [|b rest IH]; cbn [until_zero]; [lia |].
  case_bool_decide; cbn [length]; lia.
Qed.

Lemma until_zero_encode (s : list ascii) (rest : list byte) :
  "000"%char ∉ s ->
  head rest = None \/ head rest = Some x00%byte ->
  until_zero (map byte_of_ascii s ++ rest) = map byte_of_ascii s.
Proof.
  intros Hs Hrest. induction s as [|a s IH].
  - cbn [map app]. destruct rest as [|b rest]; [reflexivity |].
    destruct Hrest as [Hr | Hr]; [discriminate Hr |].
    injection Hr as ->. reflexivity.
  - cbn [map app until_zero].
    rewrite bool_decide_eq_false_2.
    + f_equal. apply IH. intros Hin. apply Hs. now right.
    + rewrite byteZ_zero, ascii_of_byte_of_ascii. intros ->. apply Hs. left.
Qed.

Lemma chars_of_encode (s : list ascii) : chars_of (map byte_of_ascii s) = s.
Proof.
  unfold chars_of. induction s as [|a s IH]; [reflexivity |].
  cbn [map]. now rewrite ascii_of_byte_of_ascii, IH.
Qed.

Lemma trimStart_id (s : list ascii) :
  (forall c, head s = Some c -> JsString.is_whitespace c = false) ->
  JsString.trimStart s = s.
Proof.
  destruct s as [|a s]; [reflexivity |].
  intros Hh. cbn [JsString.trimStart]. now rewrite (Hh a eq_refl).
Qed.

Lemma trimEnd_id (s : list ascii) :
  (forall c, last s = Some c -> JsString.is_whitespace c = false) ->
  JsString.trimEnd s = s.
Proof.
  intros Hl. unfold JsString.trimEnd.
  rewrite trimStart_id by (now rewrite head_reverse).
  apply reverse_involutive.
Qed.

Lemma parseAsciiBuffer_chars (buf : list byte) :
  list_ascii_of_string (parseAsciiBuffer buf)
  = JsString.trimEnd (JsString.trimStart (chars_of (until_zero buf))).
Proof.
  unfold parseAsciiBuffer. rewrite trim_chars.
  now rewrite parseAsciiBuffer_loop_chars.
Qed.

Lemma parseAsciiBuffer_encode (s : string) (rest : list byte) :
  "000"%char ∉ list_ascii_of_string s ->
  (forall c, head (list_ascii_of_string s) = Some c ->
             JsString.is_whitespace c = false) ->
  (forall c, last (list_ascii_of_string s) = Some c ->
             JsString.is_whitespace c = false) ->
  head rest = None \/ head rest = Some x00%byte ->
  parseAsciiBuffer (list_byte_of_string s ++ rest) = s.
Proof.
  intros Hz Hh Hl Hrest.
  rewrite <- (string_of_list_ascii_of_string (parseAsciiBuffer _)).
  rewrite parseAsciiBuffer_chars. unfold list_byte_of_string.
  rewrite until_zero_encode, chars_of_encode by assumption.
  rewrite trimStart_id, trimEnd_id by assumption.
  apply string_of_list_ascii_of_string.
Qed.

Lemma parseAsciiBuffer_sublist (buf : list byte) :
  list_ascii_of_string (parseAsciiBuffer buf) `sublist_of` chars_of (until_zero buf).
Proof.
  rewrite parseAsciiBuffer_chars.
  destruct (trimStart_split (chars_of (until_zero buf))) as (l & El & _).
  destruct (trimEnd_split (JsString.trimStart (chars_of (until_zero buf))))
    as (r & Er & _).
  rewrite El at 2. rewrite Er at 2.
  apply sublist_inserts_l, sublist_inserts_r. reflexivity.
Qed.

End AsciiRoundTrip.

(** X13. Round trip: a string without a NUL character that neither starts
    nor ends with whitespace is read back unchanged by [parseAsciiBuffer]
    from its bytes, whether the buffer ends with them or a zero byte
    follows, whatever comes after that zero byte. *)
Theorem parseAsciiBuffer_round_trip (s : string) (rest : list byte) :
  "000"%char ∉ list_ascii_of_string s ->
  (forall c, head (list_ascii_of_string s) = Some c ->
             JsString.is_whitespace c = false) ->
  (forall c, last (list_ascii_of_string s) = Some c ->
             JsString.is_whitespace c = false) ->
  parseAsciiBuffer (list_byte_of_string s) = s
  /\ parseAsciiBuffer (list_byte_of_string s ++ x00%byte :: rest) = s.
Proof.
  intros Hz Hh Hl. split.
  - rewrite <- (app_nil_r (list_byte_of_string s)).
    apply parseAsciiBuffer_encode; auto.
  - apply parseAsciiBuffer_encode; auto.
Qed.

Lemma parseAsciiBuffer_round_trip_witness :
  parseAsciiBuffer (list_byte_of_string "PowerTag M63" ++ x00%byte :: [x41%byte])
  = "PowerTag M63".
Proof.
  apply (parseAsciiBuffer_round_trip "PowerTag M63" [x41%byte]).
  - intros Hin. apply list_elem_of_In in Hin. vm_compute in Hin.
    repeat (destruct Hin as [Hin | Hin]; [discriminate Hin |]). exact Hin.
  - intros c Hc. injection Hc as <-. reflexivity.
  - intros c Hc. vm_compute in Hc. injection Hc as <-. reflexivity.
Defined.

(** X14. Whatever the buffer, the string [parseAsciiBuffer] returns holds
    no NUL character, is no longer than the buffer, and is a fixed point:
    parsing its own bytes, with or without zero padding, gives it back. *)
Theorem parseAsciiBuffer_canonical (buf : list byte) :
  let out := parseAsciiBuffer buf in
  ("000"%char ∉ list_ascii_of_string out)
  /\ (String.length out <= length buf)%nat
  /\ parseAsciiBuffer (list_byte_of_string out) = out
  /\ forall n, parseAsciiBuffer (list_byte_of_string out ++ replicate n x00%byte) = out.
Proof.
  intros out.
  pose proof (parseAsciiBuffer_sublist buf) as Hsub. fold out in Hsub.
  assert (Hz : "000"%char ∉ list_ascii_of_string out).
  { intros Hin. eapply elem_of_sublist in Hin; [| exact Hsub].
    unfold chars_of in Hin. apply list_elem_of_In, in_map_iff in Hin as (b & Eb & Hb).
    apply byteZ_zero in Eb.
    pose proof (until_zero_no_zero buf) as Hnz. rewrite Forall_forall in Hnz.
    apply (Hnz b); [now apply list_elem_of_In | exact Eb]. }
  assert (Hh : forall c, head (list_ascii_of_string out) = Some c ->
                         JsString.is_whitespace c = false).
  { intros c Hc. unfold out in Hc. rewrite parseAsciiBuffer_chars in Hc.
    apply trimEnd_head in Hc. now apply trimStart_head in Hc. }
  assert (Hl : forall c, last (list_ascii_of_string out) = Some c ->
                         JsString.is_whitespace c = false).
  { intros c Hc. unfold out in Hc. rewrite parseAsciiBuffer_chars in Hc.
    now apply trimEnd_last in Hc. }
  split; [exact Hz |].
  split.
  { apply sublist_length in Hsub.
    unfold chars_of in Hsub. rewrite length_map in Hsub.
    pose proof (until_zero_length buf) as Hu.
    assert (El : forall s, length (list_ascii_of_string s) = String.length s).
    { intros s. induction s as [|a s IH]; [reflexivity | cbn; now rewrite IH]. }
    rewrite El in Hsub. lia. }
  split.
  { rewrite <- (app_nil_r (list_byte_of_string out)).
    apply parseAsciiBuffer_encode; auto. }
  intros n. apply parseAsciiBuffer_encode; auto.
  destruct n; [now left | now right].
Qed.

(** ** The pairing session *)

Section PairingSession.
Context {G : Type} `{Gateway G} `{JsNumber} `{PowerTagRegistry}.

Lemma pairing_state_snoc (calls : list SettingsCall) (data : PowerTagSettings)
      (socket : ConnectOutcome) (nextView : Result unit) :
  pairing_state (calls ++ [(data, socket, nextView)]) = Some data.
Proof.
  unfold pairing_state. rewrite foldl_app. cbn [foldl].
  unfold gateway_settings_handler.
  destruct (validateGateway _ _ socket); [destruct nextView | |]; reflexivity.
Qed.

Lemma pairing_state_last (calls : list SettingsCall) :
  pairing_state calls = (fun call => call.1.1) <$> last calls.
Proof.
  destruct calls as [|call calls _] using rev_ind; [reflexivity |].
  destruct call as [[data socket] nextView].
  rewrite pairing_state_snoc, last_snoc. reflexivity.
Qed.

End PairingSession.

(** X15. One pairing session: the 'gateway_settings' handler resolves
    (to true) exactly when its validation socket connects and
    [nextView] succeeds, but it stores the data it was sent before it
    validates them. So 'list_devices' raises without touching the client
    as long as 'gateway_settings' was never called; after that it runs
    [discoverDevices] with the data of the latest call, even one whose
    validation failed. It raises exactly when no data were ever sent or
    the socket of that discovery does not connect, and it returns a list
    only if data were sent and that socket connects. *)
Theorem pairing_uses_latest_settings
        {G : Type} `{Gateway G} `{JsNumber} `{PowerTagRegistry}
        (calls : list SettingsCall) (c : Client G) :
  (forall data socket nextView st,
      ((gateway_settings_handler data socket nextView st).1 = Ok true
       <-> socket = Connected /\ nextView = Ok tt)
      /\ (gateway_settings_handler data socket nextView st).1 <> Ok false)
  /\ list_devices_handler (pairing_state calls) c
     = match last calls with
       | None => (Err, c)
       | Some (data, _, _) => discoverDevices data c
       end
  /\ ((list_devices_handler (pairing_state calls) c).1 = Err
      <-> calls = [] \/ connect (client_gateway c) <> Connected)
  /\ (is_Ok (list_devices_handler (pairing_state calls) c).1 = true ->
      calls <> [] /\ connect (client_gateway c) = Connected).
Proof.
  assert (Hrun : list_devices_handler (pairing_state calls) c
                 = match last calls with
                   | None => (Err, c)
                   | Some (data, _, _) => discoverDevices data c
                   end).
  { rewrite pairing_state_last.
    destruct (last calls) as [[[data socket] nextView]|]; reflexivity. }
  split.
  { intros data socket nextView st. unfold gateway_settings_handler, validateGateway.
    destruct socket, nextView as [[]| |]; cbn [fst];
      (split; [split; [intros E; (split; [reflexivity || discriminate E
                                         | reflexivity || discriminate E])
                      | intros [E1 E2]; (reflexivity || discriminate E1 || discriminate E2)]
              | discriminate]). }
  split; [exact Hrun |].
  assert (Herr : (list_devices_handler (pairing_state calls) c).1 = Err
                 <-> calls = [] \/ connect (client_gateway c) <> Connected).
  { rewrite Hrun.
    destruct calls as [|call calls _] using rev_ind.
    { cbn. split; [now left | reflexivity]. }
    rewrite last_snoc. destruct call as [[data socket] nextView].
    destruct (discoverDevices_trace data c) as (r & c' & evs & E & _ & _ & _ & Hr & _).
    rewrite E. cbn [fst]. rewrite Hr. split; [now right |].
    intros [Eapp | Hc]; [| exact Hc]. now apply app_nil in Eapp as [_ Eapp]. }
  split; [exact Herr |].
  intros Hok.
  assert (Hne : (list_devices_handler (pairing_state calls) c).1 <> Err)
    by (intros E; rewrite E in Hok; discriminate Hok).
  rewrite Herr in Hne.
  split; [intros ->; apply Hne; now left |].
  destruct (connect (client_gateway c)); [reflexivity | exfalso; apply Hne ..];
    right; discriminate.
Qed.

